(** * MoonTV proxy worker: a shallow embedding of [_worker.js] and of the
      Pages gate worker, with the properties of their specification.

    Strings are JavaScript strings: finite sequences of UTF-16 code units.
    Platform classes ([Headers], [Response], [URL], [RegExp]) are modelled
    after their standards as far as the worker observes them. *)

From Stdlib Require Import ZArith List Bool Lia String Ascii Sorted.
Import ListNotations.
Open Scope Z_scope.

(** ** JavaScript strings *)

(** A string is the list of its UTF-16 code units. *)
Definition jsstring := list Z.

(** The code units of an ASCII literal. *)
Definition js (s : string) : jsstring :=
  map (fun a => Z.of_N (N_of_ascii a)) (list_ascii_of_string s).

(** [a === b] on strings. *)
Fixpoint streq (a b : jsstring) : bool :=
  match a, b with
  | [], [] => true
  | x :: a', y :: b' => (x =? y) && streq a' b'
  | _, _ => false
  end.

(** [s.startsWith(p)] *)
Fixpoint startsWith (s p : jsstring) {struct p} : bool :=
  match p, s with
  | [], _ => true
  | y :: p', x :: s' => (x =? y) && startsWith s' p'
  | _ :: _, [] => false
  end.

(** A string is falsy exactly when it is empty; [null]/[undefined] is
    [None]. *)
Definition truthy (v : option jsstring) : bool :=
  match v with
  | Some (_ :: _) => true
  | _ => false
  end.

(** [a || b] on possibly-null strings. *)
Definition or_else (a b : option jsstring) : option jsstring :=
  if truthy a then a else b.

(** [v || EMPTY], where [EMPTY] is the empty string. *)
Definition or_empty (v : option jsstring) : jsstring :=
  match or_else v (Some []) with
  | Some s => s
  | None => []
  end.

(** ** Exceptions *)

Inductive Exn :=
| InvalidCharacterError   (* btoa on a code unit above 0xFF *)
| URIError                (* encodeURIComponent / decodeURIComponent *)
| TypeError_InvalidURL    (* new URL, new Request *)
| RangeError_Status       (* new Response: status outside 200..599 *)
| TypeError_StatusText    (* new Response: statusText is no reason phrase *)
| TypeError_NullBodyStatus (* new Response: a body with status 204, 205, 304 *)
| FetchError (msg : jsstring).

Inductive completion (A : Type) :=
| Return (a : A)
| Throw (e : Exn).
Arguments Return {A} a.
Arguments Throw {A} e.

Definition bind {A B} (m : completion A) (k : A -> completion B) : completion B :=
  match m with
  | Return a => k a
  | Throw e => Throw e
  end.

Notation "x <- m ;; k" := (bind m (fun x => k))
  (at level 61, m at next level, right associativity).

(** [try { m } catch { h }] *)
Definition try_catch {A} (m : completion A) (h : Exn -> completion A) : completion A :=
  match m with
  | Return a => Return a
  | Throw e => h e
  end.

Definition of_option {A} (e : Exn) (o : option A) : completion A :=
  match o with
  | Some a => Return a
  | None => Throw e
  end.

(** ** [btoa] *)

(** The base64 alphabet [A-Za-z0-9+/] by index. *)
Definition b64char (i : Z) : Z :=
  if i <? 26 then 65 + i
  else if i <? 52 then 71 + i
  else if i <? 62 then i - 4
  else if i =? 62 then 43
  else 47.

Definition pad : Z := 61.

Fixpoint base64 (l : list Z) : jsstring :=
  match l with
  | [] => []
  | [a] => [b64char (a / 4); b64char (a mod 4 * 16); pad; pad]
  | [a; b] =>
      [b64char (a / 4); b64char (a mod 4 * 16 + b / 16);
       b64char (b mod 16 * 4); pad]
  | a :: b :: c :: r =>
      b64char (a / 4) :: b64char (a mod 4 * 16 + b / 16)
      :: b64char (b mod 16 * 4 + c / 64) :: b64char (c mod 64)
      :: base64 r
  end.

Definition is_byte (c : Z) : bool := (0 <=? c) && (c <=? 255).

(** [btoa(s)]: base64 of a binary string; [None] is the
    [InvalidCharacterError] raised when a code unit exceeds 0xFF. *)
Definition btoa (s : jsstring) : option jsstring :=
  if forallb is_byte s then Some (base64 s) else None.

(** ** Headers

    A [Headers] object is its header list in insertion order (Fetch
    standard).  Names are matched ASCII-case-insensitively; names and
    values are assumed to be valid and already normalized, as they are
    when they come out of another [Headers] object or from the literals
    of the worker. *)

Definition to_lower_unit (c : Z) : Z :=
  if (65 <=? c) && (c <=? 90) then c + 32 else c.

(** [s.toLowerCase()] on ASCII letters (header names are ASCII tokens). *)
Definition toLowerCase (s : jsstring) : jsstring := map to_lower_unit s.

Definition Headers := list (jsstring * jsstring).

Definition name_matches (n m : jsstring) : bool :=
  streq (toLowerCase n) (toLowerCase m).

Definition header_values (h : Headers) (name : jsstring) : list jsstring :=
  map snd (filter (fun e => name_matches (fst e) name) h).

(** Values of one name are combined with [", "]. *)
Fixpoint join_values (vs : list jsstring) : jsstring :=
  match vs with
  | [] => []
  | [v] => v
  | v :: vs' => v ++ js ", " ++ join_values vs'
  end.

(** [headers.get(name)] *)
Definition Headers_get (h : Headers) (name : jsstring) : option jsstring :=
  match header_values h name with
  | [] => None
  | vs => Some (join_values vs)
  end.

Definition Headers_has (h : Headers) (name : jsstring) : bool :=
  existsb (fun e => name_matches (fst e) name) h.

Fixpoint set_first (h : Headers) (name value : jsstring) : Headers :=
  match h with
  | [] => []
  | (n, v) :: h' =>
      if name_matches n name
      then (n, value) :: filter (fun e => negb (name_matches (fst e) name)) h'
      else (n, v) :: set_first h' name value
  end.

(** [headers.set(name, value)]: the first header of that name takes the
    value and the others are removed; otherwise the header is appended. *)
Definition Headers_set (h : Headers) (name value : jsstring) : Headers :=
  if Headers_has h name then set_first h name value
  else h ++ [(name, value)].

(** [headers.append(name, value)]: reuses the casing of an existing
    header of that name. *)
Definition Headers_append (h : Headers) (name value : jsstring) : Headers :=
  match find (fun e => name_matches (fst e) name) h with
  | Some (n, _) => h ++ [(n, value)]
  | None => h ++ [(name, value)]
  end.

(** [new Headers(init)] for a sequence of pairs or an object literal. *)
Definition Headers_new (init : list (jsstring * jsstring)) : Headers :=
  fold_left (fun h e => Headers_append h (fst e) (snd e)) init [].

(** Byte-wise lexicographic "less than" on names. *)
Fixpoint str_ltb (a b : jsstring) : bool :=
  match a, b with
  | _, [] => false
  | [], _ :: _ => true
  | x :: a', y :: b' => (x <? y) || ((x =? y) && str_ltb a' b')
  end.

Fixpoint insert_name (n : jsstring) (l : list jsstring) : list jsstring :=
  match l with
  | [] => [n]
  | m :: l' =>
      if streq n m then l
      else if str_ltb n m then n :: l
      else m :: insert_name n l'
  end.

Definition lower_names (h : Headers) : list jsstring :=
  map (fun e => toLowerCase (fst e)) h.

(** The sorted set of lowercased names of a header list. *)
Definition sorted_names (h : Headers) : list jsstring :=
  fold_right insert_name [] (lower_names h).

Definition name_lt (a b : jsstring) : Prop := str_ltb a b = true.

(** The pairs that iteration yields for one lowercased name: its values
    combined, except for [set-cookie], whose values stay separate. *)
Definition entries_of_name (h : Headers) (n : jsstring)
    : list (jsstring * jsstring) :=
  if streq n (js "set-cookie")
  then map (pair n) (header_values h n)
  else [(n, join_values (header_values h n))].

(** [[...headers]]: the header list sorted and combined, names in lower
    case. *)
Definition Headers_entries (h : Headers) : list (jsstring * jsstring) :=
  flat_map (entries_of_name h) (sorted_names h).

(** [new Headers(headers)] copies through the iterator. *)
Definition Headers_copy (h : Headers) : Headers :=
  Headers_new (Headers_entries h).

(** ** Requests and responses *)

Inductive Body :=
| BodyNull
| BodyStream (bytes : list Z)    (* a ReadableStream and the bytes it yields *)
| BodyText (text : jsstring).    (* the stream made from a string *)

(** A parsed URL as the worker reads it. *)
Record URL := {
  href : jsstring;
  protocol : jsstring;     (* scheme with its colon, e.g. "https:" *)
  host : jsstring;
  pathname : jsstring;
  search : jsstring;       (* empty, or "?" followed by the query *)
  origin : jsstring
}.

Record Request := {
  request_url : URL;       (* [new URL(request.url)] *)
  request_method : jsstring;
  request_headers : Headers;
  request_body : Body
}.

Record Response := {
  status : Z;
  statusText : jsstring;
  headers : Headers;
  body : Body
}.

(** What is passed to [new Response] as its body: a string, or the body
    of another response. *)
Inductive BodyInit :=
| FromString (text : jsstring)
| FromBody (b : Body).

(** The response that [new Response(body, { status, statusText, headers })]
    builds once it has accepted its arguments, with [headers] given as a
    list of pairs.  A string body brings its own content type unless one
    is given. *)
Definition Response_of (b : BodyInit) (st : Z) (stText : jsstring)
    (init : list (jsstring * jsstring)) : Response :=
  let h := Headers_new init in
  match b with
  | FromString text =>
      {| status := st;
         statusText := stText;
         headers :=
           if Headers_has h (js "Content-Type") then h
           else Headers_append h (js "Content-Type")
                  (js "text/plain;charset=UTF-8");
         body := BodyText text |}
  | FromBody b =>
      {| status := st; statusText := stText; headers := h; body := b |}
  end.

(** The statuses of a response without body (Fetch, null body status). *)
Definition is_null_body_status (st : Z) : bool :=
  existsb (Z.eqb st) [101; 103; 204; 205; 304].

(** The body given to the constructor is [null]. *)
Definition is_null_body (b : BodyInit) : bool :=
  match b with
  | FromBody BodyNull => true
  | _ => false
  end.

(** Code units of a reason phrase (RFC 9112): HTAB, SP, VCHAR, obs-text. *)
Definition is_reason_phrase_unit (c : Z) : bool :=
  (c =? 9) || ((32 <=? c) && (c <=? 126)) || ((128 <=? c) && (c <=? 255)).

(** What the constructor throws for its arguments (Fetch, initialize a
    response): a [RangeError] for a status outside 200..599, else a
    [TypeError] for a status text that is no reason phrase, else a
    [TypeError] for a body together with a null body status; [None] when
    the arguments are accepted.  Header names and values are those of
    literals or of another [Headers] object and pass the constructor's
    checks. *)
Definition Response_init_error (b : BodyInit) (st : Z) (stText : jsstring)
    : option Exn :=
  if negb ((200 <=? st) && (st <=? 599)) then Some RangeError_Status
  else if negb (forallb is_reason_phrase_unit stText)
  then Some TypeError_StatusText
  else if negb (is_null_body b) && is_null_body_status st
  then Some TypeError_NullBodyStatus
  else None.

(** [new Response(body, { status, statusText, headers })] *)
Definition Response_new (b : BodyInit) (st : Z) (stText : jsstring)
    (init : list (jsstring * jsstring)) : completion Response :=
  match Response_init_error b st stText with
  | Some e => Throw e
  | None => Return (Response_of b st stText init)
  end.

(** The worker's environment bindings. *)
Record Env := {
  PASSWORD : option jsstring;                 (* [undefined] when not set *)
  ASSETS : option (Request -> Response)       (* the Pages assets binding *)
}.

(** ** [checkAuth] (src/_worker.js) *)

Record AuthResult := {
  ok : bool;
  reason : option jsstring
}.

Definition checkAuth (request : Request) (env : Env) : completion AuthResult :=
  let pwd := PASSWORD env in
  if negb (truthy pwd)
  then Return {| ok := false; reason := Some (js "PASSWORD not set") |}
  else
    let auth := or_empty (Headers_get (request_headers request) (js "Authorization")) in
    b <- of_option InvalidCharacterError (btoa (js "admin:" ++ or_empty pwd)) ;;
    let expected := js "Basic " ++ b in
    if negb (streq auth expected)
    then Return {| ok := false; reason := Some (js "Auth required") |}
    else Return {| ok := true; reason := None |}.


(** ** [encodeURIComponent] and [decodeURIComponent] (ECMA-262, 19.2.6) *)

Definition in_range (lo hi c : Z) : bool := (lo <=? c) && (c <=? hi).

Definition is_alnum (c : Z) : bool :=
  in_range 48 57 c || in_range 65 90 c || in_range 97 122 c.

(** Code units that [encodeURIComponent] leaves as they are:
    [A-Za-z0-9] and [- _ . ! ~ * ' ( )]. *)
Definition is_unreserved (c : Z) : bool :=
  is_alnum c || existsb (Z.eqb c) [45; 95; 46; 33; 126; 42; 39; 40; 41].

Definition is_high_surrogate (c : Z) : bool := in_range 55296 56319 c.
Definition is_low_surrogate (c : Z) : bool := in_range 56320 57343 c.

Definition hex_digit (n : Z) : Z := if n <? 10 then 48 + n else 55 + n.

(** ["%XX"] with upper-case hexadecimal digits. *)
Definition pct (b : Z) : jsstring := [37; hex_digit (b / 16); hex_digit (b mod 16)].

Definition utf8 (cp : Z) : list Z :=
  if cp <? 128 then [cp]
  else if cp <? 2048 then [192 + cp / 64; 128 + cp mod 64]
  else if cp <? 65536 then
    [224 + cp / 4096; 128 + cp / 64 mod 64; 128 + cp mod 64]
  else
    [240 + cp / 262144; 128 + cp / 4096 mod 64;
     128 + cp / 64 mod 64; 128 + cp mod 64].

Definition pct_encode (cp : Z) : jsstring := flat_map pct (utf8 cp).

(** The code point of a surrogate pair. *)
Definition pair_code_point (hi lo : Z) : Z :=
  65536 + (hi - 55296) * 1024 + (lo - 56320).

(** [None] is the [URIError] raised on an unpaired surrogate. *)
Fixpoint encodeURIComponent (s : jsstring) : option jsstring :=
  match s with
  | [] => Some []
  | c :: r =>
      if is_unreserved c then option_map (cons c) (encodeURIComponent r)
      else if is_high_surrogate c then
        match r with
        | d :: r' =>
            if is_low_surrogate d
            then option_map (app (pct_encode (pair_code_point c d)))
                   (encodeURIComponent r')
            else None
        | [] => None
        end
      else if is_low_surrogate c then None
      else if in_range 0 65535 c
      then option_map (app (pct_encode c)) (encodeURIComponent r)
      else None
  end.

(** A scalar value: a code point that is not a surrogate. *)
Definition scalar (cp : Z) : Prop :=
  0 <= cp <= 1114111 /\ ~ (55296 <= cp <= 57343).

(** [s.isWellFormed()]: every surrogate is part of a pair. *)
Fixpoint isWellFormed (s : jsstring) : bool :=
  match s with
  | [] => true
  | c :: r =>
      if is_high_surrogate c then
        match r with
        | d :: r' => is_low_surrogate d && isWellFormed r'
        | [] => false
        end
      else negb (is_low_surrogate c) && in_range 0 65535 c && isWellFormed r
  end.

Definition hex_value (c : Z) : option Z :=
  if in_range 48 57 c then Some (c - 48)
  else if in_range 65 70 c then Some (c - 55)
  else if in_range 97 102 c then Some (c - 87)
  else None.

(** A decoded string is read as plain code units and escaped octets. *)
Inductive token :=
| Unit (c : Z)
| Octet (b : Z).

(** Every ["%"] must be followed by two hexadecimal digits. *)
Fixpoint unescape (s : jsstring) : option (list token) :=
  match s with
  | [] => Some []
  | c :: r =>
      if c =? 37 then
        match r with
        | h :: l :: r' =>
            match hex_value h, hex_value l with
            | Some x, Some y =>
                option_map (cons (Octet (16 * x + y))) (unescape r')
            | _, _ => None
            end
        | _ => None
        end
      else option_map (cons (Unit c)) (unescape r)
  end.

Definition is_continuation (b : Z) : bool := in_range 128 191 b.

Definition utf16 (cp : Z) : jsstring :=
  if cp <? 65536 then [cp]
  else [55296 + (cp - 65536) / 1024; 56320 + (cp - 65536) mod 1024].

(** Octets must form well-formed UTF-8: continuation octets in
    [0x80..0xBF], no overlong form, no surrogate, at most U+10FFFF. *)
Fixpoint decode_tokens (ts : list token) : option jsstring :=
  match ts with
  | [] => Some []
  | Unit c :: r => option_map (cons c) (decode_tokens r)
  | Octet b0 :: r =>
      if b0 <? 128 then option_map (cons b0) (decode_tokens r)
      else if b0 <? 192 then None
      else if b0 <? 224 then
        match r with
        | Octet b1 :: r1 =>
            let cp := (b0 - 192) * 64 + (b1 - 128) in
            if is_continuation b1 && (128 <=? cp)
            then option_map (app (utf16 cp)) (decode_tokens r1)
            else None
        | _ => None
        end
      else if b0 <? 240 then
        match r with
        | Octet b1 :: Octet b2 :: r2 =>
            let cp := (b0 - 224) * 4096 + (b1 - 128) * 64 + (b2 - 128) in
            if is_continuation b1 && is_continuation b2 && (2048 <=? cp)
               && negb (in_range 55296 57343 cp)
            then option_map (app (utf16 cp)) (decode_tokens r2)
            else None
        | _ => None
        end
      else if b0 <? 248 then
        match r with
        | Octet b1 :: Octet b2 :: Octet b3 :: r3 =>
            let cp := (b0 - 240) * 262144 + (b1 - 128) * 4096
                      + (b2 - 128) * 64 + (b3 - 128) in
            if is_continuation b1 && is_continuation b2 && is_continuation b3
               && in_range 65536 1114111 cp
            then option_map (app (utf16 cp)) (decode_tokens r3)
            else None
        | _ => None
        end
      else None
  end.

(** [None] is the [URIError] raised on a malformed escape sequence. *)
Definition decodeURIComponent (s : jsstring) : option jsstring :=
  match unescape s with
  | Some ts => decode_tokens ts
  | None => None
  end.

(** ** Target resolution (src/_worker.js, [handleRequest] and
       [ensureProtocol]) *)

Definition ensureProtocol (url defaultProtocol : jsstring) : jsstring :=
  if negb (truthy (Some url)) then defaultProtocol ++ js "//"
  else if startsWith url (js "http://") || startsWith url (js "https://")
  then url
  else defaultProtocol ++ js "//" ++ url.

(** [s.replace(/^\//, EMPTY)]: one leading slash is removed. *)
Definition strip_leading_slash (s : jsstring) : jsstring :=
  match s with
  | c :: r => if c =? 47 then r else s
  | [] => s
  end.

(** Lines 70-77 of [handleRequest]: the target URL string computed from
    the request URL. *)
Definition resolveTarget (url : URL) : completion jsstring :=
  actualUrlStr <- of_option URIError
    (decodeURIComponent (strip_leading_slash (pathname url))) ;;
  let actualUrlStr := ensureProtocol actualUrlStr (protocol url) in
  Return (actualUrlStr ++ search url).

(** ** Header filter *)

Definition filterHeaders (headers : Headers) (filterFunc : jsstring -> bool)
    : Headers :=
  Headers_new (filter (fun e => filterFunc (fst e)) (Headers_entries headers)).

(** The predicate passed by [handleRequest]:
    [!String(name || EMPTY).toLowerCase().startsWith("cf-")]. *)
Definition not_cf (name : jsstring) : bool :=
  let n := toLowerCase (or_empty (Some name)) in
  negb (startsWith n (js "cf-")).

(** ** Response finishing *)

Definition setNoCacheHeaders (h : Headers) : Headers :=
  let h := Headers_set h (js "Cache-Control") (js "no-store") in
  let h := Headers_set h (js "Pragma") (js "no-cache") in
  Headers_set h (js "Expires") (js "0").

Definition setCorsHeaders (h : Headers) : Headers :=
  let h := Headers_set h (js "Access-Control-Allow-Origin") (js "*") in
  let h := Headers_set h (js "Access-Control-Allow-Methods")
             (js "GET, POST, PUT, DELETE, OPTIONS") in
  Headers_set h (js "Access-Control-Allow-Headers") (js "*").

(** The names written by [setNoCacheHeaders] and by [setCorsHeaders]. *)
Definition no_cache_names : list jsstring :=
  [js "Cache-Control"; js "Pragma"; js "Expires"].

Definition cors_names : list jsstring :=
  [js "Access-Control-Allow-Origin"; js "Access-Control-Allow-Methods";
   js "Access-Control-Allow-Headers"].

(** [m] is none of [names], case-insensitively. *)
Definition names_exclude (names : list jsstring) (m : jsstring) : bool :=
  forallb (fun n => negb (name_matches n m)) names.

(** In-place mutation of [r.headers]. *)
Definition with_headers (r : Response) (f : Headers -> Headers) : Response :=
  {| status := status r; statusText := statusText r;
     headers := f (headers r); body := body r |}.

(** ** [JSON.stringify] of the error object (ECMA-262, 25.5.2) *)

Definition hex_digit_lower (n : Z) : Z := if n <? 10 then 48 + n else 87 + n.

Definition unicode_escape (c : Z) : jsstring :=
  js "\u" ++ [hex_digit_lower (c / 4096); hex_digit_lower (c / 256 mod 16);
              hex_digit_lower (c / 16 mod 16); hex_digit_lower (c mod 16)].

Definition dquote : Z := 34.
Definition backslash : Z := 92.

Fixpoint json_escape (s : jsstring) : jsstring :=
  match s with
  | [] => []
  | c :: r =>
      if c =? 8 then js "\b" ++ json_escape r
      else if c =? 9 then js "\t" ++ json_escape r
      else if c =? 10 then js "\n" ++ json_escape r
      else if c =? 12 then js "\f" ++ json_escape r
      else if c =? 13 then js "\r" ++ json_escape r
      else if c =? dquote then backslash :: dquote :: json_escape r
      else if c =? backslash then backslash :: backslash :: json_escape r
      else if c <? 32 then unicode_escape c ++ json_escape r
      else if is_high_surrogate c then
        match r with
        | d :: r' =>
            if is_low_surrogate d then c :: d :: json_escape r'
            else unicode_escape c ++ json_escape r
        | [] => unicode_escape c
        end
      else if is_low_surrogate c then unicode_escape c ++ json_escape r
      else c :: json_escape r
  end.

Definition QuoteJSONString (s : jsstring) : jsstring :=
  dquote :: json_escape s ++ [dquote].

(** [JSON.stringify({ error: msg })] *)
Definition JSON_stringify_error (msg : jsstring) : jsstring :=
  js "{" ++ QuoteJSONString (js "error") ++ js ":" ++ QuoteJSONString msg
  ++ js "}".

(** ** Regular expressions (the fragment the worker uses) *)

Inductive regex :=
| Chr (c : Z)                      (* one code unit *)
| Class (cs : list Z)              (* [...] *)
| Cat (r1 r2 : regex)
| Alt (r1 r2 : regex)              (* r1|r2, r1 tried first *)
| Group (n : nat) (r : regex)      (* the n-th capturing group *)
| NotFollowedBy (r : regex).       (* (?!r) *)

Definition captures := list (nat * jsstring).

Fixpoint capture (n : nat) (caps : captures) : option jsstring :=
  match caps with
  | [] => None
  | (m, s) :: caps' => if Nat.eqb n m then Some s else capture n caps'
  end.

Fixpoint group_count (r : regex) : nat :=
  match r with
  | Chr _ | Class _ => 0
  | Cat a b | Alt a b => group_count a + group_count b
  | Group _ a => S (group_count a)
  | NotFollowedBy a => group_count a
  end.

(** The state of a match attempt: the input that is left, and how many
    code units have been consumed. *)
Definition match_result := (jsstring * nat * captures)%type.

(** Backtracking matcher in continuation-passing style: [k] receives the
    input that is left, the number of code units consumed so far, and the
    captures made so far. *)
Fixpoint rmatch (r : regex) (s : jsstring) (i : nat) (caps : captures)
    (k : jsstring -> nat -> captures -> option match_result)
    : option match_result :=
  match r with
  | Chr c =>
      match s with
      | x :: s' => if x =? c then k s' (S i) caps else None
      | [] => None
      end
  | Class cs =>
      match s with
      | x :: s' => if existsb (Z.eqb x) cs then k s' (S i) caps else None
      | [] => None
      end
  | Cat a b => rmatch a s i caps (fun s1 i1 c1 => rmatch b s1 i1 c1 k)
  | Alt a b =>
      match rmatch a s i caps k with
      | Some res => Some res
      | None => rmatch b s i caps k
      end
  | Group n a =>
      rmatch a s i caps
        (fun s1 i1 c1 => k s1 i1 ((n, firstn (i1 - i) s) :: c1))
  | NotFollowedBy a =>
      match rmatch a s i caps (fun s1 i1 c1 => Some (s1, i1, c1)) with
      | Some _ => None
      | None => k s i caps
      end
  end.

(** A match attempt at the start of [s]: what is left after the match,
    the length of the match, and the captures. *)
Definition regex_exec (r : regex) (s : jsstring) : option match_result :=
  rmatch r s 0 [] (fun s1 i1 c1 => Some (s1, i1, c1)).

Definition is_digit (c : Z) : bool := in_range 48 57 c.

Definition capture_or_empty (n : Z) (caps : captures) : jsstring :=
  match capture (Z.to_nat n) caps with
  | Some s => s
  | None => []
  end.

(** [GetSubstitution] (ECMA-262, 22.1.3.19.1) without named groups:
    [$$], [$&], [$`], [$'], [$n] and [$nn] in the replacement text. *)
Fixpoint GetSubstitution (matched before after : jsstring) (caps : captures)
    (m : Z) (template : jsstring) : jsstring :=
  match template with
  | [] => []
  | c :: r =>
      if c =? 36 then
        match r with
        | [] => [c]
        | d :: r' =>
            if d =? 36 then 36 :: GetSubstitution matched before after caps m r'
            else if d =? 38 then
              matched ++ GetSubstitution matched before after caps m r'
            else if d =? 96 then
              before ++ GetSubstitution matched before after caps m r'
            else if d =? 39 then
              after ++ GetSubstitution matched before after caps m r'
            else if is_digit d then
              let one :=
                let i := d - 48 in
                (if (1 <=? i) && (i <=? m) then capture_or_empty i caps
                 else [c; d])
                ++ GetSubstitution matched before after caps m r' in
              match r' with
              | d2 :: r'' =>
                  if is_digit d2 then
                    let i2 := 10 * (d - 48) + (d2 - 48) in
                    if i2 <=? m then
                      (if 1 <=? i2 then capture_or_empty i2 caps
                       else [c; d; d2])
                      ++ GetSubstitution matched before after caps m r''
                    else one
                  else one
              | [] => one
              end
            else c :: GetSubstitution matched before after caps m r
        end
      else c :: GetSubstitution matched before after caps m r
  end.

(** [s.replace(r, template)] for a global regular expression: matches
    are searched from left to right, each one after the end of the
    previous one. *)
Fixpoint replace_loop (fuel : nat) (r : regex) (template before s : jsstring)
    : jsstring :=
  match fuel with
  | O => s
  | S fuel' =>
      let skip :=
        match s with
        | [] => []
        | c :: s' => c :: replace_loop fuel' r template (before ++ [c]) s'
        end in
      match regex_exec r s with
      | Some (rest, len, caps) =>
          let matched := firstn len s in
          GetSubstitution matched before rest caps (Z.of_nat (group_count r))
            template
          ++ match matched with
             | [] => skip
             | _ :: _ =>
                 replace_loop fuel' r template (before ++ matched) rest
             end
      | None => skip
      end
  end.

Definition String_replace (s : jsstring) (r : regex) (template : jsstring)
    : jsstring :=
  replace_loop (S (List.length s)) r template [] s.

(** ** HTML rewriting *)

Definition word (w : string) : regex :=
  match js w with
  | [] => Class []
  | c :: cs => fold_left (fun r x => Cat r (Chr x)) cs (Chr c)
  end.

(** The pattern [((href|src|action)=Q)/(?!/)], where [Q] is the class of
    the double quote (34) and the single quote (39). *)
Definition relative_path_regex : regex :=
  Cat (Group 1
         (Cat (Group 2 (Alt (word "href") (Alt (word "src") (word "action"))))
              (Cat (Chr 61) (Class [34; 39]))))
      (Cat (Chr 47) (NotFollowedBy (Chr 47))).

(** The attribute names and quotes of the pattern, and the text of its
    first group: a name, ["="] and a quote. *)
Definition attribute_names : list jsstring := [js "href"; js "src"; js "action"].

Definition quotes : list Z := [34; 39].

Definition opener (name : jsstring) (q : Z) : jsstring := name ++ [61; q].

Definition starts_with_slash (s : jsstring) : bool :=
  match s with
  | c :: _ => c =? 47
  | [] => false
  end.

(** The text starts with the first letter of an attribute name. *)
Definition starts_attribute (s : jsstring) : bool :=
  match s with
  | c :: _ => existsb (Z.eqb c) [104; 115; 97]
  | [] => false
  end.

(** No ["$"], which [replace] would read as a substitution pattern. *)
Definition no_dollar (s : jsstring) : bool := forallb (fun c => negb (c =? 36)) s.

(** What replaces the leading slash of a root-relative reference. *)
Definition proxy_prefix (protocol host origin : jsstring) : jsstring :=
  protocol ++ js "//" ++ host ++ js "/" ++ origin ++ js "/".

Definition replaceRelativePaths (text protocol host origin : jsstring)
    : jsstring :=
  String_replace text relative_path_regex
    (js "$1" ++ protocol ++ js "//" ++ host ++ js "/" ++ origin ++ js "/").

(** The result of a successful check: [{ ok: true }]. *)
Definition authorized : AuthResult := {| ok := true; reason := None |}.

(** ** The worker (src/_worker.js) *)

Definition or_default (v : option jsstring) (d : jsstring) : jsstring :=
  match or_else v (Some d) with
  | Some s => s
  | None => d
  end.

Definition jsonResponse (data : jsstring) (st : Z) : completion Response :=
  Response_new (FromString (JSON_stringify_error data)) st []
    [(js "Content-Type", js "application/json; charset=utf-8");
     (js "Cache-Control", js "no-store")].

(** The response built for a request without a configured password
    (lines 44-50). *)
Definition password_not_set_response : Response :=
  Response_of
    (FromString
       (js "PASSWORD not set in Cloudflare Pages/Workers environment variables."))
    500 []
    [(js "Content-Type", js "text/plain; charset=utf-8")].

(** The response built for a request with a wrong or missing credential
    (lines 52-55). *)
Definition auth_required_response : Response :=
  Response_of (FromString (js "Auth required")) 401 []
    [(js "WWW-Authenticate",
      js "Basic realm=" ++ [dquote] ++ js "Protected" ++ [dquote])].

(** The [init] object of the outbound request. *)
Record RequestInit := {
  init_headers : Headers;
  init_method : jsstring;
  init_redirect : jsstring;
  init_body : option Body        (* [None]: the property is not set *)
}.

(** Lines 85-95 of [handleRequest]. *)
Definition outbound_init (request : Request) (newHeaders : Headers)
    : RequestInit :=
  let method := or_default (Some (request_method request)) (js "GET") in
  let init :=
    {| init_headers := newHeaders;
       init_method := method;
       init_redirect := js "manual";
       init_body := None |} in
  if negb (streq method (js "GET")) && negb (streq method (js "HEAD"))
  then {| init_headers := init_headers init;
          init_method := init_method init;
          init_redirect := init_redirect init;
          init_body := Some (request_body request) |}
  else init.

(** An outbound request as the transport receives it. *)
Record OutboundRequest := {
  out_url : URL;
  out_method : jsstring;
  out_headers : Headers;
  out_redirect : jsstring;
  out_body : Body
}.

Record FetchEvent := {
  event_env : option Env;            (* [event.env] *)
  event_context_env : option Env     (* [event.context.env] *)
}.

Section Worker.

(** The platform: URL parsing ([None] is the [TypeError] of an invalid
    URL), the transport, UTF-8 decoding of a body, the text of an
    exception, and the static landing page. *)
Variable URL_parse : jsstring -> option URL.
Variable fetch : OutboundRequest -> completion Response.
Variable TextDecoder_decode : list Z -> jsstring.
Variable error_message : Exn -> jsstring.
Variable error_toString : Exn -> jsstring.
Variable getRootHtml : jsstring.

(** [new Request(url, init)] *)
Definition Request_new (url : jsstring) (init : RequestInit)
    : completion OutboundRequest :=
  u <- of_option TypeError_InvalidURL (URL_parse url) ;;
  Return {| out_url := u;
            out_method := init_method init;
            out_headers := Headers_copy (init_headers init);
            out_redirect := init_redirect init;
            out_body := match init_body init with
                        | Some b => b
                        | None => BodyNull
                        end |}.

(** [await response.text()] *)
Definition Response_text (response : Response) : jsstring :=
  match body response with
  | BodyNull => []
  | BodyStream bytes => TextDecoder_decode bytes
  | BodyText text => text
  end.

Definition handleRedirect (response : Response) : completion Response :=
  let headers0 := Headers_copy (headers response) in
  let locationValue :=
    or_else (Headers_get headers0 (js "location"))
      (Headers_get headers0 (js "Location")) in
  if negb (truthy locationValue) then
    r <- Response_new (FromBody (body response)) (status response)
           (statusText response) (Headers_entries headers0) ;;
    let r := with_headers r setNoCacheHeaders in
    let r := with_headers r setCorsHeaders in
    Return r
  else
    let locationValue := or_empty locationValue in
    modifiedLocation <-
      try_catch
        (locUrl <- of_option TypeError_InvalidURL (URL_parse locationValue) ;;
         e <- of_option URIError (encodeURIComponent (href locUrl)) ;;
         Return (js "/" ++ e))
        (fun _ =>
           e <- of_option URIError (encodeURIComponent locationValue) ;;
           Return (js "/" ++ e)) ;;
    let headers1 := Headers_set headers0 (js "Location") modifiedLocation in
    r <- Response_new (FromBody (body response)) (status response)
           (statusText response) (Headers_entries headers1) ;;
    let r := with_headers r setNoCacheHeaders in
    let r := with_headers r setCorsHeaders in
    Return r.

Definition handleHtmlContent (response : Response)
    (protocol host actualUrlStr : jsstring) : completion jsstring :=
  let originalText := Response_text response in
  u <- of_option TypeError_InvalidURL (URL_parse actualUrlStr) ;;
  Return (replaceRelativePaths originalText protocol host (origin u)).

(** [s.includes(t)] *)
Fixpoint includes (s t : jsstring) : bool :=
  startsWith s t ||
  match s with
  | [] => false
  | _ :: s' => includes s' t
  end.

Definition is_redirect_status (st : Z) : bool :=
  existsb (Z.eqb st) [301; 302; 303; 307; 308].

(** The [try] block of [handleRequest]. *)
Definition handleRequest_try (request : Request) (event : FetchEvent)
    : completion Response :=
  let env :=
    match event_env event, event_context_env event with
    | Some e, _ => e
    | None, Some e => e
    | None, None => {| PASSWORD := None; ASSETS := None |}
    end in
  auth <- checkAuth request env ;;
  if negb (ok auth) then
    if match reason auth with
       | Some r => streq r (js "PASSWORD not set")
       | None => false
       end
    then
      Response_new
        (FromString
           (js "PASSWORD not set in Cloudflare Pages/Workers environment variables."))
        500 []
        [(js "Content-Type", js "text/plain; charset=utf-8")]
    else
      Response_new (FromString (js "Auth required")) 401 []
        [(js "WWW-Authenticate",
          js "Basic realm=" ++ [dquote] ++ js "Protected" ++ [dquote])]
  else
    let url := request_url request in
    if streq (pathname url) (js "/") then
      Response_new (FromString getRootHtml) 200 []
        [(js "Content-Type", js "text/html; charset=utf-8");
         (js "Cache-Control", js "no-store")]
    else
      actualUrlStr <- resolveTarget url ;;
      let newHeaders := filterHeaders (request_headers request) not_cf in
      let init := outbound_init request newHeaders in
      modifiedRequest <- Request_new actualUrlStr init ;;
      response <- fetch modifiedRequest ;;
      if is_redirect_status (status response) then handleRedirect response
      else
        let ct := or_empty (Headers_get (headers response)
                              (js "Content-Type")) in
        b <- (if includes ct (js "text/html")
              then t <- handleHtmlContent response (protocol url)
                          (host url) actualUrlStr ;;
                   Return (FromString t)
              else Return (FromBody (body response))) ;;
        modifiedResponse <-
          Response_new b (status response) (statusText response)
            (Headers_entries (Headers_copy (headers response))) ;;
        let modifiedResponse := with_headers modifiedResponse setNoCacheHeaders in
        let modifiedResponse := with_headers modifiedResponse setCorsHeaders in
        Return modifiedResponse.

(** [catch (error)]: any exception becomes the JSON error response. *)
Definition handleRequest (request : Request) (event : FetchEvent)
    : completion Response :=
  try_catch (handleRequest_try request event)
    (fun error =>
       jsonResponse
         (if truthy (Some (error_message error)) then error_message error
          else error_toString error)
         500).

End Worker.

(** The response that [handleRedirect] builds around the header set [hs]
    when the constructor accepts the status, status text and body of the
    upstream response: [new Response(response.body, { status, statusText,
    headers })] followed by [setNoCacheHeaders] and [setCorsHeaders]. *)
Definition redirect_response (response : Response) (hs : Headers) : Response :=
  with_headers
    (with_headers
       (Response_of (FromBody (body response)) (status response)
          (statusText response) (Headers_entries hs))
       setNoCacheHeaders)
    setCorsHeaders.

(** The names [handleRedirect] may write. *)
Definition redirect_names : list jsstring :=
  js "Location" :: no_cache_names ++ cors_names.

(** ** The Pages gate worker (src/unnamed/part_000) *)

(** Steps 1 and 2 of [fetch]: the response that stops the request, or
    [None] when the request may proceed. *)
Definition pages_gate (request : Request) (env : Env)
    : completion (option Response) :=
  let pwd := PASSWORD env in
  if negb (truthy pwd) then
    r <- Response_new
           (FromString (js "PASSWORD not set in Cloudflare Pages environment."))
           500 []
           [(js "Content-Type", js "text/plain; charset=utf-8")] ;;
    Return (Some r)
  else
    let auth := or_empty (Headers_get (request_headers request)
                            (js "Authorization")) in
    b <- of_option InvalidCharacterError (btoa (js "admin:" ++ or_empty pwd)) ;;
    let expected := js "Basic " ++ b in
    if negb (streq auth expected) then
      r <- Response_new (FromString (js "Auth required")) 401 []
             [(js "WWW-Authenticate",
               js "Basic realm=" ++ [dquote] ++ js "Protected" ++ [dquote])] ;;
      Return (Some r)
    else Return None.

Definition pages_fetch (request : Request) (env : Env) : completion Response :=
  stop <- pages_gate request env ;;
  match stop with
  | Some r => Return r
  | None =>
      match ASSETS env with
      | Some assets_fetch => Return (assets_fetch request)
      | None =>
          Response_new (FromString (js "ASSETS binding not found.")) 500 [] []
      end
  end.

(** ** A URL parser for plain http and https URLs

    The WHATWG URL parser restricted to strings of the form
    [http://host/path] or [https://host/path] (scheme in any case) whose
    host is made of dot-separated labels of ASCII letters and whose path,
    possibly absent, is made of letters, digits, ["/"], ["-"], ["_"] and
    ["~"].  On these the standard lowercases scheme and host and gives an
    absent path the value ["/"].  Every other string is rejected here:
    this parser is used to run the worker on examples, and the general
    statements below hold for any parser. *)

Definition is_alpha (c : Z) : bool := in_range 65 90 c || in_range 97 122 c.

Definition is_plain_path_unit (c : Z) : bool :=
  is_alnum c || existsb (Z.eqb c) [47; 45; 95; 126].

(** The part of [s] before the first ["/"], and the rest. *)
Fixpoint split_authority (s : jsstring) : jsstring * jsstring :=
  match s with
  | [] => ([], [])
  | c :: r =>
      if c =? 47 then ([], s)
      else let (h, p) := split_authority r in (c :: h, p)
  end.

(** Non-empty labels of letters separated by single dots;
    [fresh] says that a label has just started. *)
Fixpoint plain_host (fresh : bool) (h : jsstring) : bool :=
  match h with
  | [] => negb fresh
  | c :: r =>
      if is_alpha c then plain_host false r
      else (c =? 46) && negb fresh && plain_host true r
  end.

Definition parse_plain (scheme s : jsstring) : option URL :=
  let prefix := scheme ++ js "://" in
  if streq (toLowerCase (firstn (List.length prefix) s)) prefix then
    let (h, p) := split_authority (skipn (List.length prefix) s) in
    if plain_host true h && forallb is_plain_path_unit p then
      let h' := toLowerCase h in
      let p' := match p with [] => js "/" | _ => p end in
      Some {| href := prefix ++ h' ++ p';
              protocol := scheme ++ js ":";
              host := h';
              pathname := p';
              search := [];
              origin := prefix ++ h' |}
    else None
  else None.

Definition URL_parse_plain (s : jsstring) : option URL :=
  match parse_plain (js "http") s with
  | Some u => Some u
  | None => parse_plain (js "https") s
  end.

(** ** Example inputs *)

Definition example_url : URL :=
  {| href := js "https://proxy.example/";
     protocol := js "https:";
     host := js "proxy.example";
     pathname := js "/";
     search := [];
     origin := js "https://proxy.example" |}.

(** A GET request carrying the given Authorization header. *)
Definition request_with_authorization (a : jsstring) : Request :=
  {| request_url := example_url;
     request_method := js "GET";
     request_headers := [(js "Authorization", a)];
     request_body := BodyNull |}.

Definition env_with_password (p : option jsstring) : Env :=
  {| PASSWORD := p; ASSETS := None |}.

(** A platform to run the worker on examples: the plain URL parser, a
    transport that answers every request with the given completion, bodies
    whose bytes are ASCII text, and V8's texts for exceptions. *)
Definition example_message (e : Exn) : jsstring :=
  match e with
  | InvalidCharacterError => js "Invalid character"
  | URIError => js "URI malformed"
  | TypeError_InvalidURL => js "Invalid URL"
  | RangeError_Status =>
      js "init[status] must be in the range of 200 to 599, inclusive."
  | TypeError_StatusText => js "Invalid statusText"
  | TypeError_NullBodyStatus =>
      js "Response with null body status cannot have body"
  | FetchError msg => msg
  end.

Definition example_worker (upstream : completion Response)
    (request : Request) (env : Env) : completion Response :=
  handleRequest URL_parse_plain (fun _ => upstream) (fun bytes => bytes)
    example_message example_message (js "<!DOCTYPE html>")
    request {| event_env := Some env; event_context_env := None |}.

Definition unreachable : completion Response :=
  Throw (FetchError (js "unreachable")).

(** An upstream redirect with the given Location. *)
Definition redirect_to (location : jsstring) : Response :=
  {| status := 302;
     statusText := js "Found";
     headers := [(js "Location", location); (js "Server", js "nginx")];
     body := BodyStream [] |}.

Definition post_request : Request :=
  {| request_url := example_url;
     request_method := js "POST";
     request_headers := [(js "Content-Type", js "text/plain")];
     request_body := BodyStream [104; 105] |}.

(** The URL of a proxy request with the given path and query. *)
Definition proxy_url (scheme path query : jsstring) : URL :=
  {| href := scheme ++ js "//proxy.example" ++ path ++ query;
     protocol := scheme;
     host := js "proxy.example";
     pathname := path;
     search := query;
     origin := scheme ++ js "//proxy.example" |}.

(** The Location of the proxy's answer to an upstream redirect, and what
    it decodes to once its leading slash is removed. *)
Definition rewritten_location (location : jsstring) : option jsstring :=
  match handleRedirect URL_parse_plain (redirect_to location) with
  | Return r => Headers_get (headers r) (js "Location")
  | Throw _ => None
  end.

Definition decoded_location (location : jsstring) : option jsstring :=
  match rewritten_location location with
  | Some l => decodeURIComponent (strip_leading_slash l)
  | None => None
  end.


(** The anchors of the HTML scenario. *)
Definition root_relative_anchor : jsstring :=
  js "<a href=" ++ [dquote] ++ js "/x" ++ [dquote] ++ js ">".

Definition protocol_relative_anchor : jsstring :=
  js "<a href=" ++ [dquote] ++ js "//x" ++ [dquote] ++ js ">".

(** A protocol-relative reference whose query quotes a root-relative one. *)
Definition nested_reference_anchor : jsstring :=
  js "<a href=" ++ [dquote] ++ js "//cdn.example/?next=src='/y'" ++ [dquote]
  ++ js ">".

(** A request for [path] on the proxy, with the credential of the secret
    "secret". *)
Definition proxied_get (path : jsstring) : Request :=
  {| request_url := proxy_url (js "https:") path [];
     request_method := js "GET";
     request_headers :=
       [(js "Authorization", js "Basic YWRtaW46c2VjcmV0");
        (js "CF-Ray", js "8a1b2c3d"); (js "Accept", js "*/*")];
     request_body := BodyNull |}.

Definition secret_env : Env := env_with_password (Some (js "secret")).

(** An upstream answer with the given content type and text. *)
Definition upstream_ok (contentType text : jsstring) : Response :=
  {| status := 200;
     statusText := js "OK";
     headers := [(js "Content-Type", contentType); (js "Cache-Control", js "max-age=60")];
     body := BodyStream text |}.

(** The event that carries the environment with the secret "secret". *)
Definition secret_event : FetchEvent :=
  {| event_env := Some secret_env; event_context_env := None |}.

(** ** The landing page script ([redirectToProxy] in [getRootHtml]) *)

(** White space and line terminators of ECMA-262 (12.2, 12.3). *)
Definition is_whitespace (c : Z) : bool :=
  existsb (Z.eqb c)
    [9; 10; 11; 12; 13; 32; 160; 5760; 8232; 8233; 8239; 8287; 12288; 65279]
  || in_range 8192 8202 c.

Fixpoint trimStart (s : jsstring) : jsstring :=
  match s with
  | [] => []
  | c :: r => if is_whitespace c then trimStart r else s
  end.

Definition trimEnd (s : jsstring) : jsstring := rev (trimStart (rev s)).

(** [s.trim()] *)
Definition String_trim (s : jsstring) : jsstring := trimEnd (trimStart s).

(** The URL that [redirectToProxy] opens for the text of the input field:
    [currentOrigin + '/' + encodeURIComponent(value.trim())]; [None] is
    the [URIError] of [encodeURIComponent]. *)
Definition redirectToProxy (currentOrigin value : jsstring) : option jsstring :=
  let targetUrl := String_trim value in
  option_map (fun e => currentOrigin ++ js "/" ++ e)
    (encodeURIComponent targetUrl).

(** ** Vocabulary of the further properties *)

(** Code units that [encodeURIComponent] can produce: the unreserved ones,
    ["%"] and upper-case hexadecimal digits. *)
Definition is_uri_safe (c : Z) : bool :=
  is_unreserved c || (c =? 37).

(** The landing page response of [handleRequest] (lines 62-67). *)
Definition root_page_response (getRootHtml : jsstring) : Response :=
  Response_of (FromString getRootHtml) 200 []
    [(js "Content-Type", js "text/html; charset=utf-8");
     (js "Cache-Control", js "no-store")].

(** The six headers of the finisher with their values. *)
Definition finisher_headers : list (jsstring * jsstring) :=
  [(js "Cache-Control", js "no-store");
   (js "Pragma", js "no-cache");
   (js "Expires", js "0");
   (js "Access-Control-Allow-Origin", js "*");
   (js "Access-Control-Allow-Methods", js "GET, POST, PUT, DELETE, OPTIONS");
   (js "Access-Control-Allow-Headers", js "*")].

(** A response carries the six headers, each with a single value. *)
Definition finished (r : Response) : Prop :=
  Forall (fun e => header_values (headers r) (fst e) = [snd e]) finisher_headers.

(** The text of the exception that [handleRequest] reports. *)
Definition reported (error_message error_toString : Exn -> jsstring) (e : Exn)
    : jsstring :=
  if truthy (Some (error_message e)) then error_message e else error_toString e.

(** The request is authorized: [checkAuth] returns [{ ok: true }]. *)
Definition passes (request : Request) (env : Env) : Prop :=
  exists a, checkAuth request env = Return a /\ ok a = true.

(** The environment [handleRequest] reads:
    [event.env || event.context.env || {}]. *)
Definition event_environment (event : FetchEvent) : Env :=
  match event_env event, event_context_env event with
  | Some e, _ => e
  | None, Some e => e
  | None, None => {| PASSWORD := None; ASSETS := None |}
  end.

(** The two halves of the forwarding part of [handleRequest], named so
    that statements can refer to them: what is done with the upstream
    response (lines 102-127), and the forwarding itself (lines 70-127). *)
Definition deliver (URL_parse : jsstring -> option URL)
    (TextDecoder_decode : list Z -> jsstring)
    (url : URL) (actualUrlStr : jsstring) (response : Response)
    : completion Response :=
  if is_redirect_status (status response) then handleRedirect URL_parse response
  else
    let ct := or_empty (Headers_get (headers response) (js "Content-Type")) in
    b <- (if includes ct (js "text/html")
          then t <- handleHtmlContent URL_parse TextDecoder_decode response
                      (protocol url) (host url) actualUrlStr ;;
               Return (FromString t)
          else Return (FromBody (body response))) ;;
    modifiedResponse <-
      Response_new b (status response) (statusText response)
        (Headers_entries (Headers_copy (headers response))) ;;
    let modifiedResponse := with_headers modifiedResponse setNoCacheHeaders in
    let modifiedResponse := with_headers modifiedResponse setCorsHeaders in
    Return modifiedResponse.

(** The request that [handleRequest] builds for the target. *)
Definition outbound_request (URL_parse : jsstring -> option URL)
    (request : Request) (actualUrlStr : jsstring)
    : completion OutboundRequest :=
  Request_new URL_parse actualUrlStr
    (outbound_init request (filterHeaders (request_headers request) not_cf)).

Definition forward (URL_parse : jsstring -> option URL)
    (fetch : OutboundRequest -> completion Response)
    (TextDecoder_decode : list Z -> jsstring)
    (request : Request) : completion Response :=
  actualUrlStr <- resolveTarget (request_url request) ;;
  modifiedRequest <- outbound_request URL_parse request actualUrlStr ;;
  response <- fetch modifiedRequest ;;
  deliver URL_parse TextDecoder_decode (request_url request) actualUrlStr
    response.

(** * Properties *)

Ltac dlia := Z.div_mod_to_equations; lia.

(** ** Strings *)

Lemma streq_spec (a b : jsstring) : streq a b = true <-> a = b.
Proof.
  revert b; induction a as [|x a IH]; intros [|y b]; simpl; split;
    try congruence; try reflexivity.
  - intros H. apply andb_true_iff in H as [H1 H2].
    apply Z.eqb_eq in H1. apply IH in H2. congruence.
  - intros H. injection H as -> ->. rewrite Z.eqb_refl. simpl.
    now apply IH.
Qed.

Lemma streq_refl (a : jsstring) : streq a a = true.
Proof. now apply streq_spec. Qed.

Lemma streq_false (a b : jsstring) : streq a b = false <-> a <> b.
Proof.
  split.
  - intros H E. apply streq_spec in E. congruence.
  - intros H. destruct (streq a b) eqn:E; [|reflexivity].
    apply streq_spec in E. contradiction.
Qed.

Ltac streq_hyps :=
  repeat match goal with
  | H : streq _ _ = true |- _ => apply (proj1 (streq_spec _ _)) in H
  | H : streq _ _ = false |- _ => apply (proj1 (streq_false _ _)) in H
  end.

Lemma startsWith_app (p s : jsstring) : startsWith (p ++ s) p = true.
Proof. induction p; simpl; [reflexivity|]. now rewrite Z.eqb_refl. Qed.

Lemma startsWith_spec (s p : jsstring) :
  startsWith s p = true <-> exists r, s = p ++ r.
Proof.
  revert s; induction p as [|y p IH]; intros s; simpl.
  - split; [intros _; now exists s | reflexivity].
  - destruct s as [|x s].
    + split; [discriminate | intros [r H]; discriminate].
    + rewrite andb_true_iff, Z.eqb_eq, IH. split.
      * intros [-> [r ->]]. now exists r.
      * intros [r H]. injection H as -> ->. split; [reflexivity | now exists r].
Qed.

(** ** Base64 *)

Ltac split_tests :=
  repeat match goal with
  | |- context [?a <? ?b] => destruct (Z.ltb_spec a b)
  | |- context [?a <=? ?b] => destruct (Z.leb_spec a b)
  | |- context [?a =? ?b] => destruct (Z.eqb_spec a b)
  | H : context [?a <? ?b] |- _ => destruct (Z.ltb_spec a b)
  | H : context [?a <=? ?b] |- _ => destruct (Z.leb_spec a b)
  | H : context [?a =? ?b] |- _ => destruct (Z.eqb_spec a b)
  end.

Lemma b64char_inj (i j : Z) :
  0 <= i < 64 -> 0 <= j < 64 -> b64char i = b64char j -> i = j.
Proof. unfold b64char. intros Hi Hj. split_tests; lia. Qed.

Lemma b64char_not_pad (i : Z) : 0 <= i < 64 -> b64char i <> pad.
Proof. unfold b64char, pad. intros Hi. split_tests; lia. Qed.

Lemma is_byte_spec (c : Z) : is_byte c = true <-> 0 <= c <= 255.
Proof. unfold is_byte. rewrite andb_true_iff, Z.leb_le, Z.leb_le. tauto. Qed.

Lemma all_bytes_cons (c : Z) (l : list Z) :
  forallb is_byte (c :: l) = true <-> 0 <= c <= 255 /\ forallb is_byte l = true.
Proof. simpl. now rewrite andb_true_iff, is_byte_spec. Qed.

(** Sextets of a byte triple determine the triple. *)
Lemma sextets_inj (a b c a' b' c' : Z) :
  0 <= a <= 255 -> 0 <= b <= 255 -> 0 <= c <= 255 ->
  0 <= a' <= 255 -> 0 <= b' <= 255 -> 0 <= c' <= 255 ->
  a / 4 = a' / 4 ->
  a mod 4 * 16 + b / 16 = a' mod 4 * 16 + b' / 16 ->
  b mod 16 * 4 + c / 64 = b' mod 16 * 4 + c' / 64 ->
  c mod 64 = c' mod 64 ->
  a = a' /\ b = b' /\ c = c'.
Proof. intros. dlia. Qed.

Lemma cons_eq_inv {A} (x y : A) (l l' : list A) :
  x :: l = y :: l' -> x = y /\ l = l'.
Proof. intros H. now injection H. Qed.

Ltac cons_inv :=
  repeat match goal with
  | H : _ :: _ = _ :: _ |- _ => apply cons_eq_inv in H; destruct H as [? H]
  end.

Ltac pad_clash :=
  match goal with
  | H : b64char _ = pad |- _ => exfalso; revert H; apply b64char_not_pad; dlia
  | H : pad = b64char _ |- _ =>
      exfalso; symmetry in H; revert H; apply b64char_not_pad; dlia
  end.

Ltac sextets :=
  repeat match goal with
  | H : b64char _ = b64char _ |- _ => apply b64char_inj in H; [| dlia | dlia]
  end.

Lemma base64_inj_bounded (n : nat) : forall l1 l2 : list Z,
  (List.length l1 <= n)%nat ->
  forallb is_byte l1 = true -> forallb is_byte l2 = true ->
  base64 l1 = base64 l2 -> l1 = l2.
Proof.
  induction n as [|n IH]; intros l1 l2 Hn H1 H2 E.
  - destruct l1; [|simpl in Hn; lia].
    destruct l2 as [|a [|b [|c r]]]; simpl in E; try discriminate; reflexivity.
  - destruct l1 as [|a1 [|b1 [|c1 r1]]]; destruct l2 as [|a2 [|b2 [|c2 r2]]];
      simpl in E; try discriminate; try reflexivity;
      repeat match goal with
      | H : forallb is_byte (_ :: _) = true |- _ =>
          apply all_bytes_cons in H; destruct H as [? H]
      end;
      cons_inv; try pad_clash; sextets.
    + f_equal. dlia.
    + assert (a1 = a2 /\ b1 = b2) as [-> ->] by dlia. reflexivity.
    + destruct (sextets_inj a1 b1 c1 a2 b2 c2) as (-> & -> & ->); try assumption.
      f_equal. f_equal. f_equal. apply IH; try assumption.
      simpl in Hn. lia.
Qed.

Lemma btoa_inj (s1 s2 h : jsstring) :
  btoa s1 = Some h -> btoa s2 = Some h -> s1 = s2.
Proof.
  unfold btoa. intros H1 H2.
  destruct (forallb is_byte s1) eqn:B1; [|discriminate].
  destruct (forallb is_byte s2) eqn:B2; [|discriminate].
  apply (base64_inj_bounded (List.length s1)); try assumption; [lia|].
  congruence.
Qed.

Example btoa_examples :
  btoa (js "admin:pw") = Some (js "YWRtaW46cHc=")
  /\ btoa (js "a") = Some (js "YQ==")
  /\ btoa (js "ab") = Some (js "YWI=")
  /\ btoa [20013] = None.
Proof. repeat split; reflexivity. Qed.

(** ** The Auth Gate *)

Lemma truthy_nonempty (s : jsstring) : s <> [] -> truthy (Some s) = true.
Proof. destruct s; [contradiction | reflexivity]. Qed.

Lemma or_empty_some (s : jsstring) : or_empty (Some s) = s.
Proof. now destruct s. Qed.

(** What [checkAuth] returns once the secret is set and encodable. *)
Lemma checkAuth_set (request : Request) (env : Env) (s b : jsstring) :
  PASSWORD env = Some s -> s <> [] ->
  btoa (js "admin:" ++ s) = Some b ->
  checkAuth request env =
    if streq (or_empty (Headers_get (request_headers request)
                          (js "Authorization")))
         (js "Basic " ++ b)
    then Return authorized
    else Return {| ok := false; reason := Some (js "Auth required") |}.
Proof.
  intros Hp Hs Hb. unfold checkAuth. rewrite Hp, (truthy_nonempty s Hs).
  rewrite or_empty_some. cbn [negb]. rewrite Hb. cbn [of_option bind].
  now destruct (streq _ _).
Qed.

Lemma checkAuth_unencodable (request : Request) (env : Env) (s : jsstring) :
  PASSWORD env = Some s -> s <> [] ->
  btoa (js "admin:" ++ s) = None ->
  checkAuth request env = Throw InvalidCharacterError.
Proof.
  intros Hp Hs Hb. unfold checkAuth. rewrite Hp, (truthy_nonempty s Hs).
  rewrite or_empty_some. cbn [negb]. now rewrite Hb.
Qed.

Lemma checkAuth_unset (request : Request) (env : Env) :
  truthy (PASSWORD env) = false ->
  checkAuth request env =
    Return {| ok := false; reason := Some (js "PASSWORD not set") |}.
Proof. intros Hp. unfold checkAuth. now rewrite Hp. Qed.

Lemma btoa_defined (c : jsstring) :
  (exists h, btoa c = Some h) <-> forallb is_byte c = true.
Proof.
  unfold btoa. destruct (forallb is_byte c); split; try reflexivity.
  - intros _. now eexists.
  - intros [h H]. discriminate H.
  - discriminate.
Qed.

Lemma btoa_prefixed (p s : jsstring) :
  forallb is_byte s = false -> btoa (p ++ s) = None.
Proof.
  intros H. unfold btoa. rewrite forallb_app, H. now rewrite andb_false_r.
Qed.

(** C1 (amended). With a non-empty secret [s], and for a credential [c]
    that [btoa] encodes (one made of code units up to 0xFF), a request
    whose Authorization header is ["Basic " + base64(c)] is authorized
    exactly when [c] is ["admin:" + s]; the header is compared with the
    expected value by exact equality of the code units.  When the secret
    holds a code unit above 0xFF, [checkAuth] throws whatever the request
    is, and no credential is authorized. *)
Theorem checkAuth_authorizes_iff (request : Request) (env : Env) (s : jsstring)
    (Hsecret : PASSWORD env = Some s) (Hnonempty : s <> []) :
  (forall c : jsstring,
     forallb is_byte c = true ->
     exists h, btoa c = Some h
       /\ (Headers_get (request_headers request) (js "Authorization")
             = Some (js "Basic " ++ h) ->
           (checkAuth request env = Return authorized
            <-> c = js "admin:" ++ s)))
  /\ (forall c h : jsstring,
     btoa c = Some h ->
     Headers_get (request_headers request) (js "Authorization")
       = Some (js "Basic " ++ h) ->
     (checkAuth request env = Return authorized <-> c = js "admin:" ++ s))
  /\ (forall b : jsstring,
     btoa (js "admin:" ++ s) = Some b ->
     (checkAuth request env = Return authorized <->
      or_empty (Headers_get (request_headers request) (js "Authorization"))
        = js "Basic " ++ b))
  /\ (forallb is_byte s = false ->
   checkAuth request env = Throw InvalidCharacterError
   /\ btoa (js "admin:" ++ s) = None
   /\ forall a, checkAuth request env <> Return a).
Proof.
  assert (Exact : forall b : jsstring,
     btoa (js "admin:" ++ s) = Some b ->
     (checkAuth request env = Return authorized <->
      or_empty (Headers_get (request_headers request) (js "Authorization"))
        = js "Basic " ++ b)).
  { intros b Hb. rewrite (checkAuth_set request env s b Hsecret Hnonempty Hb).
    destruct (streq _ _) eqn:E.
    - apply streq_spec in E. tauto.
    - apply streq_false in E. split; [discriminate | contradiction]. }
  assert (Iff : forall c h : jsstring,
     btoa c = Some h ->
     Headers_get (request_headers request) (js "Authorization")
       = Some (js "Basic " ++ h) ->
     (checkAuth request env = Return authorized <-> c = js "admin:" ++ s)).
  { intros c h Hc Hget. split.
    - intros Hok.
      destruct (btoa (js "admin:" ++ s)) as [b|] eqn:Hb.
      + apply (Exact b eq_refl) in Hok. rewrite Hget, or_empty_some in Hok.
        apply app_inv_head in Hok. subst b.
        exact (btoa_inj _ _ _ Hc Hb).
      + rewrite (checkAuth_unencodable request env s Hsecret Hnonempty Hb) in Hok.
        discriminate.
    - intros ->. apply (Exact h Hc). now rewrite Hget, or_empty_some. }
  split; [|split; [exact Iff | split; [exact Exact|]]].
  - intros c Hc. destruct (proj2 (btoa_defined c) Hc) as [h Hh].
    exists h. split; [exact Hh|]. exact (Iff c h Hh).
  - intros Hs. pose proof (btoa_prefixed (js "admin:") s Hs) as Hb.
    pose proof (checkAuth_unencodable request env s Hsecret Hnonempty Hb) as Ht.
    split; [exact Ht|]. split; [exact Hb|].
    intros a Ha. rewrite Ht in Ha. discriminate Ha.
Qed.

Lemma checkAuth_authorizes_iff_witness :
  checkAuth (request_with_authorization (js "Basic YWRtaW46c2VjcmV0"))
    (env_with_password (Some (js "secret"))) = Return authorized
  <-> js "admin:secret" = js "admin:" ++ js "secret".
Proof.
  apply (proj1 (proj2 (checkAuth_authorizes_iff
                  (request_with_authorization (js "Basic YWRtaW46c2VjcmV0"))
                  (env_with_password (Some (js "secret"))) (js "secret")
                  eq_refl ltac:(discriminate)))
           (js "admin:secret") (js "YWRtaW46c2VjcmV0"));
    reflexivity.
Defined.

(** The secret made of the one code unit U+5BC6 is not empty, and under it
    no request is authorized: [btoa] throws on ["admin:" + s], so
    [checkAuth] throws, also for the credential ["admin:" + s] itself,
    whose base64 does not exist. *)
Lemma wide_secret_authorizes_nothing :
  [23494] <> @nil Z
  /\ btoa (js "admin:" ++ [23494]) = None
  /\ (forall request,
        checkAuth request (env_with_password (Some [23494]))
        = Throw InvalidCharacterError)
  /\ checkAuth (request_with_authorization (js "Basic YWRtaW46"))
       (env_with_password (Some [23494]))
     <> Return authorized.
Proof.
  split; [discriminate|]. split; [reflexivity|].
  split; [intros request; reflexivity|]. discriminate.
Qed.

(** The Pages gate, case by case. *)
Lemma pages_gate_set (request : Request) (env : Env) (s b : jsstring) :
  PASSWORD env = Some s -> s <> [] ->
  btoa (js "admin:" ++ s) = Some b ->
  pages_gate request env =
    if streq (or_empty (Headers_get (request_headers request)
                          (js "Authorization")))
         (js "Basic " ++ b)
    then Return None
    else Return (Some auth_required_response).
Proof.
  intros Hp Hs Hb. unfold pages_gate. rewrite Hp, (truthy_nonempty s Hs).
  rewrite or_empty_some. cbn [negb]. rewrite Hb. cbn [of_option bind].
  now destruct (streq _ _).
Qed.

Lemma pages_gate_unencodable (request : Request) (env : Env) (s : jsstring) :
  PASSWORD env = Some s -> s <> [] ->
  btoa (js "admin:" ++ s) = None ->
  pages_gate request env = Throw InvalidCharacterError.
Proof.
  intros Hp Hs Hb. unfold pages_gate. rewrite Hp, (truthy_nonempty s Hs).
  rewrite or_empty_some. cbn [negb]. now rewrite Hb.
Qed.

Lemma truthy_cases (v : option jsstring) :
  truthy v = false \/ exists s, v = Some s /\ s <> [].
Proof.
  destruct v as [[|c s]|]; auto. right. exists (c :: s). split; congruence.
Qed.

Lemma gates_decide_alike (request : Request) (env : Env) :
  (exists a, checkAuth request env = Return a /\ ok a = true)
  <-> pages_gate request env = Return None.
Proof.
  destruct (truthy_cases (PASSWORD env)) as [Hu | (s & Hp & Hs)].
  - rewrite (checkAuth_unset _ _ Hu). unfold pages_gate. rewrite Hu. cbn.
    split; [intros (a & [= <-] & Hok); discriminate | discriminate].
  - destruct (btoa (js "admin:" ++ s)) as [b|] eqn:Hb.
    + rewrite (checkAuth_set _ _ _ _ Hp Hs Hb), (pages_gate_set _ _ _ _ Hp Hs Hb).
      destruct (streq _ _).
      * split; [reflexivity | intros _; now exists authorized].
      * split; [intros (a & [= <-] & Hok); discriminate | discriminate].
    + rewrite (checkAuth_unencodable _ _ _ Hp Hs Hb),
        (pages_gate_unencodable _ _ _ Hp Hs Hb).
      split; [intros (a & Ha & _); discriminate | discriminate].
Qed.

Section WorkerGate.

Variable URL_parse : jsstring -> option URL.
Variable fetch : OutboundRequest -> completion Response.
Variable TextDecoder_decode : list Z -> jsstring.
Variable error_message error_toString : Exn -> jsstring.
Variable getRootHtml : jsstring.

Lemma handleRequest_unset (request : Request) (event : FetchEvent) (env : Env) :
  event_env event = Some env ->
  truthy (PASSWORD env) = false ->
  handleRequest URL_parse fetch TextDecoder_decode error_message
    error_toString getRootHtml request event = Return password_not_set_response.
Proof.
  intros He Hu. unfold handleRequest, handleRequest_try.
  rewrite He, (checkAuth_unset _ _ Hu). reflexivity.
Qed.

Lemma handleRequest_rejected (request : Request) (event : FetchEvent)
    (env : Env) (s b : jsstring) :
  event_env event = Some env ->
  PASSWORD env = Some s -> s <> [] ->
  btoa (js "admin:" ++ s) = Some b ->
  or_empty (Headers_get (request_headers request) (js "Authorization"))
    <> js "Basic " ++ b ->
  handleRequest URL_parse fetch TextDecoder_decode error_message
    error_toString getRootHtml request event = Return auth_required_response.
Proof.
  intros He Hp Hs Hb Hne. unfold handleRequest, handleRequest_try.
  rewrite He, (checkAuth_set _ _ _ _ Hp Hs Hb).
  apply streq_false in Hne. rewrite Hne. reflexivity.
Qed.

Lemma handleRequest_catch (request : Request) (event : FetchEvent) (e : Exn) :
  handleRequest_try URL_parse fetch TextDecoder_decode getRootHtml request
    event = Throw e ->
  handleRequest URL_parse fetch TextDecoder_decode error_message
    error_toString getRootHtml request event =
    jsonResponse (if truthy (Some (error_message e)) then error_message e
                  else error_toString e) 500.
Proof. intros H. unfold handleRequest. now rewrite H. Qed.

(** C10 (amended). The worker and the Pages gate take the same decision on
    every secret and Authorization header.  When the secret is unset both
    answer 500 with the same headers and a plain-text body (the texts
    differ); when it is set, encodable by [btoa], and the header is not the
    expected one, both answer with the same 401 response, which carries
    [WWW-Authenticate: Basic realm="Protected"]. *)
Theorem auth_gates_agree (request : Request) (event : FetchEvent) (env : Env)
    (Henv : event_env event = Some env) :
  ((exists a, checkAuth request env = Return a /\ ok a = true)
   <-> pages_gate request env = Return None)
  /\
  (truthy (PASSWORD env) = false ->
   exists r t t',
     handleRequest URL_parse fetch TextDecoder_decode error_message
    error_toString getRootHtml request event = Return password_not_set_response
     /\ pages_fetch request env = Return r
     /\ status password_not_set_response = 500 /\ status r = 500
     /\ headers r = headers password_not_set_response
     /\ Headers_get (headers r) (js "Content-Type")
        = Some (js "text/plain; charset=utf-8")
     /\ body password_not_set_response = BodyText t /\ body r = BodyText t')
  /\
  (forall s b : jsstring,
     PASSWORD env = Some s -> s <> [] ->
     btoa (js "admin:" ++ s) = Some b ->
     or_empty (Headers_get (request_headers request) (js "Authorization"))
       <> js "Basic " ++ b ->
     handleRequest URL_parse fetch TextDecoder_decode error_message
    error_toString getRootHtml request event = Return auth_required_response
     /\ pages_fetch request env = Return auth_required_response
     /\ status auth_required_response = 401
     /\ Headers_get (headers auth_required_response) (js "WWW-Authenticate")
        = Some (js "Basic realm=" ++ [dquote] ++ js "Protected" ++ [dquote])).
Proof.
  split; [apply gates_decide_alike|]. split.
  - intros Hu. eexists _, _, _.
    split; [exact (handleRequest_unset request event env Henv Hu)|].
    unfold pages_fetch, pages_gate. rewrite Hu. cbn [negb bind].
    split; [reflexivity|]. repeat split; reflexivity.
  - intros s b Hp Hs Hb Hne.
    split; [exact (handleRequest_rejected request event env s b Henv Hp Hs Hb Hne)|].
    unfold pages_fetch. rewrite (pages_gate_set _ _ _ _ Hp Hs Hb).
    apply streq_false in Hne. rewrite Hne.
    repeat split; reflexivity.
Qed.

End WorkerGate.

Lemma auth_gates_agree_witness :
  example_worker unreachable (request_with_authorization (js "Basic b29wcw=="))
    (env_with_password (Some (js "secret"))) = Return auth_required_response
  /\ pages_fetch (request_with_authorization (js "Basic b29wcw=="))
       (env_with_password (Some (js "secret"))) = Return auth_required_response
  /\ status auth_required_response = 401
  /\ Headers_get (headers auth_required_response) (js "WWW-Authenticate")
     = Some (js "Basic realm=" ++ [dquote] ++ js "Protected" ++ [dquote]).
Proof.
  apply (proj2 (proj2 (auth_gates_agree URL_parse_plain (fun _ => unreachable)
                         (fun bytes => bytes) example_message example_message
                         (js "<!DOCTYPE html>")
                         (request_with_authorization (js "Basic b29wcw=="))
                         {| event_env := Some (env_with_password (Some (js "secret")));
                            event_context_env := None |}
                         (env_with_password (Some (js "secret"))) eq_refl))
           (js "secret") (js "YWRtaW46c2VjcmV0"));
    [reflexivity | discriminate | reflexivity | vm_compute; discriminate].
Defined.

(** With no secret configured the two gates answer with different texts;
    with a secret that [btoa] cannot encode the worker answers 500 with the
    JSON error and the Pages gate raises the exception. *)
Lemma unset_secret_responses_differ :
  example_worker unreachable (request_with_authorization [])
    (env_with_password None)
  = Response_new
      (FromString
         (js "PASSWORD not set in Cloudflare Pages/Workers environment variables."))
      500 [] [(js "Content-Type", js "text/plain; charset=utf-8")]
  /\ pages_fetch (request_with_authorization []) (env_with_password None)
     = Response_new
         (FromString (js "PASSWORD not set in Cloudflare Pages environment."))
         500 [] [(js "Content-Type", js "text/plain; charset=utf-8")]
  /\ pages_fetch (request_with_authorization []) (env_with_password None)
     <> example_worker unreachable (request_with_authorization [])
          (env_with_password None)
  /\ example_worker unreachable (request_with_authorization (js "Basic eA=="))
       (env_with_password (Some [23494]))
     = jsonResponse (js "Invalid character") 500
  /\ pages_fetch (request_with_authorization (js "Basic eA=="))
       (env_with_password (Some [23494]))
     = Throw InvalidCharacterError.
Proof.
  split; [reflexivity|]. split; [reflexivity|].
  split; [vm_compute; intros H; discriminate H|].
  split; reflexivity.
Qed.

(** ** Error responses *)

Section ErrorResponses.

Variable URL_parse : jsstring -> option URL.
Variable fetch : OutboundRequest -> completion Response.
Variable TextDecoder_decode : list Z -> jsstring.
Variable error_message error_toString : Exn -> jsstring.
Variable getRootHtml : jsstring.

(** C7 (amended). The three error responses of the proxy: the 500 JSON
    response carries [Cache-Control: no-store] and no other header of the
    no-cache set; the 500 plain-text response for a missing secret and the
    401 response carry no header of the no-cache set; none of the three
    carries a CORS header. *)
Theorem error_response_headers :
  (forall request event env,
     event_env event = Some env -> truthy (PASSWORD env) = false ->
     handleRequest URL_parse fetch TextDecoder_decode error_message
       error_toString getRootHtml request event
     = Return password_not_set_response)
  /\ (forall request event env s b,
        event_env event = Some env ->
        PASSWORD env = Some s -> s <> [] ->
        btoa (js "admin:" ++ s) = Some b ->
        or_empty (Headers_get (request_headers request) (js "Authorization"))
          <> js "Basic " ++ b ->
        handleRequest URL_parse fetch TextDecoder_decode error_message
          error_toString getRootHtml request event
        = Return auth_required_response)
  /\ (forall request event e,
        handleRequest_try URL_parse fetch TextDecoder_decode getRootHtml
          request event = Throw e ->
        exists msg,
          handleRequest URL_parse fetch TextDecoder_decode error_message
            error_toString getRootHtml request event = jsonResponse msg 500)
  /\ status password_not_set_response = 500
  /\ status auth_required_response = 401
  /\ Forall (fun n => Headers_get (headers password_not_set_response) n = None)
       (no_cache_names ++ cors_names)
  /\ Forall (fun n => Headers_get (headers auth_required_response) n = None)
       (no_cache_names ++ cors_names)
  /\ (forall msg, exists r, jsonResponse msg 500 = Return r)
  /\ (forall msg st r,
        jsonResponse msg st = Return r ->
        status r = st
        /\ Headers_get (headers r) (js "Cache-Control") = Some (js "no-store")
        /\ Headers_get (headers r) (js "Content-Type")
           = Some (js "application/json; charset=utf-8")
        /\ Forall (fun n => Headers_get (headers r) n = None)
             ([js "Pragma"; js "Expires"] ++ cors_names)).
Proof.
  split; [intros; eapply handleRequest_unset; eassumption|].
  split; [intros; eapply handleRequest_rejected; eassumption|].
  split.
  { intros request event e H. eexists. apply handleRequest_catch. exact H. }
  split; [reflexivity|]. split; [reflexivity|].
  split; [repeat constructor|]. split; [repeat constructor|].
  split; [intros msg; eexists; reflexivity|].
  intros msg st r. unfold jsonResponse, Response_new.
  destruct (Response_init_error _ _ _); [discriminate|]. intros [= <-].
  split; [reflexivity|]. split; [reflexivity|].
  split; [reflexivity|]. repeat constructor.
Qed.

End ErrorResponses.

Lemma error_response_headers_witness :
  example_worker unreachable (request_with_authorization [])
    (env_with_password None) = Return password_not_set_response.
Proof.
  apply (proj1 (error_response_headers URL_parse_plain (fun _ => unreachable)
                  (fun bytes => bytes) example_message example_message
                  (js "<!DOCTYPE html>"))
           (request_with_authorization [])
           {| event_env := Some (env_with_password None);
              event_context_env := None |}
           (env_with_password None)); reflexivity.
Defined.

(** The 401 and the 500 responses for a missing secret carry no
    [Cache-Control], and the JSON error response no CORS header. *)
Lemma error_responses_lack_headers :
  example_worker unreachable (request_with_authorization [])
    (env_with_password None) = Return password_not_set_response
  /\ Headers_get (headers password_not_set_response) (js "Cache-Control") = None
  /\ example_worker unreachable (request_with_authorization [])
       (env_with_password (Some (js "secret"))) = Return auth_required_response
  /\ Headers_get (headers auth_required_response) (js "Cache-Control") = None
  /\ (exists r, jsonResponse (js "URI malformed") 500 = Return r
        /\ Headers_get (headers r) (js "Access-Control-Allow-Origin") = None).
Proof.
  split; [reflexivity|]. split; [reflexivity|]. split; [reflexivity|].
  split; [reflexivity|]. eexists. split; reflexivity.
Qed.

(** ** The outbound request *)

Lemma or_default_method (m : jsstring) :
  or_default (Some m) (js "GET") = match m with [] => js "GET" | _ => m end.
Proof. now destruct m. Qed.

(** The outbound request is built from the inbound one: redirect mode
    "manual", the inbound method ("GET" when it is empty), and the inbound
    body unless that method is GET or HEAD. *)
Lemma Request_new_shape (URL_parse : jsstring -> option URL)
    (request : Request) (newHeaders : Headers) (url : jsstring)
    (r : OutboundRequest) :
  Request_new URL_parse url (outbound_init request newHeaders) = Return r ->
  URL_parse url = Some (out_url r)
  /\ out_redirect r = js "manual"
  /\ out_method r = or_default (Some (request_method request)) (js "GET")
  /\ out_body r =
     if streq (or_default (Some (request_method request)) (js "GET")) (js "GET")
        || streq (or_default (Some (request_method request)) (js "GET"))
             (js "HEAD")
     then BodyNull else request_body request.
Proof.
  unfold Request_new.
  destruct (URL_parse url) as [u|]; cbn [of_option bind]; [|discriminate].
  intros [= <-]. cbn [out_url out_redirect out_method out_body].
  unfold outbound_init.
  set (method := or_default (Some (request_method request)) (js "GET")).
  destruct (streq method (js "GET")) eqn:EG;
    destruct (streq method (js "HEAD")) eqn:EH; cbn -[js];
    repeat split; reflexivity.
Qed.

(** C9. The outbound request has redirect mode "manual", the method of the
    inbound request ("GET" when that is empty), and it carries the inbound
    body exactly when the inbound method is neither GET nor HEAD (nor
    empty); and [handleRequest] hands only that request to the transport:
    its result depends on the transport only through its answers to
    requests built this way from the inbound one. *)
Theorem outbound_request_manual_and_body (URL_parse : jsstring -> option URL)
    (request : Request) (newHeaders : Headers) (url : jsstring) :
  let method := or_default (Some (request_method request)) (js "GET") in
  let init := outbound_init request newHeaders in
  (method = match request_method request with
            | [] => js "GET"
            | _ :: _ => request_method request
            end)
  /\ init_redirect init = js "manual"
  /\ init_method init = method
  /\ (init_body init = Some (request_body request)
      <-> method <> js "GET" /\ method <> js "HEAD")
  /\ (init_body init = None
      <-> method = js "GET" \/ method = js "HEAD")
  /\ (forall u, URL_parse url = Some u ->
      exists r,
        Request_new URL_parse url init = Return r
        /\ out_url r = u
        /\ out_redirect r = js "manual"
        /\ out_method r = method
        /\ (request_method request <> js "GET" ->
            request_method request <> js "HEAD" ->
            request_method request <> [] ->
            out_body r = request_body request)
        /\ (request_method request = js "GET"
            \/ request_method request = js "HEAD"
            \/ request_method request = [] ->
            out_body r = BodyNull))
  /\ (forall (fetch1 fetch2 : OutboundRequest -> completion Response)
             (decode : list Z -> jsstring) (html : jsstring)
             (event : FetchEvent),
      (forall r,
         out_redirect r = js "manual" ->
         out_method r = method ->
         out_body r =
           (if streq method (js "GET") || streq method (js "HEAD")
            then BodyNull else request_body request) ->
         fetch1 r = fetch2 r) ->
      handleRequest_try URL_parse fetch1 decode html request event
      = handleRequest_try URL_parse fetch2 decode html request event).
Proof.
  cbv zeta. rewrite or_default_method.
  split; [reflexivity|]. split; [|split; [|split; [|split; [|split]]]].
  6:{ intros fetch1 fetch2 decode html event Hsame.
      unfold handleRequest_try.
      destruct (checkAuth request _) as [auth|e]; cbn [bind]; [|reflexivity].
      destruct (negb (ok auth)); [reflexivity|].
      destruct (streq (pathname _) _); [reflexivity|].
      destruct (resolveTarget _) as [target|e]; cbn [bind]; [|reflexivity].
      destruct (Request_new _ _ _) as [r|e] eqn:Hr; cbn [bind]; [|reflexivity].
      apply Request_new_shape in Hr as (_ & H1 & H2 & H3).
      rewrite or_default_method in H2, H3.
      now rewrite (Hsame r H1 H2 H3). }
  5:{ intros u Hu. eexists. unfold Request_new. rewrite Hu.
      cbn [of_option bind]. split; [reflexivity|].
      cbn [out_url out_redirect out_method out_body].
      unfold outbound_init. rewrite or_default_method.
      destruct (request_method request) as [|c m] eqn:Em.
      - cbn -[js]. repeat split; try reflexivity. intros _ _ H. now contradiction H.
      - destruct (streq (c :: m) (js "GET")) eqn:EG;
          destruct (streq (c :: m) (js "HEAD")) eqn:EH; cbn -[js]; streq_hyps;
          repeat split; try reflexivity; try (intros; congruence);
          try (intros [H | [H | H]]; congruence). }
  all: unfold outbound_init; rewrite or_default_method;
    set (method := match request_method request with
                   | [] => js "GET"
                   | _ :: _ => request_method request
                   end);
    destruct (streq method (js "GET")) eqn:EG;
    destruct (streq method (js "HEAD")) eqn:EH; cbn -[js]; streq_hyps.
  all: try reflexivity.
  all: try (split; [intros H; try discriminate H; tauto | intros [? ?]; try tauto]).
  all: try (split; [intros H; try discriminate H; tauto
                   | intros [?|?]; try tauto; try reflexivity]).
Qed.

Lemma outbound_request_manual_and_body_witness :
  exists r,
    Request_new URL_parse_plain (js "https://example.com/a")
      (outbound_init post_request []) = Return r
    /\ out_url r = {| href := js "https://example.com/a";
                      protocol := js "https:";
                      host := js "example.com";
                      pathname := js "/a";
                      search := [];
                      origin := js "https://example.com" |}
    /\ out_redirect r = js "manual"
    /\ out_method r = js "POST"
    /\ (request_method post_request <> js "GET" ->
        request_method post_request <> js "HEAD" ->
        request_method post_request <> [] ->
        out_body r = BodyStream [104; 105])
    /\ (request_method post_request = js "GET"
        \/ request_method post_request = js "HEAD"
        \/ request_method post_request = [] ->
        out_body r = BodyNull).
Proof.
  eapply (proj1 (proj2 (proj2 (proj2 (proj2 (proj2
            (outbound_request_manual_and_body URL_parse_plain
               post_request [] (js "https://example.com/a")))))))).
  reflexivity.
Defined.

(** ** Percent-encoding *)

Example encodeURIComponent_examples :
  encodeURIComponent (js "a b&c=d/e?f#g:h@i+j$k")
  = Some (js "a%20b%26c%3Dd%2Fe%3Ff%23g%3Ah%40i%2Bj%24k")
  /\ encodeURIComponent (js "-_.!~*'()") = Some (js "-_.!~*'()")
  /\ encodeURIComponent [20013] = Some (js "%E4%B8%AD")
  /\ encodeURIComponent [55357; 56832] = Some (js "%F0%9F%98%80")
  /\ encodeURIComponent [55357] = None
  /\ encodeURIComponent [56832; 55357] = None.
Proof. repeat split; reflexivity. Qed.

Example decodeURIComponent_examples :
  decodeURIComponent (js "%e4%b8%ad") = Some [20013]
  /\ decodeURIComponent (js "%F0%9F%98%80") = Some [55357; 56832]
  /\ decodeURIComponent (js "a%2Fb+c") = Some (js "a/b+c")
  /\ decodeURIComponent (js "%") = None
  /\ decodeURIComponent (js "%4") = None
  /\ decodeURIComponent (js "%zz") = None
  /\ decodeURIComponent (js "%E4%B8") = None
  /\ decodeURIComponent (js "%C0%80") = None
  /\ decodeURIComponent (js "%ED%A0%80") = None
  /\ decodeURIComponent (js "%F4%90%80%80") = None.
Proof. repeat split; reflexivity. Qed.

Ltac decide_tests :=
  repeat match goal with
  | |- context [?a <? ?b] =>
      first [ replace (a <? b) with true by (symmetry; apply Z.ltb_lt; dlia)
            | replace (a <? b) with false by (symmetry; apply Z.ltb_ge; dlia) ]
  | |- context [?a <=? ?b] =>
      first [ replace (a <=? b) with true by (symmetry; apply Z.leb_le; dlia)
            | replace (a <=? b) with false by (symmetry; apply Z.leb_gt; dlia) ]
  | |- context [?a =? ?b] =>
      first [ replace (a =? b) with true by (symmetry; apply Z.eqb_eq; dlia)
            | replace (a =? b) with false by (symmetry; apply Z.eqb_neq; dlia) ]
  end.

Lemma hex_value_digit (n : Z) : 0 <= n < 16 -> hex_value (hex_digit n) = Some n.
Proof.
  intros H. unfold hex_value, hex_digit, in_range.
  destruct (Z.ltb_spec n 10); decide_tests; cbn [andb]; f_equal; lia.
Qed.

Lemma unescape_pct (b : Z) (r : jsstring) :
  0 <= b < 256 ->
  unescape (pct b ++ r) = option_map (cons (Octet b)) (unescape r).
Proof.
  intros H. unfold pct. cbn [app unescape]. rewrite Z.eqb_refl.
  rewrite !hex_value_digit by dlia.
  replace (16 * (b / 16) + b mod 16) with b by dlia. reflexivity.
Qed.

Lemma unescape_octets (bs : list Z) (r : jsstring) :
  Forall (fun b => 0 <= b < 256) bs ->
  unescape (flat_map pct bs ++ r)
  = option_map (app (map Octet bs)) (unescape r).
Proof.
  induction 1 as [|b bs Hb _ IH]; cbn [flat_map map].
  - cbn [app]. now destruct (unescape r).
  - rewrite <- app_assoc, unescape_pct by assumption. rewrite IH.
    now destruct (unescape r).
Qed.

Lemma utf8_octets (cp : Z) :
  0 <= cp <= 1114111 -> Forall (fun b => 0 <= b < 256) (utf8 cp).
Proof.
  intros H. unfold utf8.
  destruct (Z.ltb_spec cp 128); [|destruct (Z.ltb_spec cp 2048);
    [|destruct (Z.ltb_spec cp 65536)]];
    repeat constructor; dlia.
Qed.

Lemma decode_utf8 (cp : Z) (ts : list token) :
  scalar cp ->
  decode_tokens (map Octet (utf8 cp) ++ ts)
  = option_map (app (utf16 cp)) (decode_tokens ts).
Proof.
  intros [Hr Hs]. unfold utf8.
  destruct (Z.ltb_spec cp 128); [|destruct (Z.ltb_spec cp 2048);
    [|destruct (Z.ltb_spec cp 65536)]];
    cbn [map app decode_tokens];
    repeat match goal with
    | |- context [utf16 ?X] =>
        lazymatch X with
        | cp => fail
        | _ => replace X with cp by dlia
        end
    end;
    unfold is_continuation, in_range; decide_tests; cbn [andb negb];
    try reflexivity.
  - unfold utf16. decide_tests. reflexivity.
  - destruct (Z.leb_spec 55296 cp), (Z.leb_spec cp 57343); cbn [andb negb];
      try reflexivity; lia.
Qed.

Lemma in_range_spec (lo hi c : Z) : in_range lo hi c = true <-> lo <= c <= hi.
Proof. unfold in_range. rewrite andb_true_iff, !Z.leb_le. tauto. Qed.

Lemma in_range_false (lo hi c : Z) :
  in_range lo hi c = false <-> ~ lo <= c <= hi.
Proof.
  rewrite <- in_range_spec. destruct (in_range lo hi c); split; congruence.
Qed.

Lemma unreserved_ascii (c : Z) : is_unreserved c = true -> 33 <= c <= 126 /\ c <> 37.
Proof.
  unfold is_unreserved, is_alnum. cbn [existsb].
  rewrite !orb_true_iff, !in_range_spec, !Z.eqb_eq. lia.
Qed.

Lemma utf16_bmp (c : Z) : c < 65536 -> utf16 c = [c].
Proof. intros H. unfold utf16. now decide_tests. Qed.

Lemma utf16_pair (c d : Z) :
  is_high_surrogate c = true -> is_low_surrogate d = true ->
  utf16 (pair_code_point c d) = [c; d] /\ scalar (pair_code_point c d).
Proof.
  unfold is_high_surrogate, is_low_surrogate. rewrite !in_range_spec.
  intros Hc Hd. unfold utf16, pair_code_point, scalar. decide_tests.
  split; [f_equal; [|f_equal]; dlia | lia].
Qed.

Lemma unescape_pct_encode (cp : Z) (r : jsstring) :
  scalar cp ->
  unescape (pct_encode cp ++ r)
  = option_map (app (map Octet (utf8 cp))) (unescape r).
Proof.
  intros [H _]. unfold pct_encode. apply unescape_octets. now apply utf8_octets.
Qed.

Lemma encode_decode_bounded (n : nat) : forall s e : jsstring,
  (List.length s <= n)%nat ->
  encodeURIComponent s = Some e ->
  exists ts, unescape e = Some ts /\ decode_tokens ts = Some s.
Proof.
  induction n as [|n IH]; intros s e Hn He.
  { destruct s; [|simpl in Hn; lia]. injection He as <-. now exists []. }
  destruct s as [|c r]; [injection He as <-; now exists []|].
  cbn [encodeURIComponent] in He. cbn [List.length] in Hn.
  destruct (is_unreserved c) eqn:Hu.
  { destruct (encodeURIComponent r) as [e'|] eqn:Hr; [|discriminate].
    injection He as <-.
    destruct (IH r e' ltac:(lia) Hr) as (ts & Hts & Hd).
    exists (Unit c :: ts). cbn [unescape decode_tokens].
    apply unreserved_ascii in Hu as [_ Hu]. apply Z.eqb_neq in Hu.
    now rewrite Hu, Hts, Hd. }
  destruct (is_high_surrogate c) eqn:Hh.
  { destruct r as [|d r']; [discriminate|].
    destruct (is_low_surrogate d) eqn:Hl; [|discriminate].
    destruct (encodeURIComponent r') as [e'|] eqn:Hr; [|discriminate].
    injection He as <-. cbn [List.length] in Hn.
    destruct (IH r' e' ltac:(lia) Hr) as (ts & Hts & Hd).
    destruct (utf16_pair c d Hh Hl) as [H16 Hsc].
    exists (map Octet (utf8 (pair_code_point c d)) ++ ts).
    rewrite (unescape_pct_encode _ _ Hsc), Hts, (decode_utf8 _ _ Hsc), Hd, H16.
    split; reflexivity. }
  destruct (is_low_surrogate c) eqn:Hl; [discriminate|].
  destruct (in_range 0 65535 c) eqn:Hc; [|discriminate].
  destruct (encodeURIComponent r) as [e'|] eqn:Hr; [|discriminate].
  injection He as <-.
  destruct (IH r e' ltac:(lia) Hr) as (ts & Hts & Hd).
  assert (Hsc : scalar c).
  { apply in_range_spec in Hc. apply in_range_false in Hh, Hl.
    unfold scalar. lia. }
  exists (map Octet (utf8 c) ++ ts).
  rewrite (unescape_pct_encode _ _ Hsc), Hts, (decode_utf8 _ _ Hsc), Hd.
  rewrite utf16_bmp by (apply in_range_spec in Hc; lia).
  split; reflexivity.
Qed.

(** Decoding undoes encoding. *)
Lemma decode_encode (s e : jsstring) :
  encodeURIComponent s = Some e -> decodeURIComponent e = Some s.
Proof.
  intros He.
  destruct (encode_decode_bounded (List.length s) s e (le_n _) He)
    as (ts & Hts & Hd).
  unfold decodeURIComponent. now rewrite Hts.
Qed.

(** Encoding is defined on well-formed strings. *)
Lemma encode_total_bounded (n : nat) : forall s : jsstring,
  (List.length s <= n)%nat -> isWellFormed s = true ->
  exists e, encodeURIComponent s = Some e.
Proof.
  induction n as [|n IH]; intros s Hn Hw.
  { destruct s; [|simpl in Hn; lia]. now exists []. }
  destruct s as [|c r]; [now exists []|].
  cbn [encodeURIComponent isWellFormed] in *. cbn [List.length] in Hn.
  destruct (is_high_surrogate c) eqn:Hh.
  - assert (Hu : is_unreserved c = false).
    { destruct (is_unreserved c) eqn:Hu; [|reflexivity].
      apply unreserved_ascii in Hu. apply in_range_spec in Hh. lia. }
    rewrite Hu. destruct r as [|d r']; [discriminate|].
    apply andb_true_iff in Hw as [Hl Hw]. rewrite Hl.
    cbn [List.length] in Hn.
    destruct (IH r' ltac:(lia) Hw) as [e' ->]. eexists. reflexivity.
  - apply andb_true_iff in Hw as [Hw1 Hw]. apply andb_true_iff in Hw1 as [Hl Hc].
    apply negb_true_iff in Hl. rewrite Hl, Hc.
    destruct (IH r ltac:(lia) Hw) as [e' ->].
    destruct (is_unreserved c); eexists; reflexivity.
Qed.

Lemma encode_total (s : jsstring) :
  isWellFormed s = true -> exists e, encodeURIComponent s = Some e.
Proof. apply (encode_total_bounded (List.length s)), le_n. Qed.

Lemma bytes_well_formed (s : jsstring) :
  forallb is_byte s = true -> isWellFormed s = true.
Proof.
  induction s as [|c r IH]; [reflexivity|].
  intros H. apply all_bytes_cons in H as [Hc Hr]. cbn [isWellFormed].
  unfold is_high_surrogate, is_low_surrogate, in_range. decide_tests.
  cbn [andb negb]. now apply IH.
Qed.

(** ** Target resolution *)

Lemma ensureProtocol_absolute (u p : jsstring) :
  startsWith u (js "http://") = true \/ startsWith u (js "https://") = true ->
  ensureProtocol u p = u.
Proof.
  intros H. unfold ensureProtocol.
  destruct u as [|c u]; [destruct H as [H|H]; discriminate H|].
  cbn [truthy negb]. destruct H as [-> | ->]; [reflexivity|].
  now rewrite orb_true_r.
Qed.

Lemma ensureProtocol_relative (d p : jsstring) :
  startsWith d (js "http://") = false -> startsWith d (js "https://") = false ->
  ensureProtocol d p = p ++ js "//" ++ d.
Proof.
  intros H1 H2. unfold ensureProtocol. destruct d as [|c d].
  - cbn [truthy negb]. now rewrite app_nil_r.
  - cbn [truthy negb]. now rewrite H1, H2.
Qed.

Lemma resolveTarget_decoded (url : URL) (d : jsstring) :
  decodeURIComponent (strip_leading_slash (pathname url)) = Some d ->
  resolveTarget url = Return (ensureProtocol d (protocol url) ++ search url).
Proof. intros H. unfold resolveTarget. now rewrite H. Qed.

(** C6. A decoded target that does not start with "http://" or "https://"
    gets the request scheme and "//" prepended, one that does is kept, and
    in both cases the query string of the request is appended as it is. *)
Theorem resolve_prepends_scheme_appends_query (url : URL) (d : jsstring)
    (Hdecoded : decodeURIComponent (strip_leading_slash (pathname url)) = Some d) :
  (startsWith d (js "http://") = false ->
   startsWith d (js "https://") = false ->
   resolveTarget url = Return (protocol url ++ js "//" ++ d ++ search url))
  /\ (startsWith d (js "http://") = true \/ startsWith d (js "https://") = true ->
      resolveTarget url = Return (d ++ search url))
  /\ resolveTarget (proxy_url (js "https:") (js "/example.com/a") [])
     = Return (js "https://example.com/a")
  /\ resolveTarget (proxy_url (js "https:") (js "example.com/a") [])
     = Return (js "https://example.com/a")
  /\ resolveTarget (proxy_url (js "http:") (js "/example.com/a%20b") (js "?q=%41+b&c"))
     = Return (js "http://example.com/a b?q=%41+b&c").
Proof.
  rewrite (resolveTarget_decoded url d Hdecoded). split; [|split].
  - intros H1 H2. rewrite (ensureProtocol_relative d _ H1 H2).
    now rewrite <- !app_assoc.
  - intros H. now rewrite (ensureProtocol_absolute d _ H).
  - repeat split; reflexivity.
Qed.

Lemma resolve_prepends_scheme_appends_query_witness :
  resolveTarget (proxy_url (js "https:") (js "/example.com%2Fa") (js "?x=%2F"))
  = Return (js "https:" ++ js "//" ++ js "example.com/a" ++ js "?x=%2F").
Proof.
  apply (proj1 (resolve_prepends_scheme_appends_query
                  (proxy_url (js "https:") (js "/example.com%2Fa") (js "?x=%2F"))
                  (js "example.com/a") eq_refl)); reflexivity.
Defined.

Lemma encode_head (c : Z) (u e : jsstring) :
  is_unreserved c = true ->
  encodeURIComponent (c :: u) = Some e -> exists e', e = c :: e'.
Proof.
  intros Hc. cbn [encodeURIComponent]. rewrite Hc.
  destruct (encodeURIComponent u) as [e'|]; [|discriminate].
  intros [= <-]. now exists e'.
Qed.

(** C2 (amended). For a URL [u] that starts with "http://" or "https://"
    in lower case, as every serialized URL of these schemes does, the
    path made of the percent-encoding of [u] (with or without the leading
    slash of a request path), an empty query string and any request
    scheme resolve to [u] itself.  For any other [u] the request scheme
    and "//" are put in front, so the result is not [u]. *)
Theorem resolve_encoded_absolute_url (url : URL) (u e : jsstring)
    (Hencoded : encodeURIComponent u = Some e)
    (Hquery : search url = []) :
  (startsWith u (js "http://") = true \/ startsWith u (js "https://") = true ->
   pathname url = js "/" ++ e \/ pathname url = e ->
   resolveTarget url = Return u)
  /\ (startsWith u (js "http://") = false ->
      startsWith u (js "https://") = false ->
      pathname url = js "/" ++ e ->
      resolveTarget url = Return (protocol url ++ js "//" ++ u)
      /\ resolveTarget url <> Return u).
Proof.
  split.
  - intros Habsolute Hpath.
    assert (Hstrip : strip_leading_slash (pathname url) = e).
    { destruct Hpath as [-> | ->]; [reflexivity|].
      assert (exists u', u = 104 :: u') as [u' ->].
      { destruct Habsolute as [H|H]; apply startsWith_spec in H as [r ->];
          eexists; reflexivity. }
      destruct (encode_head 104 u' e eq_refl Hencoded) as [e' ->]. reflexivity. }
    rewrite (resolveTarget_decoded url u).
    + now rewrite (ensureProtocol_absolute u _ Habsolute), Hquery, app_nil_r.
    + rewrite Hstrip. now apply decode_encode.
  - intros H1 H2 Hpath.
    assert (Hr : resolveTarget url = Return (protocol url ++ js "//" ++ u)).
    { rewrite (resolveTarget_decoded url u).
      - now rewrite (ensureProtocol_relative u _ H1 H2), Hquery, !app_nil_r.
      - rewrite Hpath. change (strip_leading_slash (js "/" ++ e)) with e.
        now apply decode_encode. }
    split; [exact Hr|]. rewrite Hr. intros [= E].
    apply (f_equal (@List.length Z)) in E. rewrite !length_app in E.
    cbn in E. lia.
Qed.

Lemma resolve_encoded_absolute_url_witness :
  resolveTarget
    (proxy_url (js "http:") (js "/https%3A%2F%2Fexample.com%2Fa%3Fb%3D%C3%A9") [])
  = Return (js "https://example.com/a?b=" ++ [233]).
Proof.
  apply (proj1 (resolve_encoded_absolute_url
                  (proxy_url (js "http:")
                     (js "/https%3A%2F%2Fexample.com%2Fa%3Fb%3D%C3%A9") [])
                  (js "https://example.com/a?b=" ++ [233])
                  (js "https%3A%2F%2Fexample.com%2Fa%3Fb%3D%C3%A9")
                  eq_refl eq_refl));
    [right; reflexivity | left; reflexivity].
Defined.

(** The absolute URL [HTTP://example.com/a] has scheme http (the URL
    parser reads it as [http://example.com/a]), but the path made of its
    percent-encoding resolves, under the request scheme "https:", to
    [https://HTTP://example.com/a]: neither the URL nor its parsed
    form. *)
Lemma uppercase_scheme_gets_prefixed :
  option_map protocol (URL_parse_plain (js "HTTP://example.com/a"))
  = Some (js "http:")
  /\ option_map href (URL_parse_plain (js "HTTP://example.com/a"))
     = Some (js "http://example.com/a")
  /\ encodeURIComponent (js "HTTP://example.com/a")
     = Some (js "HTTP%3A%2F%2Fexample.com%2Fa")
  /\ resolveTarget
       (proxy_url (js "https:") (js "/HTTP%3A%2F%2Fexample.com%2Fa") [])
     = Return (js "https://HTTP://example.com/a")
  /\ resolveTarget
       (proxy_url (js "https:") (js "/HTTP%3A%2F%2Fexample.com%2Fa") [])
     <> Return (js "HTTP://example.com/a")
  /\ resolveTarget
       (proxy_url (js "https:") (js "/HTTP%3A%2F%2Fexample.com%2Fa") [])
     <> Return (js "http://example.com/a").
Proof.
  split; [reflexivity|]. split; [reflexivity|]. split; [reflexivity|].
  split; [reflexivity|]. split; vm_compute; discriminate.
Qed.

(** ** Header names: case folding and order *)

Lemma to_lower_unit_idem (c : Z) : to_lower_unit (to_lower_unit c) = to_lower_unit c.
Proof. unfold to_lower_unit, andb. split_tests; lia. Qed.

Lemma toLowerCase_idem (s : jsstring) : toLowerCase (toLowerCase s) = toLowerCase s.
Proof.
  unfold toLowerCase. rewrite map_map. apply map_ext, to_lower_unit_idem.
Qed.

Lemma name_matches_spec (n m : jsstring) :
  name_matches n m = true <-> toLowerCase n = toLowerCase m.
Proof. apply streq_spec. Qed.

Lemma name_matches_lower_r (n m : jsstring) :
  name_matches n (toLowerCase m) = name_matches n m.
Proof. unfold name_matches. now rewrite toLowerCase_idem. Qed.

Lemma name_matches_lower_l (n m : jsstring) :
  name_matches (toLowerCase n) m = name_matches n m.
Proof. unfold name_matches. now rewrite toLowerCase_idem. Qed.

Lemma name_matches_refl (n : jsstring) : name_matches n n = true.
Proof. apply streq_refl. Qed.

(** Names that match are matched by the same names. *)
Lemma name_matches_trans_eq (n n' m : jsstring) :
  name_matches n n' = true -> name_matches n m = name_matches n' m.
Proof. unfold name_matches. intros H. apply streq_spec in H. now rewrite H. Qed.

Lemma str_ltb_irrefl (a : jsstring) : str_ltb a a = false.
Proof.
  induction a as [|x a IH]; [reflexivity|]. cbn [str_ltb].
  now rewrite Z.ltb_irrefl, Z.eqb_refl, IH.
Qed.

Lemma str_ltb_trans (a b c : jsstring) :
  str_ltb a b = true -> str_ltb b c = true -> str_ltb a c = true.
Proof.
  revert b c; induction a as [|x a IH]; intros [|y b] [|z c]; cbn [str_ltb];
    try discriminate; try reflexivity.
  intros H1 H2.
  apply orb_true_iff in H1 as [H1|H1]; apply orb_true_iff in H2 as [H2|H2];
    apply orb_true_iff;
    try (apply andb_true_iff in H1 as [E1 H1]; apply Z.eqb_eq in E1);
    try (apply andb_true_iff in H2 as [E2 H2]; apply Z.eqb_eq in E2);
    try (apply Z.ltb_lt in H1); try (apply Z.ltb_lt in H2).
  - left. apply Z.ltb_lt. lia.
  - left. apply Z.ltb_lt. lia.
  - left. apply Z.ltb_lt. lia.
  - right. apply andb_true_iff. split; [apply Z.eqb_eq; lia | eapply IH; eassumption].
Qed.

Lemma str_ltb_total (a b : jsstring) :
  streq a b = false -> str_ltb a b = false -> str_ltb b a = true.
Proof.
  revert b; induction a as [|x a IH]; intros [|y b]; cbn [str_ltb streq];
    try discriminate; try reflexivity.
  intros H1 H2. apply orb_false_iff in H2 as [H2 H3]. apply Z.ltb_ge in H2.
  destruct (Z.eqb_spec x y) as [->|Hne].
  - rewrite Z.ltb_irrefl, Z.eqb_refl. cbn [orb andb] in *. now apply IH.
  - replace (y <? x) with true by (symmetry; apply Z.ltb_lt; lia). reflexivity.
Qed.

(** ** The sorted name set of a header list *)

Lemma insert_name_In (n x : jsstring) (l : list jsstring) :
  In x (insert_name n l) <-> x = n \/ In x l.
Proof.
  induction l as [|m l IH]; cbn [insert_name In].
  - intuition congruence.
  - destruct (streq n m) eqn:E.
    + apply streq_spec in E. subst m. cbn [In]. intuition congruence.
    + destruct (str_ltb n m); cbn [In]; rewrite ?IH; intuition congruence.
Qed.

Lemma insert_name_sorted (n : jsstring) (l : list jsstring) :
  StronglySorted name_lt l -> StronglySorted name_lt (insert_name n l).
Proof.
  induction 1 as [|m l Hs IH Hm]; cbn [insert_name].
  - repeat constructor.
  - destruct (streq n m) eqn:E; [now constructor|].
    destruct (str_ltb n m) eqn:L.
    + constructor; [now constructor|]. constructor; [exact L|].
      revert Hm. apply Forall_impl. intros x Hx. exact (str_ltb_trans _ _ _ L Hx).
    + constructor; [exact IH|]. apply Forall_forall. intros x Hx.
      apply insert_name_In in Hx as [->|Hx].
      * apply str_ltb_total; assumption.
      * rewrite Forall_forall in Hm. now apply Hm.
Qed.

Lemma sorted_names_sorted (h : Headers) : StronglySorted name_lt (sorted_names h).
Proof.
  unfold sorted_names, lower_names. induction h as [|e h IH]; cbn [map fold_right].
  - constructor.
  - now apply insert_name_sorted.
Qed.

Lemma sorted_names_In (h : Headers) (n : jsstring) :
  In n (sorted_names h) <-> exists e, In e h /\ toLowerCase (fst e) = n.
Proof.
  unfold sorted_names, lower_names.
  induction h as [|e h IH]; cbn [map fold_right In].
  - split; [contradiction | intros (e & [] & _)].
  - rewrite insert_name_In, IH. split.
    + intros [-> | (e' & He' & <-)]; [now exists e; auto | exists e'; auto].
    + intros (e' & [<- | He'] & <-); [now left | right; now exists e'].
Qed.

Lemma sorted_names_lower (h : Headers) (n : jsstring) :
  In n (sorted_names h) -> toLowerCase n = n.
Proof. intros H. apply sorted_names_In in H as (e & _ & <-). apply toLowerCase_idem. Qed.

Lemma strongly_sorted_NoDup (l : list jsstring) :
  StronglySorted name_lt l -> NoDup l.
Proof.
  induction 1 as [|m l Hs IH Hm]; constructor; [|exact IH].
  intros Hin. rewrite Forall_forall in Hm. specialize (Hm m Hin).
  unfold name_lt in Hm. now rewrite str_ltb_irrefl in Hm.
Qed.



(** ** Values of a name *)

Lemma header_values_app (a b : Headers) (m : jsstring) :
  header_values (a ++ b) m = header_values a m ++ header_values b m.
Proof. unfold header_values. now rewrite filter_app, map_app. Qed.

Lemma header_values_lower (h : Headers) (m : jsstring) :
  header_values h (toLowerCase m) = header_values h m.
Proof.
  unfold header_values. f_equal. apply filter_ext. intros e.
  apply name_matches_lower_r.
Qed.

(** Values of a list whose entries all carry the name [n]. *)
Lemma header_values_uniform (X : Headers) (n m : jsstring) :
  (forall e, In e X -> fst e = n) ->
  header_values X m = if name_matches n m then map snd X else [].
Proof.
  intros H. unfold header_values. induction X as [|e X IH]; cbn [filter map].
  - now destruct (name_matches n m).
  - rewrite (H e (or_introl eq_refl)).
    assert (IH' := IH (fun e' He' => H e' (or_intror He'))).
    destruct (name_matches n m); cbn [map]; now rewrite IH'.
Qed.

Lemma entries_of_name_fst (h : Headers) (n : jsstring) (e : jsstring * jsstring) :
  In e (entries_of_name h n) -> fst e = n.
Proof.
  unfold entries_of_name. destruct (streq n (js "set-cookie")).
  - intros H. apply in_map_iff in H as (v & <- & _). reflexivity.
  - intros [<- | []]. reflexivity.
Qed.

Lemma header_values_nonempty (h : Headers) (m : jsstring) :
  header_values h m <> [] <-> In (toLowerCase m) (sorted_names h).
Proof.
  rewrite sorted_names_In. unfold header_values. split.
  - intros H. destruct (filter _ h) as [|e l] eqn:F; [contradiction|].
    assert (He : In e (filter (fun e => name_matches (fst e) m) h))
      by (rewrite F; now left).
    apply filter_In in He as [He Hm]. exists e. split; [exact He|].
    now apply name_matches_spec.
  - intros (e & He & Hm) F. apply map_eq_nil in F.
    assert (Hin : In e (filter (fun e => name_matches (fst e) m) h)).
    { apply filter_In. split; [exact He|]. now apply name_matches_spec. }
    now rewrite F in Hin.
Qed.

Section FlatMap.

Variable h : Headers.

Lemma values_flat_map_absent (N : list jsstring) (m : jsstring) :
  (forall n, In n N -> toLowerCase n = n) ->
  ~ In (toLowerCase m) N ->
  header_values (flat_map (entries_of_name h) N) m = [].
Proof.
  induction N as [|n N IH]; intros Hl Hm; [reflexivity|]. cbn [flat_map].
  rewrite header_values_app, IH.
  - rewrite (header_values_uniform _ n) by apply entries_of_name_fst.
    destruct (name_matches n m) eqn:E; [|reflexivity].
    apply name_matches_spec in E. rewrite (Hl n (or_introl eq_refl)) in E.
    exfalso. apply Hm. now left.
  - intros n' Hn'. apply Hl. now right.
  - intros Hin. apply Hm. now right.
Qed.

Lemma values_flat_map_present (N : list jsstring) (m : jsstring) :
  (forall n, In n N -> toLowerCase n = n) ->
  NoDup N ->
  In (toLowerCase m) N ->
  header_values (flat_map (entries_of_name h) N) m
  = map snd (entries_of_name h (toLowerCase m)).
Proof.
  induction N as [|n N IH]; intros Hl Hd Hm; [contradiction|].
  cbn [flat_map]. rewrite header_values_app.
  rewrite (header_values_uniform _ n) by apply entries_of_name_fst.
  inversion Hd as [|? ? Hn HdN]; subst.
  destruct Hm as [Hm | Hm].
  - subst n. rewrite name_matches_lower_l, name_matches_refl.
    rewrite values_flat_map_absent; [apply app_nil_r | | assumption].
    intros n' Hn'. apply Hl. now right.
  - rewrite IH; try assumption.
    + destruct (name_matches n m) eqn:E; [|reflexivity].
      apply name_matches_spec in E. rewrite (Hl n (or_introl eq_refl)) in E.
      subst n. contradiction.
    + intros n' Hn'. apply Hl. now right.
Qed.

End FlatMap.

Lemma map_snd_entries_of_name (h : Headers) (n : jsstring) :
  map snd (entries_of_name h n)
  = if streq n (js "set-cookie") then header_values h n
    else [join_values (header_values h n)].
Proof.
  unfold entries_of_name. destruct (streq n (js "set-cookie")); [|reflexivity].
  rewrite map_map. cbn [snd]. apply map_id.
Qed.

Lemma header_values_sorted_entries (H : Headers) (N : list jsstring)
    (m : jsstring) :
  (forall n, In n N -> toLowerCase n = n) ->
  NoDup N ->
  header_values (flat_map (entries_of_name H) N) m
  = if existsb (streq (toLowerCase m)) N
    then map snd (entries_of_name H (toLowerCase m))
    else [].
Proof.
  intros Hl Hd. destruct (existsb (streq (toLowerCase m)) N) eqn:E.
  - apply values_flat_map_present; try assumption.
    apply existsb_exists in E as (n & Hn & E). apply streq_spec in E.
    now rewrite E.
  - apply values_flat_map_absent; [assumption|]. intros Hin.
    assert (existsb (streq (toLowerCase m)) N = true).
    { apply existsb_exists. exists (toLowerCase m). split; [assumption|].
      apply streq_refl. }
    congruence.
Qed.

(** Iteration combines the values of each name. *)
Lemma header_values_entries (h : Headers) (m : jsstring) :
  header_values (Headers_entries h) m
  = match header_values h m with
    | [] => []
    | vs => if streq (toLowerCase m) (js "set-cookie") then vs
            else [join_values vs]
    end.
Proof.
  unfold Headers_entries.
  pose proof (header_values_nonempty h m) as Hne.
  destruct (header_values h m) as [|v vs] eqn:Hv.
  - apply values_flat_map_absent; [apply sorted_names_lower|].
    intros Hin. apply Hne in Hin. now apply Hin.
  - rewrite values_flat_map_present.
    + rewrite map_snd_entries_of_name, header_values_lower, Hv. reflexivity.
    + apply sorted_names_lower.
    + apply strongly_sorted_NoDup, sorted_names_sorted.
    + apply Hne. discriminate.
Qed.

Lemma Headers_get_entries (h : Headers) (m : jsstring) :
  Headers_get (Headers_entries h) m = Headers_get h m.
Proof.
  unfold Headers_get. rewrite header_values_entries.
  destruct (header_values h m) as [|v vs]; [reflexivity|].
  now destruct (streq _ _).
Qed.

(** ** [append], [new Headers], [set] *)

Lemma name_matches_sym (n m : jsstring) : name_matches n m = name_matches m n.
Proof.
  unfold name_matches.
  destruct (streq (toLowerCase n) (toLowerCase m)) eqn:E;
    destruct (streq (toLowerCase m) (toLowerCase n)) eqn:E'; try reflexivity;
    streq_hyps; congruence.
Qed.

Lemma Headers_append_spec (h : Headers) (n v : jsstring) :
  exists n', name_matches n' n = true /\ Headers_append h n v = h ++ [(n', v)].
Proof.
  unfold Headers_append.
  destruct (find _ h) as [[n' v']|] eqn:F.
  - apply find_some in F as [_ F]. now exists n'.
  - exists n. split; [apply name_matches_refl | reflexivity].
Qed.

Lemma header_values_append (h : Headers) (n v m : jsstring) :
  header_values (Headers_append h n v) m
  = header_values h m ++ (if name_matches n m then [v] else []).
Proof.
  destruct (Headers_append_spec h n v) as (n' & Hn' & ->).
  rewrite header_values_app. f_equal. unfold header_values. cbn [filter fst].
  rewrite (name_matches_trans_eq n' n m Hn'). now destruct (name_matches n m).
Qed.

Lemma lower_names_append (h : Headers) (n v : jsstring) :
  lower_names (Headers_append h n v) = lower_names h ++ [toLowerCase n].
Proof.
  destruct (Headers_append_spec h n v) as (n' & Hn' & ->).
  unfold lower_names. rewrite map_app. cbn [map fst].
  apply name_matches_spec in Hn'. now rewrite Hn'.
Qed.

Lemma Headers_new_acc (l acc : Headers) (m : jsstring) :
  header_values (fold_left (fun h e => Headers_append h (fst e) (snd e)) l acc) m
  = header_values acc m ++ header_values l m
  /\ lower_names (fold_left (fun h e => Headers_append h (fst e) (snd e)) l acc)
     = lower_names acc ++ lower_names l.
Proof.
  revert acc; induction l as [|[n v] l IH]; intros acc; cbn [fold_left fst snd].
  - unfold header_values, lower_names. cbn. now rewrite !app_nil_r.
  - destruct (IH (Headers_append acc n v)) as [-> ->].
    rewrite header_values_append, lower_names_append, <- !app_assoc.
    split; f_equal.
    unfold header_values. cbn [filter fst]. now destruct (name_matches n m).
Qed.

Lemma header_values_new (l : Headers) (m : jsstring) :
  header_values (Headers_new l) m = header_values l m.
Proof. unfold Headers_new. now rewrite (proj1 (Headers_new_acc l [] m)). Qed.


Lemma Headers_get_new (l : Headers) (m : jsstring) :
  Headers_get (Headers_new l) m = Headers_get l m.
Proof. unfold Headers_get. now rewrite header_values_new. Qed.

Lemma Headers_get_copy (h : Headers) (m : jsstring) :
  Headers_get (Headers_copy h) m = Headers_get h m.
Proof. unfold Headers_copy. now rewrite Headers_get_new, Headers_get_entries. Qed.



Lemma header_values_none (h : Headers) (n m : jsstring) :
  Headers_has h n = false -> name_matches n m = true -> header_values h m = [].
Proof.
  unfold Headers_has, header_values. intros Hh Hm.
  induction h as [|e h IH]; [reflexivity|]. cbn [existsb filter] in *.
  apply orb_false_iff in Hh as [He Hh].
  rewrite (name_matches_sym (fst e) m), <- (name_matches_trans_eq n m (fst e) Hm),
    (name_matches_sym n (fst e)), He.
  now apply IH.
Qed.

Lemma header_values_filter_other (h : Headers) (n m : jsstring) :
  name_matches n m = false ->
  header_values (filter (fun e => negb (name_matches (fst e) n)) h) m
  = header_values h m.
Proof.
  intros Hm. unfold header_values. f_equal.
  induction h as [|e h IH]; [reflexivity|]. cbn [filter].
  destruct (name_matches (fst e) n) eqn:E; cbn [negb filter]; rewrite IH.
  - rewrite (name_matches_trans_eq _ _ m E), Hm. reflexivity.
  - reflexivity.
Qed.

Lemma header_values_filter_same (h : Headers) (n m : jsstring) :
  name_matches n m = true ->
  header_values (filter (fun e => negb (name_matches (fst e) n)) h) m = [].
Proof.
  intros Hm. unfold header_values.
  induction h as [|e h IH]; [reflexivity|]. cbn [filter].
  destruct (name_matches (fst e) n) eqn:E; cbn [negb filter]; [exact IH|].
  rewrite (name_matches_sym (fst e) m), <- (name_matches_trans_eq n m (fst e) Hm),
    (name_matches_sym n (fst e)), E.
  exact IH.
Qed.

Lemma header_values_cons (n0 v0 : jsstring) (h : Headers) (m : jsstring) :
  header_values ((n0, v0) :: h) m
  = if name_matches n0 m then v0 :: header_values h m else header_values h m.
Proof.
  unfold header_values. cbn [filter fst]. now destruct (name_matches n0 m).
Qed.

Lemma header_values_set (h : Headers) (n v m : jsstring) :
  header_values (Headers_set h n v) m
  = if name_matches n m then [v] else header_values h m.
Proof.
  unfold Headers_set. destruct (Headers_has h n) eqn:Hh.
  - induction h as [|[n0 v0] h IH]; cbn [set_first]; [discriminate Hh|].
    unfold Headers_has in Hh. cbn [existsb fst] in Hh.
    destruct (name_matches n0 n) eqn:E; [clear IH | specialize (IH Hh)];
      rewrite !header_values_cons.
    + rewrite (name_matches_trans_eq _ _ m E).
      destruct (name_matches n m) eqn:Hm.
      * f_equal. now apply header_values_filter_same.
      * now apply header_values_filter_other.
    + rewrite IH. destruct (name_matches n0 m) eqn:Hm0; [|reflexivity].
      destruct (name_matches n m) eqn:Hm; [|reflexivity].
      rewrite (name_matches_sym n0 n), (name_matches_trans_eq n m n0 Hm),
        (name_matches_sym m n0) in E.
      congruence.
  - rewrite header_values_app, header_values_cons.
    destruct (name_matches n m) eqn:Hm.
    + now rewrite (header_values_none h n m Hh Hm).
    + apply app_nil_r.
Qed.

Lemma Headers_get_set_same (h : Headers) (n v m : jsstring) :
  name_matches n m = true -> Headers_get (Headers_set h n v) m = Some v.
Proof. intros H. unfold Headers_get. now rewrite header_values_set, H. Qed.

Lemma Headers_get_set_other (h : Headers) (n v m : jsstring) :
  name_matches n m = false ->
  Headers_get (Headers_set h n v) m = Headers_get h m.
Proof. intros H. unfold Headers_get. now rewrite header_values_set, H. Qed.

Lemma Headers_get_case (h : Headers) (n n' : jsstring) :
  name_matches n n' = true -> Headers_get h n = Headers_get h n'.
Proof.
  intros H. unfold Headers_get, header_values.
  replace (filter (fun e => name_matches (fst e) n) h)
    with (filter (fun e => name_matches (fst e) n') h); [reflexivity|].
  apply filter_ext. intros e.
  now rewrite (name_matches_sym (fst e) n'), (name_matches_sym (fst e) n),
    (name_matches_trans_eq n n' (fst e) H).
Qed.

(** ** The response finisher *)

Lemma names_exclude_cons (n : jsstring) (names : list jsstring) (m : jsstring) :
  names_exclude (n :: names) m = true
  <-> name_matches n m = false /\ names_exclude names m = true.
Proof.
  unfold names_exclude. cbn [forallb].
  now rewrite andb_true_iff, negb_true_iff.
Qed.

Lemma names_exclude_app (a b : list jsstring) (m : jsstring) :
  names_exclude (a ++ b) m = true
  <-> names_exclude a m = true /\ names_exclude b m = true.
Proof. unfold names_exclude. now rewrite forallb_app, andb_true_iff. Qed.

Lemma get_setNoCacheHeaders_other (h : Headers) (m : jsstring) :
  names_exclude no_cache_names m = true ->
  Headers_get (setNoCacheHeaders h) m = Headers_get h m.
Proof.
  unfold no_cache_names, setNoCacheHeaders. rewrite !names_exclude_cons.
  intros (H1 & H2 & H3 & _). now rewrite !Headers_get_set_other.
Qed.

Lemma get_setCorsHeaders_other (h : Headers) (m : jsstring) :
  names_exclude cors_names m = true ->
  Headers_get (setCorsHeaders h) m = Headers_get h m.
Proof.
  unfold cors_names, setCorsHeaders. rewrite !names_exclude_cons.
  intros (H1 & H2 & H3 & _). now rewrite !Headers_get_set_other.
Qed.

(** What the finisher leaves in the six headers it writes. *)
Lemma finished_headers (h : Headers) :
  let h' := setCorsHeaders (setNoCacheHeaders h) in
  Headers_get h' (js "Cache-Control") = Some (js "no-store")
  /\ Headers_get h' (js "Pragma") = Some (js "no-cache")
  /\ Headers_get h' (js "Expires") = Some (js "0")
  /\ Headers_get h' (js "Access-Control-Allow-Origin") = Some (js "*")
  /\ Headers_get h' (js "Access-Control-Allow-Methods")
     = Some (js "GET, POST, PUT, DELETE, OPTIONS")
  /\ Headers_get h' (js "Access-Control-Allow-Headers") = Some (js "*").
Proof.
  cbv zeta. unfold setCorsHeaders, setNoCacheHeaders.
  repeat split;
    repeat first [ rewrite Headers_get_set_same by reflexivity
                 | rewrite Headers_get_set_other by reflexivity ];
    reflexivity.
Qed.

Lemma get_finished_other (h : Headers) (m : jsstring) :
  names_exclude (no_cache_names ++ cors_names) m = true ->
  Headers_get (setCorsHeaders (setNoCacheHeaders h)) m = Headers_get h m.
Proof.
  rewrite names_exclude_app. intros [H1 H2].
  now rewrite get_setCorsHeaders_other, get_setNoCacheHeaders_other.
Qed.

(** ** The redirect rewriter *)

Lemma or_else_same (v : option jsstring) : or_else v v = v.
Proof. unfold or_else. now destruct (truthy v). Qed.

(** ** The constructor of responses *)

Lemma Response_new_accepted (b : BodyInit) (st : Z) (stText : jsstring)
    (init : list (jsstring * jsstring)) :
  Response_init_error b st stText = None ->
  Response_new b st stText init = Return (Response_of b st stText init).
Proof. intros H. unfold Response_new. now rewrite H. Qed.

Lemma Response_new_rejected (b : BodyInit) (st : Z) (stText : jsstring)
    (init : list (jsstring * jsstring)) (e : Exn) :
  Response_init_error b st stText = Some e ->
  Response_new b st stText init = Throw e.
Proof. intros H. unfold Response_new. now rewrite H. Qed.

(** The constructor accepts every status from 200 to 599 with a reason
    phrase as status text, unless a body comes with status 204, 205 or
    304. *)
Lemma Response_init_error_none (b : BodyInit) (st : Z) (stText : jsstring) :
  Response_init_error b st stText = None
  <-> 200 <= st <= 599
      /\ forallb is_reason_phrase_unit stText = true
      /\ (is_null_body b = true \/ (st <> 204 /\ st <> 205 /\ st <> 304)).
Proof.
  unfold Response_init_error.
  destruct (Z.leb_spec 200 st), (Z.leb_spec st 599); cbn [andb negb];
    try (split; [discriminate | intros [? _]; lia]).
  destruct (forallb is_reason_phrase_unit stText); cbn [negb];
    [|split; [discriminate | intros (_ & ? & _); discriminate]].
  destruct (is_null_body b); cbn [negb andb].
  - split; [intros _; repeat split; auto; lia | reflexivity].
  - unfold is_null_body_status. cbn [existsb].
    destruct (Z.eqb_spec st 101); [lia|].
    destruct (Z.eqb_spec st 103); [lia|].
    destruct (Z.eqb_spec st 204);
      [split; [discriminate | intros (_ & _ & [? | ?]); [discriminate | lia]]|].
    destruct (Z.eqb_spec st 205);
      [split; [discriminate | intros (_ & _ & [? | ?]); [discriminate | lia]]|].
    destruct (Z.eqb_spec st 304);
      [split; [discriminate | intros (_ & _ & [? | ?]); [discriminate | lia]]|].
    cbn [orb]. split; [intros _; repeat split; auto; lia | reflexivity].
Qed.

(** The statuses that [handleRequest] hands to [handleRedirect] are
    accepted whatever the body is. *)
Lemma redirect_status_accepted (b : BodyInit) (st : Z) (stText : jsstring) :
  is_redirect_status st = true ->
  forallb is_reason_phrase_unit stText = true ->
  Response_init_error b st stText = None.
Proof.
  intros Hs Ht. apply Response_init_error_none.
  unfold is_redirect_status in Hs. cbn [existsb] in Hs.
  rewrite !orb_true_iff, !Z.eqb_eq in Hs.
  split; [lia|]. split; [exact Ht|]. right. lia.
Qed.

Lemma redirect_response_frame (response : Response) (hs : Headers) :
  let r := redirect_response response hs in
  status r = status response
  /\ statusText r = statusText response
  /\ body r = body response
  /\ (forall m, names_exclude (no_cache_names ++ cors_names) m = true ->
      Headers_get (headers r) m = Headers_get hs m)
  /\ Headers_get (headers r) (js "Cache-Control") = Some (js "no-store")
  /\ Headers_get (headers r) (js "Pragma") = Some (js "no-cache")
  /\ Headers_get (headers r) (js "Expires") = Some (js "0")
  /\ Headers_get (headers r) (js "Access-Control-Allow-Origin") = Some (js "*")
  /\ Headers_get (headers r) (js "Access-Control-Allow-Methods")
     = Some (js "GET, POST, PUT, DELETE, OPTIONS")
  /\ Headers_get (headers r) (js "Access-Control-Allow-Headers") = Some (js "*").
Proof.
  cbv zeta. unfold redirect_response, with_headers, Response_of.
  cbn [status statusText body headers].
  split; [reflexivity|]. split; [reflexivity|]. split; [reflexivity|]. split.
  - intros m Hm.
    now rewrite (get_finished_other _ m Hm), Headers_get_new, Headers_get_entries.
  - apply finished_headers.
Qed.

Section Redirect.

Variable URL_parse : jsstring -> option URL.

Lemma redirect_location_value (response : Response) :
  or_else (Headers_get (Headers_copy (headers response)) (js "location"))
    (Headers_get (Headers_copy (headers response)) (js "Location"))
  = Headers_get (headers response) (js "Location").
Proof.
  rewrite !Headers_get_copy.
  rewrite (Headers_get_case _ (js "location") (js "Location") eq_refl).
  apply or_else_same.
Qed.

Lemma handleRedirect_without_location (response : Response) :
  truthy (Headers_get (headers response) (js "Location")) = false ->
  handleRedirect URL_parse response
  = match Response_init_error (FromBody (body response)) (status response)
            (statusText response) with
    | Some e => Throw e
    | None =>
        Return (redirect_response response (Headers_copy (headers response)))
    end.
Proof.
  intros H. unfold handleRedirect. rewrite redirect_location_value, H.
  cbn [negb]. unfold Response_new.
  now destruct (Response_init_error _ _ _).
Qed.

(** The new Location: the encoded serialization of the parsed URL, or the
    encoded raw value when parsing or encoding it fails. *)
Lemma handleRedirect_with_location (response : Response) (loc : jsstring) :
  Headers_get (headers response) (js "Location") = Some loc -> loc <> [] ->
  handleRedirect URL_parse response
  = (modifiedLocation <-
       try_catch
         (locUrl <- of_option TypeError_InvalidURL (URL_parse loc) ;;
          e <- of_option URIError (encodeURIComponent (href locUrl)) ;;
          Return (js "/" ++ e))
         (fun _ =>
            e <- of_option URIError (encodeURIComponent loc) ;;
            Return (js "/" ++ e)) ;;
     match Response_init_error (FromBody (body response)) (status response)
             (statusText response) with
     | Some e => Throw e
     | None =>
         Return (redirect_response response
                   (Headers_set (Headers_copy (headers response))
                      (js "Location") modifiedLocation))
     end).
Proof.
  intros H Hne. unfold handleRedirect. rewrite redirect_location_value, H.
  rewrite (truthy_nonempty loc Hne), or_empty_some. cbn [negb].
  destruct (try_catch _ _) as [v|e]; cbn [bind]; [|reflexivity].
  unfold Response_new. now destruct (Response_init_error _ _ _).
Qed.

Lemma handleRedirect_shape (response r : Response) :
  handleRedirect URL_parse response = Return r ->
  r = redirect_response response (Headers_copy (headers response))
  \/ exists v, r = redirect_response response
                    (Headers_set (Headers_copy (headers response))
                       (js "Location") v).
Proof.
  destruct (truthy_cases (Headers_get (headers response) (js "Location")))
    as [H | (loc & H & Hne)].
  - rewrite (handleRedirect_without_location response H).
    destruct (Response_init_error _ _ _); [discriminate|].
    intros [= <-]. now left.
  - rewrite (handleRedirect_with_location response loc H Hne).
    destruct (try_catch _ _) as [v|e]; cbn [bind]; [|discriminate].
    destruct (Response_init_error _ _ _); [discriminate|].
    intros [= <-]. right. now exists v.
Qed.

(** [handleRedirect] returns only what the constructor accepts. *)
Lemma handleRedirect_accepted (response r : Response) :
  handleRedirect URL_parse response = Return r ->
  Response_init_error (FromBody (body response)) (status response)
    (statusText response) = None.
Proof.
  destruct (truthy_cases (Headers_get (headers response) (js "Location")))
    as [H | (loc & H & Hne)].
  - rewrite (handleRedirect_without_location response H).
    now destruct (Response_init_error _ _ _).
  - rewrite (handleRedirect_with_location response loc H Hne).
    destruct (try_catch _ _) as [v|e]; cbn [bind]; [|discriminate].
    now destruct (Response_init_error _ _ _).
Qed.

(** With a well-formed Location, the exception of the constructor is the
    exception of [handleRedirect]. *)
Lemma handleRedirect_throws (response : Response) (e : Exn) :
  isWellFormed (or_empty (Headers_get (headers response) (js "Location"))) = true ->
  Response_init_error (FromBody (body response)) (status response)
    (statusText response) = Some e ->
  handleRedirect URL_parse response = Throw e.
Proof.
  intros Hw He.
  destruct (truthy_cases (Headers_get (headers response) (js "Location")))
    as [H | (loc & H & Hne)].
  - now rewrite (handleRedirect_without_location response H), He.
  - rewrite (handleRedirect_with_location response loc H Hne), He.
    rewrite H, or_empty_some in Hw.
    destruct (encode_total loc Hw) as [x Hx]. rewrite Hx.
    destruct (URL_parse loc) as [u|]; cbn [of_option bind try_catch];
      [destruct (encodeURIComponent (href u)); cbn [of_option bind try_catch]|];
      reflexivity.
Qed.

Lemma handleRedirect_returns (response : Response) :
  Response_init_error (FromBody (body response)) (status response)
    (statusText response) = None ->
  isWellFormed (or_empty (Headers_get (headers response) (js "Location"))) = true ->
  exists r, handleRedirect URL_parse response = Return r.
Proof.
  intros Ha Hw.
  destruct (truthy_cases (Headers_get (headers response) (js "Location")))
    as [H | (loc & H & Hne)].
  - rewrite (handleRedirect_without_location response H), Ha.
    eexists. reflexivity.
  - rewrite (handleRedirect_with_location response loc H Hne), Ha.
    rewrite H, or_empty_some in Hw.
    destruct (encode_total loc Hw) as [e He]. rewrite He.
    destruct (URL_parse loc) as [u|]; cbn [of_option bind try_catch];
      [destruct (encodeURIComponent (href u)); cbn [of_option bind try_catch]|];
      eexists; reflexivity.
Qed.

Lemma redirect_frame_on (response : Response) (hs : Headers) :
  (forall m, names_exclude redirect_names m = true ->
             Headers_get hs m = Headers_get (headers response) m) ->
  let r := redirect_response response hs in
  status r = status response
  /\ statusText r = statusText response
  /\ body r = body response
  /\ (forall m, names_exclude redirect_names m = true ->
      Headers_get (headers r) m = Headers_get (headers response) m).
Proof.
  intros Hhs. destruct (redirect_response_frame response hs)
    as (H1 & H2 & H3 & H4 & _).
  cbv zeta. repeat split; try assumption.
  intros m Hm. rewrite <- (Hhs m Hm). apply H4.
  unfold redirect_names in Hm. now apply names_exclude_cons in Hm.
Qed.

(** C8. [handleRedirect] returns on every response that the constructor
    of responses accepts (as it does every 3xx response with a reason
    phrase as status text, a 304 that carries a body apart) and whose
    Location value is a well-formed string, and throws the constructor's
    exception on the others; whatever it returns has the status, status
    text and body of the upstream response, and the value of every header
    other than Location, the three no-cache headers and the three CORS
    headers; without a Location header, Location is untouched too and the
    no-cache and CORS headers are the ones applied. *)
Theorem handleRedirect_frame (response : Response) :
  (isWellFormed (or_empty (Headers_get (headers response) (js "Location")))
   = true ->
   (Response_init_error (FromBody (body response)) (status response)
      (statusText response) = None ->
    exists r, handleRedirect URL_parse response = Return r)
   /\ (forall e,
         Response_init_error (FromBody (body response)) (status response)
           (statusText response) = Some e ->
         handleRedirect URL_parse response = Throw e))
  /\ (forallb is_reason_phrase_unit (statusText response) = true ->
      300 <= status response <= 399 ->
      (status response = 304 -> body response = BodyNull) ->
      Response_init_error (FromBody (body response)) (status response)
        (statusText response) = None)
  /\ (forall r, handleRedirect URL_parse response = Return r ->
      status r = status response
      /\ statusText r = statusText response
      /\ body r = body response
      /\ forall m, names_exclude redirect_names m = true ->
           Headers_get (headers r) m = Headers_get (headers response) m)
  /\ (truthy (Headers_get (headers response) (js "Location")) = false ->
      Response_init_error (FromBody (body response)) (status response)
        (statusText response) = None ->
      exists r,
        handleRedirect URL_parse response = Return r
        /\ status r = status response
        /\ statusText r = statusText response
        /\ body r = body response
        /\ (forall m, names_exclude (no_cache_names ++ cors_names) m = true ->
              Headers_get (headers r) m = Headers_get (headers response) m)
        /\ Headers_get (headers r) (js "Cache-Control") = Some (js "no-store")
        /\ Headers_get (headers r) (js "Pragma") = Some (js "no-cache")
        /\ Headers_get (headers r) (js "Expires") = Some (js "0")
        /\ Headers_get (headers r) (js "Access-Control-Allow-Origin")
           = Some (js "*")
        /\ Headers_get (headers r) (js "Access-Control-Allow-Methods")
           = Some (js "GET, POST, PUT, DELETE, OPTIONS")
        /\ Headers_get (headers r) (js "Access-Control-Allow-Headers")
           = Some (js "*")).
Proof.
  split; [|split; [|split]].
  - intros Hw. split.
    + intros Ha. now apply handleRedirect_returns.
    + intros e He. now apply handleRedirect_throws.
  - intros Ht Hs Hb.
    apply Response_init_error_none. split; [lia|]. split; [exact Ht|].
    destruct (Z.eq_dec (status response) 304) as [E|E].
    + left. now rewrite (Hb E).
    + right. lia.
  - intros r Hr. apply handleRedirect_shape in Hr as [-> | (v & ->)];
      apply redirect_frame_on; intros m Hm.
    + apply Headers_get_copy.
    + unfold redirect_names in Hm. apply names_exclude_cons in Hm as [Hm _].
      now rewrite (Headers_get_set_other _ _ _ _ Hm), Headers_get_copy.
  - intros H Ha. eexists.
    split; [now rewrite (handleRedirect_without_location _ H), Ha|].
    destruct (redirect_response_frame response (Headers_copy (headers response)))
      as (H1 & H2 & H3 & H4 & H5).
    repeat split; try assumption; try apply H5.
    intros m Hm. now rewrite (H4 m Hm), Headers_get_copy.
Qed.

End Redirect.

Lemma handleRedirect_frame_witness :
  exists r, handleRedirect URL_parse_plain (redirect_to (js "/login")) = Return r.
Proof.
  apply (proj1 (proj1 (handleRedirect_frame URL_parse_plain
                         (redirect_to (js "/login"))) eq_refl)).
  reflexivity.
Defined.

(** C3 (amended). When the Location value parses as an absolute URL, the
    new Location is "/" followed by the percent-encoding of the
    serialization of the parsed URL; removing the leading "/" and
    percent-decoding gives back that serialization, hence the original
    value whenever it is already in serialized form.  Location
    [https://example.com/new] becomes [/https%3A%2F%2Fexample.com%2Fnew]. *)
Theorem redirect_location_encodes_serialization :
  (forall (URL_parse : jsstring -> option URL) (response : Response)
          (loc : jsstring) (u : URL),
     Headers_get (headers response) (js "Location") = Some loc -> loc <> [] ->
     URL_parse loc = Some u -> isWellFormed (href u) = true ->
     Response_init_error (FromBody (body response)) (status response)
       (statusText response) = None ->
     exists e r,
       encodeURIComponent (href u) = Some e
       /\ handleRedirect URL_parse response = Return r
       /\ status r = status response
       /\ Headers_get (headers r) (js "Location") = Some (js "/" ++ e)
       /\ decodeURIComponent (strip_leading_slash (js "/" ++ e)) = Some (href u)
       /\ (href u = loc ->
           decodeURIComponent (strip_leading_slash (js "/" ++ e)) = Some loc))
  /\ rewritten_location (js "https://example.com/new")
     = Some (js "/https%3A%2F%2Fexample.com%2Fnew")
  /\ decoded_location (js "https://example.com/new")
     = Some (js "https://example.com/new").
Proof.
  split; [|split; reflexivity].
  intros URL_parse response loc u Hloc Hne Hu Hw Ha.
  destruct (encode_total (href u) Hw) as [e He]. exists e.
  eexists. split; [exact He|]. split.
  { rewrite (handleRedirect_with_location URL_parse response loc Hloc Hne).
    rewrite Hu, Ha. cbn [of_option bind]. rewrite He. reflexivity. }
  destruct (redirect_response_frame response
              (Headers_set (Headers_copy (headers response)) (js "Location")
                 (js "/" ++ e))) as (H1 & _ & _ & H4 & _).
  split; [exact H1|]. split.
  { rewrite (H4 (js "Location") eq_refl).
    apply Headers_get_set_same. reflexivity. }
  assert (Hd : decodeURIComponent (strip_leading_slash (js "/" ++ e))
               = Some (href u)) by (apply decode_encode, He).
  split; [exact Hd|]. intros <-. exact Hd.
Qed.

Lemma redirect_location_encodes_serialization_witness :
  exists e r,
    encodeURIComponent (js "https://example.com/new") = Some e
    /\ handleRedirect URL_parse_plain (redirect_to (js "HTTPS://Example.com/new"))
       = Return r
    /\ status r = 302
    /\ Headers_get (headers r) (js "Location") = Some (js "/" ++ e)
    /\ decodeURIComponent (strip_leading_slash (js "/" ++ e))
       = Some (js "https://example.com/new")
    /\ (js "https://example.com/new" = js "HTTPS://Example.com/new" ->
        decodeURIComponent (strip_leading_slash (js "/" ++ e))
        = Some (js "HTTPS://Example.com/new")).
Proof.
  apply (proj1 redirect_location_encodes_serialization URL_parse_plain
           (redirect_to (js "HTTPS://Example.com/new"))
           (js "HTTPS://Example.com/new")
           {| href := js "https://example.com/new";
              protocol := js "https:";
              host := js "example.com";
              pathname := js "/new";
              search := [];
              origin := js "https://example.com" |});
    [reflexivity | discriminate | reflexivity | reflexivity | reflexivity].
Defined.

(** A Location without a path: the rewritten value decodes to the
    serialized URL, which ends with a slash, not to the original value. *)
Lemma redirect_location_not_original :
  URL_parse_plain (js "https://example.com") <> None
  /\ rewritten_location (js "https://example.com")
     = Some (js "/https%3A%2F%2Fexample.com%2F")
  /\ decoded_location (js "https://example.com")
     = Some (js "https://example.com/")
  /\ decoded_location (js "https://example.com")
     <> Some (js "https://example.com").
Proof.
  split; [vm_compute; discriminate|]. split; [reflexivity|].
  split; [reflexivity|]. vm_compute. discriminate.
Qed.

Example Headers_examples :
  Headers_entries
    [(js "B", js "1"); (js "a", js "2"); (js "Set-Cookie", js "x");
     (js "b", js "3"); (js "set-cookie", js "y")]
  = [(js "a", js "2"); (js "b", js "1, 3"); (js "set-cookie", js "x");
     (js "set-cookie", js "y")]
  /\ Headers_set [(js "B", js "1"); (js "a", js "2"); (js "b", js "3")]
       (js "b") (js "9")
     = [(js "B", js "9"); (js "a", js "2")]
  /\ Headers_get [(js "B", js "1"); (js "a", js "2"); (js "b", js "3")]
       (js "b")
     = Some (js "1, 3").
Proof. repeat split; reflexivity. Qed.

(** ** The header filter *)

Lemma filter_uniform (f : jsstring -> bool) (X : Headers) (n : jsstring) :
  (forall e, In e X -> fst e = n) ->
  filter (fun e => f (fst e)) X = if f n then X else [].
Proof.
  intros H. induction X as [|e X IH]; cbn [filter].
  - now destruct (f n).
  - rewrite (H e (or_introl eq_refl)).
    assert (IH' := IH (fun e' He' => H e' (or_intror He'))).
    destruct (f n); now rewrite IH'.
Qed.

Lemma filter_entries_by_name (f : jsstring -> bool) (H : Headers)
    (N : list jsstring) :
  filter (fun e => f (fst e)) (flat_map (entries_of_name H) N)
  = flat_map (entries_of_name H) (filter f N).
Proof.
  induction N as [|n N IH]; [reflexivity|]. cbn [flat_map filter].
  rewrite filter_app, IH, (filter_uniform f _ n) by apply entries_of_name_fst.
  now destruct (f n).
Qed.

Lemma strongly_sorted_filter (f : jsstring -> bool) (l : list jsstring) :
  StronglySorted name_lt l -> StronglySorted name_lt (filter f l).
Proof.
  induction 1 as [|m l Hs IH Hm]; cbn [filter]; [constructor|].
  destruct (f m); [|exact IH]. constructor; [exact IH|].
  apply Forall_forall. intros x Hx. apply filter_In in Hx as [Hx _].
  rewrite Forall_forall in Hm. now apply Hm.
Qed.





Lemma existsb_streq_In (n : jsstring) (N : list jsstring) :
  existsb (streq n) N = true <-> In n N.
Proof.
  rewrite existsb_exists. split.
  - intros (x & Hx & E). apply streq_spec in E. now subst.
  - intros H. exists n. split; [assumption | apply streq_refl].
Qed.

Lemma join_values_single (v : jsstring) : join_values [v] = v.
Proof. reflexivity. Qed.





Lemma not_cf_spec (n : jsstring) :
  not_cf n = negb (startsWith (toLowerCase n) (js "cf-")).
Proof. unfold not_cf. now rewrite or_empty_some. Qed.

Lemma Headers_get_filterHeaders (f : jsstring -> bool) (H : Headers)
    (m : jsstring) :
  Headers_get (filterHeaders H f) m
  = if f (toLowerCase m) then Headers_get H m else None.
Proof.
  unfold filterHeaders. rewrite Headers_get_new.
  rewrite <- (Headers_get_entries H m).
  unfold Headers_get, Headers_entries. rewrite filter_entries_by_name.
  assert (Hl : forall N', (forall n, In n N' -> In n (sorted_names H)) ->
                          forall n, In n N' -> toLowerCase n = n)
    by (intros N' HN' n Hn; eapply sorted_names_lower; eauto).
  pose proof (sorted_names_sorted H) as Hs.
  rewrite (header_values_sorted_entries H (filter f (sorted_names H)) m).
  - rewrite (header_values_sorted_entries H (sorted_names H) m).
    + destruct (f (toLowerCase m)) eqn:Hf.
      * replace (existsb (streq (toLowerCase m)) (filter f (sorted_names H)))
          with (existsb (streq (toLowerCase m)) (sorted_names H)); [reflexivity|].
        destruct (existsb (streq (toLowerCase m)) (sorted_names H)) eqn:E.
        -- symmetry. apply existsb_streq_In, filter_In.
           split; [now apply existsb_streq_In | exact Hf].
        -- destruct (existsb _ (filter f _)) eqn:E'; [|reflexivity].
           apply existsb_streq_In, filter_In in E' as [E' _].
           apply existsb_streq_In in E'. congruence.
      * replace (existsb (streq (toLowerCase m)) (filter f (sorted_names H)))
          with false; [reflexivity|].
        destruct (existsb _ (filter f _)) eqn:E'; [|reflexivity].
        apply existsb_streq_In, filter_In in E' as [_ E']. congruence.
    + apply Hl. auto.
    + now apply strongly_sorted_NoDup.
  - apply Hl. intros n Hn. now apply filter_In in Hn.
  - now apply strongly_sorted_NoDup, strongly_sorted_filter.
Qed.


(** ** The HTML rewriter *)

Example rewrite_root_relative_example :
  replaceRelativePaths root_relative_anchor (js "https:") (js "proxy.example")
    (js "https://example.com")
  = js "<a href=" ++ [dquote]
    ++ js "https://proxy.example/https://example.com/x" ++ [dquote] ++ js ">".
Proof. reflexivity. Qed.

Example rewrite_protocol_relative_example :
  replaceRelativePaths protocol_relative_anchor (js "https:")
    (js "proxy.example") (js "https://example.com")
  = protocol_relative_anchor.
Proof. reflexivity. Qed.

Example rewrite_many_example :
  replaceRelativePaths
    (js "<img src='/a.png'><form action='/s'><a href='//cdn/x'><a href='y'>")
    (js "http:") (js "p") (js "http://t")
  = js "<img src='http://p/http://t/a.png'><form action='http://p/http://t/s'><a href='//cdn/x'><a href='y'>".
Proof. reflexivity. Qed.


Lemma relative_path_regex_eq :
  relative_path_regex
  = Cat (Group 1
           (Cat (Group 2
                   (Alt (Cat (Cat (Cat (Chr 104) (Chr 114)) (Chr 101)) (Chr 102))
                      (Alt (Cat (Cat (Chr 115) (Chr 114)) (Chr 99))
                         (Cat (Cat (Cat (Cat (Cat (Chr 97) (Chr 99)) (Chr 116))
                                      (Chr 105)) (Chr 111)) (Chr 110)))))
                (Cat (Chr 61) (Class [34; 39]))))
      (Cat (Chr 47) (NotFollowedBy (Chr 47))).
Proof. reflexivity. Qed.

Ltac eval_const_tests :=
  repeat match goal with
  | |- context [Z.eqb (Zpos ?a) (Zpos ?b)] =>
      let v := eval vm_compute in (Z.eqb (Zpos a) (Zpos b)) in
      change (Z.eqb (Zpos a) (Zpos b)) with v
  | H : context [Z.eqb (Zpos ?a) (Zpos ?b)] |- _ =>
      let v := eval vm_compute in (Z.eqb (Zpos a) (Zpos b)) in
      change (Z.eqb (Zpos a) (Zpos b)) with v in H
  end.

Ltac exec_step :=
  cbn [rmatch existsb orb firstn Nat.sub app] in *; eval_const_tests;
  cbn [rmatch existsb orb firstn Nat.sub app] in *.

Lemma exec_match (name : jsstring) (q : Z) (rest : jsstring) :
  In name attribute_names -> In q quotes -> starts_with_slash rest = false ->
  regex_exec relative_path_regex (opener name q ++ 47 :: rest)
  = Some (rest, S (List.length (opener name q)), [(1%nat, opener name q); (2%nat, name)]).
Proof.
  intros Hn Hq Hr. rewrite relative_path_regex_eq. unfold regex_exec.
  assert (Hl : match rest with [] => true | c :: _ => negb (c =? 47) end = true)
    by (destruct rest; [reflexivity | cbn in Hr; now rewrite Hr]).
  cbn [attribute_names quotes In] in Hn, Hq.
  destruct Hn as [<- | [<- | [<- | []]]]; destruct Hq as [<- | [<- | []]];
    cbn; destruct rest as [|c rest]; try reflexivity;
    cbn in Hr; rewrite Hr; reflexivity.
Qed.

Ltac exec_tree H :=
  repeat first
    [ discriminate H
    | progress (cbn [rmatch existsb orb firstn Nat.sub] in H)
    | progress eval_const_tests
    | match type of H with
      | context [match ?t with [] => _ | _ :: _ => _ end] =>
          is_var t; destruct t
      | context [?a =? ?b] => destruct (Z.eqb_spec a b); [subst|]
      end ].

Lemma starts_with_slash_false (c : Z) (s : jsstring) :
  c <> 47 -> starts_with_slash (c :: s) = false.
Proof. intros H. cbn. now apply Z.eqb_neq. Qed.

Ltac opener_facts :=
  split; [cbn; tauto|]; split; [cbn; tauto|]; split; [reflexivity|];
  split; [first [reflexivity | now apply starts_with_slash_false]|];
  split; reflexivity.

Ltac pick_opener :=
  first [ exists (js "href"), 34; opener_facts
        | exists (js "href"), 39; opener_facts
        | exists (js "src"), 34; opener_facts
        | exists (js "src"), 39; opener_facts
        | exists (js "action"), 34; opener_facts
        | exists (js "action"), 39; opener_facts ].

Lemma exec_inv (s rest : jsstring) (len : nat) (caps : captures) :
  regex_exec relative_path_regex s = Some (rest, len, caps) ->
  exists name q,
    In name attribute_names /\ In q quotes
    /\ s = opener name q ++ 47 :: rest
    /\ starts_with_slash rest = false
    /\ len = S (List.length (opener name q))
    /\ caps = [(1%nat, opener name q); (2%nat, name)].
Proof.
  rewrite relative_path_regex_eq. unfold regex_exec. intros H.
  exec_tree H; injection H as <- <- <-; pick_opener.
Qed.

(** *** The replacement text *)

Lemma GetSubstitution_literal (matched before after : jsstring)
    (caps : captures) (m : Z) (lit : jsstring) :
  no_dollar lit = true ->
  GetSubstitution matched before after caps m lit = lit.
Proof.
  induction lit as [|c lit IH]; [reflexivity|]. intros H.
  cbn [no_dollar forallb] in H. apply andb_true_iff in H as [Hc Hl].
  apply negb_true_iff in Hc. cbn [GetSubstitution]. rewrite Hc.
  f_equal. now apply IH.
Qed.

Lemma GetSubstitution_group1 (matched before after : jsstring)
    (caps : captures) (lit : jsstring) :
  no_dollar lit = true ->
  GetSubstitution matched before after caps 2 (js "$1" ++ lit)
  = capture_or_empty 1 caps ++ lit.
Proof.
  intros H. change (js "$1" ++ lit) with (36 :: 49 :: lit).
  cbn [GetSubstitution]. eval_const_tests. cbv iota.
  change (is_digit 49) with true. cbv iota.
  change (49 - 48) with 1. change ((1 <=? 1) && (1 <=? 2)) with true.
  cbv iota zeta.
  rewrite (GetSubstitution_literal _ _ _ _ _ lit H).
  destruct lit as [|d lit']; [reflexivity|].
  destruct (is_digit d) eqn:Hd; [|reflexivity].
  unfold is_digit in Hd. apply in_range_spec in Hd.
  replace (10 * 1 + (d - 48) <=? 2) with false
    by (symmetry; apply Z.leb_gt; lia).
  reflexivity.
Qed.

Lemma no_dollar_app (a b : jsstring) :
  no_dollar (a ++ b) = no_dollar a && no_dollar b.
Proof. apply forallb_app. Qed.

Lemma no_dollar_prefix (protocol host origin : jsstring) :
  no_dollar protocol = true -> no_dollar host = true ->
  no_dollar origin = true ->
  no_dollar (proxy_prefix protocol host origin) = true.
Proof.
  intros Hp Hh Ho. unfold proxy_prefix.
  rewrite !no_dollar_app, Hp, Hh, Ho. reflexivity.
Qed.

(** *** The replacement loop *)

Lemma matched_text (name : jsstring) (q : Z) (rest : jsstring) :
  firstn (S (List.length (opener name q))) (opener name q ++ 47 :: rest)
  = opener name q ++ [47].
Proof.
  change (47 :: rest) with ([47] ++ rest). rewrite app_assoc.
  replace (S (List.length (opener name q)))
    with (List.length (opener name q ++ [47%Z]) + 0)%nat
    by (rewrite length_app; cbn; lia).
  rewrite firstn_app_2. cbn [firstn]. apply app_nil_r.
Qed.

Lemma exec_shorter (s rest : jsstring) (len : nat) (caps : captures) :
  regex_exec relative_path_regex s = Some (rest, len, caps) ->
  (List.length rest < List.length s)%nat.
Proof.
  intros H. apply exec_inv in H as (name & q & _ & _ & -> & _).
  rewrite length_app. cbn [List.length]. lia.
Qed.

Section Loop.

Variable P : jsstring.
Hypothesis P_literal : no_dollar P = true.

Lemma loop_step (fuel : nat) (b s : jsstring) :
  replace_loop (S fuel) relative_path_regex (js "$1" ++ P) b s
  = match regex_exec relative_path_regex s with
    | Some (rest, len, caps) =>
        capture_or_empty 1 caps ++ P
        ++ replace_loop fuel relative_path_regex (js "$1" ++ P)
             (b ++ firstn len s) rest
    | None =>
        match s with
        | [] => []
        | c :: s' =>
            c :: replace_loop fuel relative_path_regex (js "$1" ++ P)
                   (b ++ [c]) s'
        end
    end.
Proof.
  cbn [replace_loop].
  destruct (regex_exec relative_path_regex s) as [[[rest len] caps]|] eqn:E;
    [|reflexivity].
  change (Z.of_nat (group_count relative_path_regex)) with 2.
  rewrite (GetSubstitution_group1 _ _ _ _ P P_literal), <- app_assoc.
  do 2 f_equal.
  apply exec_inv in E as (name & q & Hn & _ & -> & _ & -> & _).
  rewrite matched_text. unfold opener.
  cbn [attribute_names In] in Hn.
  destruct Hn as [<- | [<- | [<- | []]]]; reflexivity.
Qed.

(** The result depends neither on the fuel, once it exceeds the length of
    the text, nor on the text before the current position. *)
Lemma loop_indep (n : nat) : forall (s b : jsstring) (fuel : nat),
  (List.length s <= n)%nat -> (List.length s < fuel)%nat ->
  replace_loop fuel relative_path_regex (js "$1" ++ P) b s
  = replace_loop (S (List.length s)) relative_path_regex (js "$1" ++ P) [] s.
Proof.
  induction n as [|n IH]; intros s b fuel Hn Hf;
    (destruct fuel as [|fuel]; [lia|]); rewrite !loop_step.
  - destruct s; [|cbn in Hn; lia].
    destruct (regex_exec relative_path_regex []) as [[[rest len] caps]|] eqn:E;
      [|reflexivity].
    apply exec_shorter in E. cbn in E. lia.
  - destruct (regex_exec relative_path_regex s) as [[[rest len] caps]|] eqn:E.
    + pose proof (exec_shorter _ _ _ _ E) as Hlt.
      rewrite (IH rest (b ++ firstn len s) fuel) by lia.
      rewrite (IH rest ([] ++ firstn len s) (List.length s)) by lia.
      reflexivity.
    + destruct s as [|c s']; [reflexivity|]. cbn [List.length] in *.
      rewrite (IH s' (b ++ [c]) fuel) by lia.
      rewrite (IH s' ([] ++ [c]) (S (List.length s'))) by lia.
      reflexivity.
Qed.

(** The rewriting of a text, one match attempt at a time. *)
Lemma replace_unfold (s : jsstring) :
  String_replace s relative_path_regex (js "$1" ++ P)
  = match regex_exec relative_path_regex s with
    | Some (rest, len, caps) =>
        capture_or_empty 1 caps ++ P
        ++ String_replace rest relative_path_regex (js "$1" ++ P)
    | None =>
        match s with
        | [] => []
        | c :: s' => c :: String_replace s' relative_path_regex (js "$1" ++ P)
        end
    end.
Proof.
  unfold String_replace. rewrite loop_step.
  destruct (regex_exec relative_path_regex s) as [[[rest len] caps]|] eqn:E.
  - pose proof (exec_shorter _ _ _ _ E) as Hlt.
    now rewrite (loop_indep (List.length rest) rest _ (List.length s)) by lia.
  - destruct s as [|c s']; [reflexivity|]. cbn [List.length].
    now rewrite (loop_indep (List.length s') s' _ (S (List.length s'))) by lia.
Qed.

End Loop.

(** *** Matches do not straddle the start of an attribute name *)

Ltac exec_tree_goal :=
  repeat first
    [ reflexivity
    | progress (cbn [rmatch existsb orb firstn Nat.sub app])
    | progress eval_const_tests
    | match goal with
      | |- context [match ?t ++ _ with [] => _ | _ :: _ => _ end] =>
          is_var t; destruct t
      | |- context [match ?t with [] => _ | _ :: _ => _ end] =>
          is_var t; destruct t
      | |- context [?a =? ?b] => destruct (Z.eqb_spec a b); [subst|]
      end ].

Lemma starts_attribute_cases (X : jsstring) :
  starts_attribute X = true ->
  exists x X', X = x :: X' /\ (x = 104 \/ x = 115 \/ x = 97).
Proof.
  destruct X as [|x X']; [discriminate|]. cbn [starts_attribute existsb].
  rewrite !orb_true_iff, !Z.eqb_eq. intros H. exists x, X'.
  split; [reflexivity|]. destruct H as [H | [H | [H | H]]]; auto. discriminate H.
Qed.

Lemma exec_app (t X : jsstring) :
  t <> [] -> starts_attribute X = true ->
  regex_exec relative_path_regex (t ++ X)
  = match regex_exec relative_path_regex t with
    | Some (rest, len, caps) => Some (rest ++ X, len, caps)
    | None => None
    end.
Proof.
  intros Ht HX. apply starts_attribute_cases in HX as (x & X' & -> & Hx).
  destruct t as [|c t]; [contradiction|]. clear Ht.
  rewrite relative_path_regex_eq. unfold regex_exec.
  destruct Hx as [-> | [-> | ->]]; exec_tree_goal.
Qed.

Section Rewriting.

Variable P : jsstring.
Hypothesis P_literal : no_dollar P = true.

Lemma replace_nil : String_replace [] relative_path_regex (js "$1" ++ P) = [].
Proof. now rewrite (replace_unfold P P_literal). Qed.

(** Rewriting distributes over a cut in front of an attribute name. *)
Lemma replace_app (n : nat) : forall t X : jsstring,
  (List.length t <= n)%nat -> starts_attribute X = true ->
  String_replace (t ++ X) relative_path_regex (js "$1" ++ P)
  = String_replace t relative_path_regex (js "$1" ++ P)
    ++ String_replace X relative_path_regex (js "$1" ++ P).
Proof.
  induction n as [|n IH]; intros t X Hn HX.
  - destruct t; [|cbn in Hn; lia]. now rewrite replace_nil.
  - destruct t as [|c t]; [now rewrite replace_nil|].
    rewrite (replace_unfold P P_literal ((c :: t) ++ X)).
    rewrite (replace_unfold P P_literal (c :: t)).
    rewrite (exec_app (c :: t) X ltac:(discriminate) HX).
    destruct (regex_exec relative_path_regex (c :: t))
      as [[[rest len] caps]|] eqn:E.
    + pose proof (exec_shorter _ _ _ _ E) as Hlt. cbn [List.length] in *.
      rewrite (IH rest X) by (assumption || lia).
      now rewrite <- !app_assoc.
    + cbn [app List.length] in *. now rewrite (IH t X) by (assumption || lia).
Qed.

Lemma opener_starts_attribute (name : jsstring) (q : Z) (rest : jsstring) :
  In name attribute_names -> starts_attribute (opener name q ++ rest) = true.
Proof.
  cbn [attribute_names In]. intros [<- | [<- | [<- | []]]]; reflexivity.
Qed.

Lemma replace_root_relative (p name : jsstring) (q : Z) (rest : jsstring) :
  In name attribute_names -> In q quotes -> starts_with_slash rest = false ->
  String_replace (p ++ opener name q ++ 47 :: rest) relative_path_regex
    (js "$1" ++ P)
  = String_replace p relative_path_regex (js "$1" ++ P)
    ++ opener name q ++ P
    ++ String_replace rest relative_path_regex (js "$1" ++ P).
Proof.
  intros Hn Hq Hr.
  rewrite (replace_app (List.length p)) by (auto using opener_starts_attribute).
  f_equal. rewrite (replace_unfold P P_literal (opener name q ++ 47 :: rest)).
  now rewrite (exec_match name q rest Hn Hq Hr).
Qed.

Ltac literal_units :=
  repeat match goal with
  | |- context [opener (js ?n) ?q] =>
      let v := eval cbv in (opener (js n) q) in
      change (opener (js n) q) with v
  | |- context [js ?w] =>
      lazymatch w with
      | "$1"%string => fail
      | _ => let v := eval cbv in (js w) in change (js w) with v
      end
  end;
  cbn [app].

Ltac skip_units :=
  repeat match goal with
  | |- context [String_replace (?c :: ?s) _ _] =>
      rewrite (replace_unfold P P_literal (c :: s));
      change (regex_exec relative_path_regex (c :: s))
        with (@None match_result);
      cbv iota
  end.

Lemma replace_protocol_relative (p name : jsstring) (q : Z) (rest : jsstring) :
  In name attribute_names -> In q quotes ->
  String_replace (p ++ opener name q ++ 47 :: 47 :: rest) relative_path_regex
    (js "$1" ++ P)
  = String_replace p relative_path_regex (js "$1" ++ P)
    ++ opener name q ++ 47 :: 47
    :: String_replace rest relative_path_regex (js "$1" ++ P).
Proof.
  intros Hn Hq.
  rewrite (replace_app (List.length p)) by (auto using opener_starts_attribute).
  f_equal. cbn [attribute_names quotes In] in Hn, Hq.
  destruct Hn as [<- | [<- | [<- | []]]]; destruct Hq as [<- | [<- | []]];
    literal_units; skip_units; reflexivity.
Qed.

Lemma replace_anchor_start :
  String_replace (js "<a ") relative_path_regex (js "$1" ++ P) = js "<a ".
Proof. literal_units. skip_units. now rewrite replace_nil. Qed.

Lemma replace_anchor_end :
  String_replace (js "x" ++ [dquote] ++ js ">") relative_path_regex
    (js "$1" ++ P)
  = js "x" ++ [dquote] ++ js ">".
Proof.
  change [dquote] with [34]. literal_units. skip_units.
  now rewrite replace_nil.
Qed.

End Rewriting.

(** C4 (amended). For a request scheme, request host and target origin
    without "$": every occurrence of href=, src= or action= followed by a
    double or single quote and a single "/" is rewritten into the same
    attribute opening followed by scheme//host/origin/, and an occurrence
    followed by "//" stays as it is; the text before and the text after
    are rewritten by the same rule.  The two anchors of the scenario. *)
Theorem replaceRelativePaths_root_relative_only (protocol host origin : jsstring)
    (Hprotocol : no_dollar protocol = true) (Hhost : no_dollar host = true)
    (Horigin : no_dollar origin = true) :
  (forall (p name : jsstring) (q : Z) (rest : jsstring),
     In name attribute_names -> In q quotes -> starts_with_slash rest = false ->
     replaceRelativePaths (p ++ opener name q ++ 47 :: rest) protocol host origin
     = replaceRelativePaths p protocol host origin
       ++ opener name q ++ proxy_prefix protocol host origin
       ++ replaceRelativePaths rest protocol host origin)
  /\ (forall (p name : jsstring) (q : Z) (rest : jsstring),
        In name attribute_names -> In q quotes ->
        replaceRelativePaths (p ++ opener name q ++ 47 :: 47 :: rest)
          protocol host origin
        = replaceRelativePaths p protocol host origin
          ++ opener name q ++ 47 :: 47
          :: replaceRelativePaths rest protocol host origin)
  /\ replaceRelativePaths root_relative_anchor protocol host origin
     = js "<a href=" ++ [dquote] ++ proxy_prefix protocol host origin
       ++ js "x" ++ [dquote] ++ js ">"
  /\ replaceRelativePaths protocol_relative_anchor protocol host origin
     = protocol_relative_anchor.
Proof.
  pose proof (no_dollar_prefix protocol host origin Hprotocol Hhost Horigin)
    as HP.
  assert (A : forall (p name : jsstring) (q : Z) (rest : jsstring),
     In name attribute_names -> In q quotes -> starts_with_slash rest = false ->
     replaceRelativePaths (p ++ opener name q ++ 47 :: rest) protocol host origin
     = replaceRelativePaths p protocol host origin
       ++ opener name q ++ proxy_prefix protocol host origin
       ++ replaceRelativePaths rest protocol host origin)
    by (intros; now apply (replace_root_relative _ HP)).
  assert (B : forall (p name : jsstring) (q : Z) (rest : jsstring),
        In name attribute_names -> In q quotes ->
        replaceRelativePaths (p ++ opener name q ++ 47 :: 47 :: rest)
          protocol host origin
        = replaceRelativePaths p protocol host origin
          ++ opener name q ++ 47 :: 47
          :: replaceRelativePaths rest protocol host origin)
    by (intros; now apply (replace_protocol_relative _ HP)).
  split; [exact A|]. split; [exact B|]. split.
  - change root_relative_anchor
      with (js "<a " ++ opener (js "href") 34
            ++ 47 :: (js "x" ++ [dquote] ++ js ">")).
    rewrite A by (cbn; auto).
    change (replaceRelativePaths (js "<a ") protocol host origin)
      with (String_replace (js "<a ") relative_path_regex
              (js "$1" ++ proxy_prefix protocol host origin)).
    change (replaceRelativePaths (js "x" ++ [dquote] ++ js ">") protocol host origin)
      with (String_replace (js "x" ++ [dquote] ++ js ">") relative_path_regex
              (js "$1" ++ proxy_prefix protocol host origin)).
    rewrite (replace_anchor_start _ HP), (replace_anchor_end _ HP).
    reflexivity.
  - change protocol_relative_anchor
      with (js "<a " ++ opener (js "href") 34
            ++ 47 :: 47 :: (js "x" ++ [dquote] ++ js ">")).
    rewrite B by (cbn; auto).
    change (replaceRelativePaths (js "<a ") protocol host origin)
      with (String_replace (js "<a ") relative_path_regex
              (js "$1" ++ proxy_prefix protocol host origin)).
    change (replaceRelativePaths (js "x" ++ [dquote] ++ js ">") protocol host origin)
      with (String_replace (js "x" ++ [dquote] ++ js ">") relative_path_regex
              (js "$1" ++ proxy_prefix protocol host origin)).
    rewrite (replace_anchor_start _ HP), (replace_anchor_end _ HP).
    reflexivity.
Qed.

Lemma replaceRelativePaths_root_relative_only_witness :
  replaceRelativePaths root_relative_anchor (js "https:") (js "proxy.example")
    (js "https://example.com")
  = js "<a href=" ++ [dquote]
    ++ proxy_prefix (js "https:") (js "proxy.example") (js "https://example.com")
    ++ js "x" ++ [dquote] ++ js ">".
Proof.
  apply (proj1 (proj2 (proj2
           (replaceRelativePaths_root_relative_only (js "https:")
              (js "proxy.example") (js "https://example.com")
              eq_refl eq_refl eq_refl)))).
Defined.

(** A "$&" in the target origin is replaced by the matched text, and a
    quoted root-relative reference inside a protocol-relative value is
    rewritten. *)
Lemma replaceRelativePaths_dollar_and_nested :
  replaceRelativePaths root_relative_anchor (js "https:") (js "proxy.example")
    (js "http://a$&b")
  = js "<a href=" ++ [dquote] ++ js "https://proxy.example/http://ahref="
    ++ [dquote] ++ js "/b/x" ++ [dquote] ++ js ">"
  /\ replaceRelativePaths root_relative_anchor (js "https:")
       (js "proxy.example") (js "http://a$&b")
     <> js "<a href=" ++ [dquote]
        ++ proxy_prefix (js "https:") (js "proxy.example") (js "http://a$&b")
        ++ js "x" ++ [dquote] ++ js ">"
  /\ replaceRelativePaths nested_reference_anchor (js "https:")
       (js "proxy.example") (js "https://example.com")
     = js "<a href=" ++ [dquote]
       ++ js "//cdn.example/?next=src='https://proxy.example/https://example.com/y'"
       ++ [dquote] ++ js ">"
  /\ replaceRelativePaths nested_reference_anchor (js "https:")
       (js "proxy.example") (js "https://example.com")
     <> nested_reference_anchor.
Proof.
  split; [reflexivity|]. split; [vm_compute; discriminate|].
  split; [reflexivity|]. vm_compute; discriminate.
Qed.

(** ** Scenarios of the specification, run on the worker *)

Example scenario_plain_forward :
  example_worker (Return (upstream_ok (js "text/plain") (js "hello")))
    (proxied_get (js "/https%3A%2F%2Fexample.com%2F")) secret_env
  = Return
    {| status := 200;
       statusText := js "OK";
       headers :=
         [(js "cache-control", js "no-store");
          (js "content-type", js "text/plain");
          (js "Pragma", js "no-cache");
          (js "Expires", js "0");
          (js "Access-Control-Allow-Origin", js "*");
          (js "Access-Control-Allow-Methods",
           js "GET, POST, PUT, DELETE, OPTIONS");
          (js "Access-Control-Allow-Headers", js "*")];
       body := BodyStream (js "hello") |}.
Proof. reflexivity. Qed.

Example scenario_redirect :
  exists r,
    example_worker (Return (redirect_to (js "https://example.com/new")))
      (proxied_get (js "/https%3A%2F%2Fexample.com%2Fold")) secret_env
    = Return r
    /\ status r = 302
    /\ Headers_get (headers r) (js "Location")
       = Some (js "/https%3A%2F%2Fexample.com%2Fnew")
    /\ body r = BodyStream [].
Proof. eexists. repeat split; reflexivity. Qed.

Example scenario_html :
  exists r,
    example_worker
      (Return (upstream_ok (js "text/html; charset=utf-8")
                 root_relative_anchor))
      (proxied_get (js "/https%3A%2F%2Fexample.com%2Fpage")) secret_env
    = Return r
    /\ status r = 200
    /\ body r
       = BodyText (js "<a href=" ++ [dquote]
                   ++ js "https://proxy.example/https://example.com/x"
                   ++ [dquote] ++ js ">").
Proof. eexists. repeat split; reflexivity. Qed.

Example scenario_missing_secret :
  example_worker unreachable (proxied_get (js "/")) (env_with_password None)
  = Return password_not_set_response
  /\ status password_not_set_response = 500.
Proof. repeat split; reflexivity. Qed.

Example scenario_bad_credentials :
  example_worker unreachable (request_with_authorization (js "Basic b29wcw=="))
    secret_env
  = Return auth_required_response
  /\ example_worker unreachable (request_with_authorization []) secret_env
     = Return auth_required_response
  /\ status auth_required_response = 401.
Proof. repeat split; reflexivity. Qed.

Example scenario_errors :
  example_worker unreachable (proxied_get (js "/https%3A%2F%2Fexample.com%2F"))
    secret_env
  = jsonResponse (js "unreachable") 500
  /\ example_worker unreachable (proxied_get (js "/%E0%A4%A")) secret_env
     = jsonResponse (js "URI malformed") 500
  /\ (exists r,
        jsonResponse (js "unreachable") 500 = Return r
        /\ status r = 500
        /\ body r
           = BodyText (js "{" ++ [dquote] ++ js "error" ++ [dquote] ++ js ":"
                       ++ [dquote] ++ js "unreachable" ++ [dquote] ++ js "}")).
Proof.
  split; [reflexivity|]. split; [reflexivity|].
  eexists. repeat split; reflexivity.
Qed.

(** An upstream status that the constructor of responses rejects: the
    worker answers 500 with the JSON error. *)
Example scenario_unconstructible :
  example_worker
    (Return {| status := 999; statusText := [];
               headers := [(js "Content-Type", js "text/plain")];
               body := BodyStream (js "denied") |})
    (proxied_get (js "/https%3A%2F%2Fexample.com%2F")) secret_env
  = jsonResponse
      (js "init[status] must be in the range of 200 to 599, inclusive.") 500
  /\ example_worker
       (Return {| status := 204; statusText := js "No Content";
                  headers := [(js "Content-Type", js "text/html")];
                  body := BodyNull |})
       (proxied_get (js "/https%3A%2F%2Fexample.com%2F")) secret_env
     = jsonResponse (js "Response with null body status cannot have body") 500.
Proof. split; reflexivity. Qed.

(** * Further properties of the two workers *)

(** ** The Auth Gate *)

Lemma checkAuth_cases (request : Request) (env : Env) :
  (truthy (PASSWORD env) = false
   /\ checkAuth request env
      = Return {| ok := false; reason := Some (js "PASSWORD not set") |})
  \/ (exists s, PASSWORD env = Some s /\ s <> []
      /\ btoa (js "admin:" ++ s) = None
      /\ checkAuth request env = Throw InvalidCharacterError)
  \/ (exists s b, PASSWORD env = Some s /\ s <> []
      /\ btoa (js "admin:" ++ s) = Some b
      /\ or_empty (Headers_get (request_headers request) (js "Authorization"))
         <> js "Basic " ++ b
      /\ checkAuth request env
         = Return {| ok := false; reason := Some (js "Auth required") |})
  \/ (exists s b, PASSWORD env = Some s /\ s <> []
      /\ btoa (js "admin:" ++ s) = Some b
      /\ or_empty (Headers_get (request_headers request) (js "Authorization"))
         = js "Basic " ++ b
      /\ checkAuth request env = Return authorized).
Proof.
  destruct (truthy_cases (PASSWORD env)) as [Hu | (s & Hp & Hs)].
  - left. split; [exact Hu | now apply checkAuth_unset].
  - right. destruct (btoa (js "admin:" ++ s)) as [b|] eqn:Hb.
    + right. rewrite (checkAuth_set request env s b Hp Hs Hb).
      destruct (streq _ _) eqn:E.
      * right. exists s, b. apply streq_spec in E. auto.
      * left. exists s, b. apply streq_false in E. auto.
    + left. exists s. repeat split; try assumption.
      exact (checkAuth_unencodable request env s Hp Hs Hb).
Qed.

Lemma passes_inv (request : Request) (env : Env) :
  passes request env ->
  exists s b, PASSWORD env = Some s /\ s <> []
    /\ btoa (js "admin:" ++ s) = Some b
    /\ or_empty (Headers_get (request_headers request) (js "Authorization"))
       = js "Basic " ++ b
    /\ checkAuth request env = Return authorized.
Proof.
  intros (a & Ha & Hok).
  destruct (checkAuth_cases request env)
    as [[_ H] | [(s & _ & _ & _ & H) | [(s & b & _ & _ & _ & _ & H) | H]]];
    try exact H; rewrite H in Ha; try discriminate Ha;
    injection Ha as <-; discriminate Hok.
Qed.

(** X1. A request without an Authorization header, or with an empty one,
    is never authorized, whatever the environment. *)
Theorem checkAuth_needs_header (request : Request) (env : Env)
    (Hmissing : or_empty (Headers_get (request_headers request)
                            (js "Authorization")) = []) :
  ~ passes request env.
Proof.
  intros H. apply passes_inv in H as (s & b & _ & _ & _ & Hh & _).
  rewrite Hmissing in Hh. discriminate Hh.
Qed.

Lemma checkAuth_needs_header_witness : ~ passes post_request secret_env.
Proof. apply checkAuth_needs_header. reflexivity. Defined.

(** X2. [checkAuth] reports "PASSWORD not set" exactly when the PASSWORD
    binding is undefined or the empty string. *)
Theorem checkAuth_not_set_iff (request : Request) (env : Env) :
  checkAuth request env
  = Return {| ok := false; reason := Some (js "PASSWORD not set") |}
  <-> (PASSWORD env = None \/ PASSWORD env = Some []).
Proof.
  split.
  - intros H.
    destruct (checkAuth_cases request env)
      as [[Hu _] | [(s & _ & _ & _ & H') | [(s & b & _ & _ & _ & _ & H')
                                           | (s & b & _ & _ & _ & _ & H')]]];
      try (rewrite H' in H; discriminate H).
    destruct (PASSWORD env) as [[|c s]|]; auto. discriminate Hu.
  - intros [H | H]; apply checkAuth_unset; now rewrite H.
Qed.

(** X3. Credentials are tied to the secret: a request that is authorized
    under two environments finds the same PASSWORD in both, and two
    requests authorized under one environment carry the same Authorization
    header. *)
Theorem checkAuth_separates_secrets (request request' : Request)
    (env env' : Env) :
  (passes request env -> passes request env' -> PASSWORD env = PASSWORD env')
  /\ (passes request env -> passes request' env ->
      Headers_get (request_headers request) (js "Authorization")
      = Headers_get (request_headers request') (js "Authorization")).
Proof.
  split; intros H1 H2;
    apply passes_inv in H1 as (s1 & b1 & Hp1 & Hs1 & Hb1 & Hh1 & _);
    apply passes_inv in H2 as (s2 & b2 & Hp2 & Hs2 & Hb2 & Hh2 & _).
  - rewrite Hh1 in Hh2. apply app_inv_head in Hh2. subst b2.
    pose proof (btoa_inj _ _ _ Hb1 Hb2) as E. apply app_inv_head in E.
    congruence.
  - assert (b1 = b2) by congruence. subst b2.
    destruct (Headers_get (request_headers request) (js "Authorization"))
      as [[|c1 h1]|]; try discriminate Hh1;
    destruct (Headers_get (request_headers request') (js "Authorization"))
      as [[|c2 h2]|]; try discriminate Hh2.
    rewrite or_empty_some in Hh1, Hh2. congruence.
Qed.

Lemma checkAuth_separates_secrets_witness :
  PASSWORD secret_env = PASSWORD (env_with_password (Some (js "secret"))).
Proof.
  apply (proj1 (checkAuth_separates_secrets (proxied_get (js "/"))
                  (proxied_get (js "/")) secret_env
                  (env_with_password (Some (js "secret")))));
    exists authorized; split; reflexivity.
Defined.

(** ** The Pages gate worker *)

(** X4. With a valid credential the Pages worker answers with what the
    ASSETS binding returns for the unchanged request, and with a 500
    plain-text response when the binding is absent. *)
Theorem pages_fetch_serves_assets (request : Request) (env : Env)
    (s b : jsstring)
    (Hsecret : PASSWORD env = Some s) (Hnonempty : s <> [])
    (Hencoded : btoa (js "admin:" ++ s) = Some b)
    (Hheader : or_empty (Headers_get (request_headers request)
                           (js "Authorization")) = js "Basic " ++ b) :
  (forall assets_fetch, ASSETS env = Some assets_fetch ->
     pages_fetch request env = Return (assets_fetch request))
  /\ (ASSETS env = None ->
      exists r, pages_fetch request env = Return r
        /\ status r = 500
        /\ body r = BodyText (js "ASSETS binding not found.")
        /\ headers r = [(js "Content-Type", js "text/plain;charset=UTF-8")]).
Proof.
  assert (Hg : pages_gate request env = Return None).
  { rewrite (pages_gate_set request env s b Hsecret Hnonempty Hencoded).
    now rewrite Hheader, streq_refl. }
  unfold pages_fetch. rewrite Hg. cbn [bind]. split.
  - intros f ->. reflexivity.
  - intros ->. eexists. split; [reflexivity|]. repeat split; reflexivity.
Qed.

Lemma pages_fetch_serves_assets_witness :
  pages_fetch (proxied_get (js "/index.html"))
    {| PASSWORD := Some (js "secret");
       ASSETS := Some (fun _ => upstream_ok (js "text/html") (js "<p>")) |}
  = Return (upstream_ok (js "text/html") (js "<p>")).
Proof.
  apply (proj1 (pages_fetch_serves_assets (proxied_get (js "/index.html"))
                  {| PASSWORD := Some (js "secret");
                     ASSETS := Some (fun _ => upstream_ok (js "text/html")
                                                (js "<p>")) |}
                  (js "secret") (js "YWRtaW46c2VjcmV0")
                  eq_refl ltac:(discriminate) eq_refl eq_refl)
           (fun _ => upstream_ok (js "text/html") (js "<p>")) eq_refl).
Defined.

Lemma pages_gate_reads_password (request : Request) (env env' : Env) :
  PASSWORD env = PASSWORD env' ->
  pages_gate request env = pages_gate request env'.
Proof. intros H. unfold pages_gate. now rewrite H. Qed.

(** X5. Unless the credential is valid, the answer of the Pages worker does
    not depend on the ASSETS binding: static assets are never consulted
    for a request that the gate stops. *)
Theorem pages_fetch_guards_assets (request : Request) (env env' : Env)
    (Hsame : PASSWORD env = PASSWORD env')
    (Hstopped : pages_gate request env <> Return None) :
  pages_fetch request env = pages_fetch request env'.
Proof.
  unfold pages_fetch.
  rewrite <- (pages_gate_reads_password request env env' Hsame).
  destruct (pages_gate request env) as [[r|]|e]; cbn [bind];
    [reflexivity | contradiction | reflexivity].
Qed.

Lemma pages_fetch_guards_assets_witness :
  pages_fetch post_request
    {| PASSWORD := Some (js "secret"); ASSETS := None |}
  = pages_fetch post_request
      {| PASSWORD := Some (js "secret");
         ASSETS := Some (fun _ => upstream_ok (js "text/html") (js "<p>")) |}.
Proof.
  apply pages_fetch_guards_assets; [reflexivity | vm_compute; discriminate].
Defined.

(** ** [handleRequest]: the environment, the root path, failures *)

Section Handling.

Variable URL_parse : jsstring -> option URL.
Variable fetch : OutboundRequest -> completion Response.
Variable TextDecoder_decode : list Z -> jsstring.
Variable error_message error_toString : Exn -> jsstring.
Variable getRootHtml : jsstring.

(** [handleRequest], branch by branch. *)
Lemma handleRequest_try_branches (request : Request) (event : FetchEvent) :
  handleRequest_try URL_parse fetch TextDecoder_decode getRootHtml request event
  = (auth <- checkAuth request (event_environment event) ;;
     if negb (ok auth) then
       if match reason auth with
          | Some r => streq r (js "PASSWORD not set")
          | None => false
          end
       then Return password_not_set_response
       else Return auth_required_response
     else if streq (pathname (request_url request)) (js "/")
     then Return (root_page_response getRootHtml)
     else forward URL_parse fetch TextDecoder_decode request).
Proof. reflexivity. Qed.

Lemma handleRequest_try_passed (request : Request) (event : FetchEvent) :
  passes request (event_environment event) ->
  handleRequest_try URL_parse fetch TextDecoder_decode getRootHtml request event
  = if streq (pathname (request_url request)) (js "/")
    then Return (root_page_response getRootHtml)
    else forward URL_parse fetch TextDecoder_decode request.
Proof.
  intros H. apply passes_inv in H as (s & b & _ & _ & _ & _ & H).
  rewrite handleRequest_try_branches, H. reflexivity.
Qed.

(** The environment is [event.env], else [event.context.env]; when the
    event carries neither, every request is answered with the 500
    response for a missing PASSWORD. *)
Lemma handleRequest_environment (request : Request) :
  (forall env other,
     handleRequest URL_parse fetch TextDecoder_decode error_message
       error_toString getRootHtml request
       {| event_env := Some env; event_context_env := other |}
     = handleRequest URL_parse fetch TextDecoder_decode error_message
         error_toString getRootHtml request
         {| event_env := Some env; event_context_env := None |})
  /\ (forall env,
        handleRequest URL_parse fetch TextDecoder_decode error_message
          error_toString getRootHtml request
          {| event_env := None; event_context_env := Some env |}
        = handleRequest URL_parse fetch TextDecoder_decode error_message
            error_toString getRootHtml request
            {| event_env := Some env; event_context_env := None |})
  /\ handleRequest URL_parse fetch TextDecoder_decode error_message
       error_toString getRootHtml request
       {| event_env := None; event_context_env := None |}
     = Return password_not_set_response.
Proof. repeat split. Qed.

End Handling.

(** ** The finisher *)

Ltac eval_name_matches :=
  repeat match goal with
  | |- context [name_matches (js ?a) (js ?b)] =>
      let v := eval vm_compute in (name_matches (js a) (js b)) in
      change (name_matches (js a) (js b)) with v; cbv iota
  end.

Lemma finished_values (h : Headers) :
  Forall (fun e => header_values (setCorsHeaders (setNoCacheHeaders h)) (fst e)
                   = [snd e])
    finisher_headers.
Proof.
  unfold finisher_headers, setCorsHeaders, setNoCacheHeaders.
  repeat constructor; cbn [fst snd];
    repeat (rewrite header_values_set; eval_name_matches); reflexivity.
Qed.

Lemma header_values_case (h : Headers) (n m : jsstring) :
  name_matches n m = true -> header_values h n = header_values h m.
Proof.
  intros H. unfold header_values. f_equal. apply filter_ext. intros e.
  now rewrite (name_matches_sym (fst e) n), (name_matches_sym (fst e) m),
    (name_matches_trans_eq n m (fst e) H).
Qed.

(** Setting a header to the single value it already has changes nothing. *)
Lemma Headers_set_fixed (h : Headers) (n v : jsstring) :
  header_values h n = [v] -> Headers_set h n v = h.
Proof.
  intros Hv.
  assert (Hhas : Headers_has h n = true).
  { unfold Headers_has. apply existsb_exists. unfold header_values in Hv.
    destruct (filter (fun e => name_matches (fst e) n) h) as [|e l] eqn:F;
      [discriminate|].
    assert (He : In e (filter (fun e => name_matches (fst e) n) h))
      by (rewrite F; now left).
    apply filter_In in He. now exists e. }
  unfold Headers_set. rewrite Hhas. clear Hhas.
  induction h as [|[n0 v0] h IH]; [discriminate Hv|].
  cbn [set_first]. rewrite header_values_cons in Hv.
  destruct (name_matches n0 n) eqn:E.
  - injection Hv as -> Hrest. f_equal.
    unfold header_values in Hrest. apply map_eq_nil in Hrest.
    clear -Hrest. induction h as [|e h IH]; [reflexivity|].
    cbn [filter] in *. destruct (name_matches (fst e) n); [discriminate|].
    cbn [negb]. f_equal. now apply IH.
  - f_equal. now apply IH.
Qed.

Lemma finisher_twice (h : Headers) :
  setCorsHeaders (setNoCacheHeaders (setCorsHeaders (setNoCacheHeaders h)))
  = setCorsHeaders (setNoCacheHeaders h).
Proof.
  pose proof (finished_values h) as F.
  remember (setCorsHeaders (setNoCacheHeaders h)) as h' eqn:Eh. clear Eh.
  unfold finisher_headers in F.
  apply Forall_cons_iff in F as [F1 F]. apply Forall_cons_iff in F as [F2 F].
  apply Forall_cons_iff in F as [F3 F]. apply Forall_cons_iff in F as [F4 F].
  apply Forall_cons_iff in F as [F5 F]. apply Forall_cons_iff in F as [F6 _].
  cbn [fst snd] in *.
  unfold setNoCacheHeaders, setCorsHeaders.
  rewrite (Headers_set_fixed _ _ _ F1), (Headers_set_fixed _ _ _ F2),
    (Headers_set_fixed _ _ _ F3), (Headers_set_fixed _ _ _ F4),
    (Headers_set_fixed _ _ _ F5).
  exact (Headers_set_fixed _ _ _ F6).
Qed.

Lemma header_values_finished_other (h : Headers) (m : jsstring) :
  names_exclude (no_cache_names ++ cors_names) m = true ->
  header_values (setCorsHeaders (setNoCacheHeaders h)) m = header_values h m.
Proof.
  rewrite names_exclude_app. unfold no_cache_names, cors_names.
  rewrite !names_exclude_cons.
  intros [(H1 & H2 & H3 & _) (H4 & H5 & H6 & _)].
  unfold setCorsHeaders, setNoCacheHeaders.
  now rewrite !header_values_set, H1, H2, H3, H4, H5, H6.
Qed.

(** X6. The finisher overrides what upstream sent: after
    [setNoCacheHeaders] and [setCorsHeaders] each of the six headers has
    exactly one value, the fixed one, whatever values and spellings of the
    name were there; the values of every other name are kept; and
    finishing twice is finishing once. *)
Theorem finisher_overrides (h : Headers) :
  Forall (fun e => header_values (setCorsHeaders (setNoCacheHeaders h)) (fst e)
                   = [snd e])
    finisher_headers
  /\ (forall m, names_exclude (no_cache_names ++ cors_names) m = true ->
        header_values (setCorsHeaders (setNoCacheHeaders h)) m
        = header_values h m)
  /\ setCorsHeaders (setNoCacheHeaders (setCorsHeaders (setNoCacheHeaders h)))
     = setCorsHeaders (setNoCacheHeaders h).
Proof.
  split; [apply finished_values|]. split; [apply header_values_finished_other|].
  apply finisher_twice.
Qed.

Lemma finisher_overrides_witness :
  header_values
    (setCorsHeaders
       (setNoCacheHeaders
          [(js "cache-control", js "max-age=60"); (js "Vary", js "Accept");
           (js "CACHE-CONTROL", js "public"); (js "vary", js "Origin")]))
    (js "Vary")
  = [js "Accept"; js "Origin"].
Proof.
  apply (proj1 (proj2 (finisher_overrides
           [(js "cache-control", js "max-age=60"); (js "Vary", js "Accept");
            (js "CACHE-CONTROL", js "public"); (js "vary", js "Origin")]))).
  reflexivity.
Defined.

(** ** [handleRequest]: who is served *)

Lemma decode_trailing_percent_bounded (n : nat) : forall s : jsstring,
  (List.length s <= n)%nat -> unescape (s ++ [37]) = None.
Proof.
  induction n as [|n IH]; intros s Hn.
  { destruct s; [reflexivity | cbn in Hn; lia]. }
  destruct s as [|c r]; [reflexivity|]. cbn [app unescape List.length] in *.
  destruct (c =? 37).
  - destruct r as [|h [|l r']]; cbn [app]; [reflexivity | |].
    + now destruct (hex_value h).
    + cbn [List.length] in Hn. rewrite (IH r') by lia.
      now destruct (hex_value h), (hex_value l).
  - now rewrite (IH r) by lia.
Qed.

(** A target that ends with a percent sign cannot be decoded. *)
Lemma decode_trailing_percent (s : jsstring) :
  decodeURIComponent (s ++ [37]) = None.
Proof.
  unfold decodeURIComponent.
  now rewrite (decode_trailing_percent_bounded (List.length s) s (le_n _)).
Qed.

Section Served.

Variable URL_parse : jsstring -> option URL.
Variable fetch : OutboundRequest -> completion Response.
Variable TextDecoder_decode : list Z -> jsstring.
Variable error_message error_toString : Exn -> jsstring.
Variable getRootHtml : jsstring.

(** X7. A request that is not authorized is answered by one of three
    responses built by the worker itself, with status 401 or 500; nothing
    from the landing page or from upstream is returned. *)
Theorem unauthorized_is_stopped (request : Request) (event : FetchEvent)
    (Hstopped : ~ passes request (event_environment event)) :
  exists r,
    handleRequest URL_parse fetch TextDecoder_decode error_message
      error_toString getRootHtml request event = Return r
    /\ (r = password_not_set_response \/ r = auth_required_response
        \/ jsonResponse
             (reported error_message error_toString InvalidCharacterError) 500
           = Return r)
    /\ (status r = 401 \/ status r = 500).
Proof.
  unfold handleRequest.
  rewrite (handleRequest_try_branches URL_parse fetch TextDecoder_decode
             getRootHtml).
  destruct (checkAuth_cases request (event_environment event))
    as [[_ H] | [(s & _ & _ & _ & H) | [(s & b & _ & _ & _ & _ & H)
                                       | (s & b & _ & _ & _ & _ & H)]]];
    rewrite H; cbn [bind negb ok reason try_catch].
  - eexists. split; [reflexivity|]. split; [now left | now right].
  - eexists. split; [reflexivity|].
    split; [right; right; reflexivity | now right].
  - eexists. split; [reflexivity|]. split; [right; now left | now left].
  - exfalso. apply Hstopped. now exists authorized.
Qed.

(** X8. An authorized request for the path "/" is answered with the
    landing page: status 200, the page as body, content type text/html,
    [Cache-Control: no-store] and no CORS header; the query string is not
    looked at. *)
Theorem root_path_serves_landing_page (request : Request) (event : FetchEvent)
    (Hpasses : passes request (event_environment event))
    (Hroot : pathname (request_url request) = js "/") :
  exists r,
    handleRequest URL_parse fetch TextDecoder_decode error_message
      error_toString getRootHtml request event = Return r
    /\ r = root_page_response getRootHtml
    /\ status r = 200
    /\ body r = BodyText getRootHtml
    /\ headers r = [(js "Content-Type", js "text/html; charset=utf-8");
                    (js "Cache-Control", js "no-store")].
Proof.
  unfold handleRequest.
  rewrite (handleRequest_try_passed URL_parse fetch TextDecoder_decode
             getRootHtml request event Hpasses), Hroot.
  eexists. repeat split; reflexivity.
Qed.

(** X9. For an authorized request outside the root path, a target that
    cannot be percent-decoded (for instance one ending with "%"), or whose
    resolved string the URL parser rejects, gives the 500 JSON response
    with the text of the exception; the transport is not used. *)
Theorem unusable_target_is_reported (request : Request) (event : FetchEvent)
    (Hpasses : passes request (event_environment event))
    (Hpath : pathname (request_url request) <> js "/") :
  (decodeURIComponent (strip_leading_slash (pathname (request_url request)))
   = None ->
   handleRequest URL_parse fetch TextDecoder_decode error_message
     error_toString getRootHtml request event
   = jsonResponse (reported error_message error_toString URIError) 500)
  /\ (forall p, pathname (request_url request) = js "/" ++ p ++ js "%" ->
      handleRequest URL_parse fetch TextDecoder_decode error_message
        error_toString getRootHtml request event
      = jsonResponse (reported error_message error_toString URIError) 500)
  /\ (forall target,
        resolveTarget (request_url request) = Return target ->
        URL_parse target = None ->
        handleRequest URL_parse fetch TextDecoder_decode error_message
          error_toString getRootHtml request event
        = jsonResponse
            (reported error_message error_toString TypeError_InvalidURL) 500).
Proof.
  apply streq_false in Hpath.
  assert (Hd : decodeURIComponent
                 (strip_leading_slash (pathname (request_url request))) = None ->
               handleRequest URL_parse fetch TextDecoder_decode error_message
                 error_toString getRootHtml request event
               = jsonResponse (reported error_message error_toString URIError)
                   500).
  { intros H. unfold handleRequest.
    rewrite (handleRequest_try_passed URL_parse fetch TextDecoder_decode
               getRootHtml request event Hpasses), Hpath.
    unfold forward, resolveTarget. now rewrite H. }
  split; [exact Hd|]. split.
  - intros p Hp. apply Hd. rewrite Hp. cbn [js app strip_leading_slash].
    change (js "/" ++ p ++ js "%") with (47 :: p ++ [37]).
    cbn [strip_leading_slash]. rewrite Z.eqb_refl.
    apply decode_trailing_percent.
  - intros target Ht Hu. unfold handleRequest.
    rewrite (handleRequest_try_passed URL_parse fetch TextDecoder_decode
               getRootHtml request event Hpasses), Hpath.
    unfold forward, outbound_request, Request_new. rewrite Ht. cbn [bind].
    now rewrite Hu.
Qed.

(** X10. When the transport fails, the answer is the 500 JSON response
    whose text is the message of the exception, or its string form when the
    message is empty. *)
Theorem transport_failure_is_reported (request : Request) (event : FetchEvent)
    (target : jsstring) (q : OutboundRequest) (e : Exn)
    (Hpasses : passes request (event_environment event))
    (Hpath : pathname (request_url request) <> js "/")
    (Htarget : resolveTarget (request_url request) = Return target)
    (Hrequest : outbound_request URL_parse request target = Return q)
    (Hfetch : fetch q = Throw e) :
  handleRequest URL_parse fetch TextDecoder_decode error_message
    error_toString getRootHtml request event
  = jsonResponse
      (match error_message e with
       | [] => error_toString e
       | _ :: _ => error_message e
       end) 500.
Proof.
  apply streq_false in Hpath. unfold handleRequest.
  rewrite (handleRequest_try_passed URL_parse fetch TextDecoder_decode
             getRootHtml request event Hpasses), Hpath.
  unfold forward. rewrite Htarget. cbn [bind]. rewrite Hrequest. cbn [bind].
  rewrite Hfetch. cbn [bind try_catch]. now destruct (error_message e).
Qed.

End Served.

Lemma unauthorized_is_stopped_witness :
  exists r,
    example_worker unreachable post_request secret_env = Return r
    /\ (r = password_not_set_response \/ r = auth_required_response
        \/ jsonResponse
             (reported example_message example_message InvalidCharacterError)
             500
           = Return r)
    /\ (status r = 401 \/ status r = 500).
Proof.
  apply (unauthorized_is_stopped URL_parse_plain (fun _ => unreachable)
           (fun bytes => bytes) example_message example_message
           (js "<!DOCTYPE html>") post_request secret_event).
  intros (a & Ha & Hok). vm_compute in Ha. injection Ha as <-.
  discriminate Hok.
Defined.

Lemma root_path_serves_landing_page_witness :
  exists r,
    example_worker unreachable (proxied_get (js "/")) secret_env = Return r
    /\ r = root_page_response (js "<!DOCTYPE html>")
    /\ status r = 200
    /\ body r = BodyText (js "<!DOCTYPE html>")
    /\ headers r = [(js "Content-Type", js "text/html; charset=utf-8");
                    (js "Cache-Control", js "no-store")].
Proof.
  apply (root_path_serves_landing_page URL_parse_plain (fun _ => unreachable)
           (fun bytes => bytes) example_message example_message
           (js "<!DOCTYPE html>") (proxied_get (js "/")) secret_event).
  - exists authorized. split; reflexivity.
  - reflexivity.
Defined.

Lemma unusable_target_is_reported_witness :
  example_worker unreachable (proxied_get (js "/example.com/100%")) secret_env
  = jsonResponse (js "URI malformed") 500.
Proof.
  apply (proj1 (proj2 (unusable_target_is_reported URL_parse_plain
                         (fun _ => unreachable) (fun bytes => bytes)
                         example_message example_message (js "<!DOCTYPE html>")
                         (proxied_get (js "/example.com/100%")) secret_event
                         (ex_intro _ authorized (conj eq_refl eq_refl))
                         ltac:(vm_compute; discriminate)))
           (js "example.com/100")).
  reflexivity.
Defined.

Lemma transport_failure_is_reported_witness :
  example_worker (Throw (FetchError []))
    (proxied_get (js "/example.com/a")) secret_env
  = jsonResponse [] 500.
Proof.
  eapply (transport_failure_is_reported URL_parse_plain
            (fun _ => Throw (FetchError [])) (fun bytes => bytes)
            example_message example_message (js "<!DOCTYPE html>")
            (proxied_get (js "/example.com/a")) secret_event
            (js "https://example.com/a") _ (FetchError [])
            (ex_intro _ authorized (conj eq_refl eq_refl))
            ltac:(vm_compute; discriminate)); reflexivity.
Defined.

(** ** [handleRequest]: what is delivered *)

Lemma Headers_has_get (h : Headers) (n : jsstring) :
  Headers_has h n = true <-> Headers_get h n <> None.
Proof.
  unfold Headers_has, Headers_get, header_values. rewrite existsb_exists. split.
  - intros (e & He & Hm).
    assert (Hin : In e (filter (fun e => name_matches (fst e) n) h))
      by (apply filter_In; auto).
    destruct (filter _ h); [contradiction | discriminate].
  - intros H.
    destruct (filter (fun e => name_matches (fst e) n) h) as [|e l] eqn:F;
      [now contradiction H|].
    assert (Hin : In e (filter (fun e => name_matches (fst e) n) h))
      by (rewrite F; now left).
    apply filter_In in Hin. now exists e.
Qed.

Lemma includes_nonempty (s t : jsstring) :
  includes s t = true -> t <> [] -> s <> [].
Proof. intros H Ht ->. destruct t; [contradiction | discriminate H]. Qed.

Section Delivered.

Variable URL_parse : jsstring -> option URL.
Variable TextDecoder_decode : list Z -> jsstring.

(** The finished copy of an upstream response around the body [b]. *)
Lemma finished_copy (b : BodyInit) (response : Response) :
  Headers_get (headers response) (js "Content-Type") <> None
  \/ (exists b', b = FromBody b') ->
  let r := with_headers
             (with_headers
                (Response_of b (status response) (statusText response)
                   (Headers_entries (Headers_copy (headers response))))
                setNoCacheHeaders)
             setCorsHeaders in
  status r = status response
  /\ statusText r = statusText response
  /\ body r = match b with FromString t => BodyText t | FromBody b' => b' end
  /\ (forall m, names_exclude (no_cache_names ++ cors_names) m = true ->
      Headers_get (headers r) m = Headers_get (headers response) m)
  /\ finished r.
Proof.
  intros Hb. cbv zeta.
  assert (Hh : headers
                 (Response_of b (status response) (statusText response)
                    (Headers_entries (Headers_copy (headers response))))
               = Headers_new (Headers_entries (Headers_copy (headers response)))).
  { destruct b as [t|b']; [|reflexivity]. unfold Response_of. cbn [headers].
    destruct Hb as [Hb | (b' & Hb)]; [|discriminate Hb].
    replace (Headers_has _ (js "Content-Type")) with true; [reflexivity|].
    symmetry. apply Headers_has_get.
    now rewrite Headers_get_new, Headers_get_entries, Headers_get_copy. }
  unfold with_headers. cbn [status statusText body headers]. rewrite Hh.
  split; [now destruct b|]. split; [now destruct b|]. split; [now destruct b|].
  split.
  - intros m Hm. rewrite (get_finished_other _ m Hm).
    now rewrite Headers_get_new, Headers_get_entries, Headers_get_copy.
  - apply finished_values.
Qed.

(** X11. A response whose status is not 301, 302, 303, 307 or 308 and
    whose Content-Type does not contain "text/html" is passed on when the
    constructor of responses accepts its status, status text and body
    (a status from 200 to 599, and no body with 204, 205 or 304): with its
    status, status text and body, the six finisher headers, and the value
    of every other header, Location included.  Otherwise the exception of
    the constructor is raised, a [RangeError] for a status outside 200 to
    599, which [handleRequest] turns into the 500 JSON response. *)
Theorem deliver_passes_through (url : URL) (actualUrlStr : jsstring)
    (response : Response)
    (Hstatus : is_redirect_status (status response) = false)
    (Htype : includes (or_empty (Headers_get (headers response)
                                   (js "Content-Type")))
               (js "text/html") = false) :
  (Response_init_error (FromBody (body response)) (status response)
     (statusText response) = None ->
   exists r,
     deliver URL_parse TextDecoder_decode url actualUrlStr response = Return r
     /\ status r = status response
     /\ statusText r = statusText response
     /\ body r = body response
     /\ (forall m, names_exclude (no_cache_names ++ cors_names) m = true ->
         Headers_get (headers r) m = Headers_get (headers response) m)
     /\ Headers_get (headers r) (js "Location")
        = Headers_get (headers response) (js "Location")
     /\ finished r)
  /\ (forall e,
        Response_init_error (FromBody (body response)) (status response)
          (statusText response) = Some e ->
        deliver URL_parse TextDecoder_decode url actualUrlStr response
        = Throw e)
  /\ (status response < 200 \/ 599 < status response ->
      deliver URL_parse TextDecoder_decode url actualUrlStr response
      = Throw RangeError_Status)
  /\ (Response_init_error (FromBody (body response)) (status response)
        (statusText response) = None
      <-> 200 <= status response <= 599
          /\ forallb is_reason_phrase_unit (statusText response) = true
          /\ (body response = BodyNull
              \/ (status response <> 204 /\ status response <> 205
                  /\ status response <> 304))).
Proof.
  assert (Hd : deliver URL_parse TextDecoder_decode url actualUrlStr response
               = (r <- Response_new (FromBody (body response)) (status response)
                         (statusText response)
                         (Headers_entries (Headers_copy (headers response))) ;;
                  Return (with_headers (with_headers r setNoCacheHeaders)
                            setCorsHeaders))).
  { unfold deliver. now rewrite Hstatus, Htype. }
  rewrite Hd. split; [|split; [|split]].
  - intros Ha. rewrite (Response_new_accepted _ _ _ _ Ha). cbn [bind]. eexists.
    split; [reflexivity|].
    destruct (finished_copy (FromBody (body response)) response)
      as (H1 & H2 & H3 & H4 & H5); [right; now eexists|].
    repeat split; try assumption. now apply H4.
  - intros e He. now rewrite (Response_new_rejected _ _ _ _ _ He).
  - intros Hout. rewrite (Response_new_rejected _ _ _ _ RangeError_Status);
      [reflexivity|].
    unfold Response_init_error.
    replace ((200 <=? status response) && (status response <=? 599)) with false;
      [reflexivity|].
    symmetry. apply andb_false_iff.
    destruct Hout; [left; apply Z.leb_gt | right; apply Z.leb_gt]; lia.
  - rewrite Response_init_error_none. cbn [is_null_body].
    destruct (body response); split; intros (H1 & H2 & H3);
      (split; [exact H1|]); (split; [exact H2|]);
      try (now left); destruct H3 as [H3 | H3]; try discriminate H3;
      now right.
Qed.

(** X12. A response that is not such a redirect and whose Content-Type
    contains "text/html" is delivered, when the constructor of responses
    accepts its status and status text with a text body (a status from 200
    to 599 other than 204, 205 and 304), with its status, status text and
    headers (finisher headers apart), and with the body text rewritten by
    [replaceRelativePaths] for the scheme and host of the request URL and
    the origin of the target URL.  Otherwise the exception of the
    constructor is raised, which [handleRequest] turns into the 500 JSON
    response. *)
Theorem deliver_rewrites_html (url : URL) (actualUrlStr : jsstring)
    (response : Response) (u : URL)
    (Hstatus : is_redirect_status (status response) = false)
    (Htype : includes (or_empty (Headers_get (headers response)
                                   (js "Content-Type")))
               (js "text/html") = true)
    (Htarget : URL_parse actualUrlStr = Some u) :
  let text :=
    replaceRelativePaths (Response_text TextDecoder_decode response)
      (protocol url) (host url) (origin u) in
  (Response_init_error (FromString text) (status response)
     (statusText response) = None ->
   exists r,
     deliver URL_parse TextDecoder_decode url actualUrlStr response = Return r
     /\ status r = status response
     /\ statusText r = statusText response
     /\ body r = BodyText text
     /\ (forall m, names_exclude (no_cache_names ++ cors_names) m = true ->
         Headers_get (headers r) m = Headers_get (headers response) m)
     /\ finished r)
  /\ (forall e,
        Response_init_error (FromString text) (status response)
          (statusText response) = Some e ->
        deliver URL_parse TextDecoder_decode url actualUrlStr response
        = Throw e)
  /\ (Response_init_error (FromString text) (status response)
        (statusText response) = None
      <-> 200 <= status response <= 599
          /\ forallb is_reason_phrase_unit (statusText response) = true
          /\ status response <> 204 /\ status response <> 205
          /\ status response <> 304).
Proof.
  cbv zeta.
  set (text := replaceRelativePaths (Response_text TextDecoder_decode response)
                 (protocol url) (host url) (origin u)).
  assert (Hd : deliver URL_parse TextDecoder_decode url actualUrlStr response
               = (r <- Response_new (FromString text) (status response)
                         (statusText response)
                         (Headers_entries (Headers_copy (headers response))) ;;
                  Return (with_headers (with_headers r setNoCacheHeaders)
                            setCorsHeaders))).
  { unfold deliver. rewrite Hstatus, Htype. unfold handleHtmlContent.
    rewrite Htarget. reflexivity. }
  rewrite Hd. split; [|split].
  - intros Ha. rewrite (Response_new_accepted _ _ _ _ Ha). cbn [bind]. eexists.
    split; [reflexivity|].
    apply (finished_copy (FromString text) response). left.
    apply includes_nonempty in Htype; [|discriminate].
    destruct (Headers_get (headers response) (js "Content-Type"));
      [discriminate | now contradiction Htype].
  - intros e He. now rewrite (Response_new_rejected _ _ _ _ _ He).
  - rewrite Response_init_error_none. cbn [is_null_body].
    split; intros (H1 & H2 & H3).
    + destruct H3 as [H3 | H3]; [discriminate H3 | tauto].
    + split; [exact H1|]. split; [tauto|]. right. tauto.
Qed.

(** A response with status 301, 302, 303, 307 or 308 is handled by
    [handleRedirect] alone: its body is passed on, also when its
    Content-Type is text/html. *)
Lemma deliver_redirects (url : URL) (actualUrlStr : jsstring)
    (response : Response)
    (Hstatus : In (status response) [301; 302; 303; 307; 308]) :
  deliver URL_parse TextDecoder_decode url actualUrlStr response
  = handleRedirect URL_parse response
  /\ forall r,
       deliver URL_parse TextDecoder_decode url actualUrlStr response = Return r ->
       body r = body response /\ status r = status response /\ finished r.
Proof.
  assert (H : is_redirect_status (status response) = true).
  { unfold is_redirect_status. apply existsb_exists.
    exists (status response). split; [assumption | apply Z.eqb_refl]. }
  unfold deliver. rewrite H. split; [reflexivity|].
  intros r Hr. apply handleRedirect_shape in Hr as [-> | (v & ->)];
    (split; [reflexivity|]; split; [reflexivity|]; apply finished_values).
Qed.

End Delivered.

Lemma deliver_passes_through_witness :
  exists r,
    deliver URL_parse_plain (fun bytes => bytes) example_url
      (js "https://example.com/a")
      {| status := 201; statusText := js "Created";
         headers := [(js "Location", js "/items/7"); (js "X-Id", js "7")];
         body := BodyStream (js "ok") |} = Return r
    /\ status r = 201
    /\ statusText r = js "Created"
    /\ body r = BodyStream (js "ok")
    /\ (forall m, names_exclude (no_cache_names ++ cors_names) m = true ->
        Headers_get (headers r) m
        = Headers_get [(js "Location", js "/items/7"); (js "X-Id", js "7")] m)
    /\ Headers_get (headers r) (js "Location") = Some (js "/items/7")
    /\ finished r.
Proof.
  apply (deliver_passes_through URL_parse_plain (fun bytes => bytes) example_url
           (js "https://example.com/a")
           {| status := 201; statusText := js "Created";
              headers := [(js "Location", js "/items/7"); (js "X-Id", js "7")];
              body := BodyStream (js "ok") |}); reflexivity.
Defined.

Lemma deliver_rewrites_html_witness :
  exists r,
    deliver URL_parse_plain (fun bytes => bytes) example_url
      (js "https://example.com/page")
      (upstream_ok (js "text/html") root_relative_anchor) = Return r
    /\ status r = 200
    /\ statusText r = js "OK"
    /\ body r = BodyText
                  (replaceRelativePaths root_relative_anchor (js "https:")
                     (js "proxy.example") (js "https://example.com"))
    /\ (forall m, names_exclude (no_cache_names ++ cors_names) m = true ->
        Headers_get (headers r) m
        = Headers_get (headers (upstream_ok (js "text/html")
                                  root_relative_anchor)) m)
    /\ finished r.
Proof.
  apply (deliver_rewrites_html URL_parse_plain (fun bytes => bytes) example_url
           (js "https://example.com/page")
           (upstream_ok (js "text/html") root_relative_anchor)
           {| href := js "https://example.com/page";
              protocol := js "https:";
              host := js "example.com";
              pathname := js "/page";
              search := [];
              origin := js "https://example.com" |}); reflexivity.
Defined.

(** ** [handleRequest]: every response *)

Section Classified.

Variable URL_parse : jsstring -> option URL.
Variable fetch : OutboundRequest -> completion Response.
Variable TextDecoder_decode : list Z -> jsstring.
Variable error_message error_toString : Exn -> jsstring.
Variable getRootHtml : jsstring.

Lemma deliver_finished (url : URL) (actualUrlStr : jsstring)
    (response r : Response) :
  deliver URL_parse TextDecoder_decode url actualUrlStr response = Return r ->
  finished r.
Proof.
  unfold deliver. destruct (is_redirect_status (status response)).
  - intros Hr. apply handleRedirect_shape in Hr as [-> | (v & ->)];
      apply finished_values.
  - destruct (includes _ _).
    + destruct (handleHtmlContent _ _ _ _ _ _) as [t|e]; cbn [bind];
        [|discriminate].
      destruct (Response_new _ _ _ _) as [r'|e]; cbn [bind]; [|discriminate].
      intros [= <-]. apply finished_values.
    + cbn [bind].
      destruct (Response_new _ _ _ _) as [r'|e]; cbn [bind]; [|discriminate].
      intros [= <-]. apply finished_values.
Qed.

Lemma handleRequest_kinds (request : Request) (event : FetchEvent) :
  exists r,
    handleRequest URL_parse fetch TextDecoder_decode error_message
      error_toString getRootHtml request event = Return r
    /\ (r = password_not_set_response
        \/ r = auth_required_response
        \/ r = root_page_response getRootHtml
        \/ (exists e,
              jsonResponse (reported error_message error_toString e) 500
              = Return r)
        \/ finished r).
Proof.
  unfold handleRequest.
  destruct (handleRequest_try _ _ _ _ _ _) as [r|e] eqn:Hr; cbn [try_catch];
    [|eexists; split; [reflexivity|];
      right; right; right; left; now exists e].
  exists r. split; [reflexivity|].
  rewrite handleRequest_try_branches in Hr.
  destruct (checkAuth _ _) as [auth|e]; cbn [bind] in Hr; [|discriminate].
  destruct (negb (ok auth)).
  { destruct (match reason auth with Some _ => _ | None => _ end);
      injection Hr as <-; auto. }
  destruct (streq _ _); [injection Hr as <-; auto|].
  unfold forward in Hr.
  destruct (resolveTarget _) as [target|e]; cbn [bind] in Hr; [|discriminate].
  destruct (outbound_request _ _ _) as [q|e]; cbn [bind] in Hr; [|discriminate].
  destruct (fetch q) as [response|e]; cbn [bind] in Hr; [|discriminate].
  right; right; right; right. eapply deliver_finished. exact Hr.
Qed.

(** X13. [handleRequest] always returns a response, and every response is
    one of five kinds: the 500 for a missing PASSWORD, the 401, the landing
    page, a 500 JSON error response, or a response that carries the six
    finisher headers with their fixed single values.  Hence every response
    other than the first two carries [Cache-Control: no-store], and a
    response with an [Access-Control-Allow-Origin] header carries all
    six. *)
Theorem handleRequest_responses (request : Request) (event : FetchEvent) :
  exists r,
    handleRequest URL_parse fetch TextDecoder_decode error_message
      error_toString getRootHtml request event = Return r
    /\ (r = password_not_set_response
        \/ r = auth_required_response
        \/ r = root_page_response getRootHtml
        \/ (exists e,
              jsonResponse (reported error_message error_toString e) 500
              = Return r)
        \/ finished r)
    /\ (r = password_not_set_response \/ r = auth_required_response
        \/ Headers_get (headers r) (js "Cache-Control") = Some (js "no-store"))
    /\ (Headers_get (headers r) (js "Access-Control-Allow-Origin") <> None ->
        finished r).
Proof.
  destruct (handleRequest_kinds request event) as (r & Hr & K).
  exists r. split; [exact Hr|]. split; [exact K|].
  destruct K as [-> | [-> | [-> | [(e & He) | F]]]].
  - split; [now left | intros H; now contradiction H].
  - split; [right; now left | intros H; now contradiction H].
  - split; [right; right; reflexivity | intros H; now contradiction H].
  - injection He as <-.
    split; [right; right; reflexivity | intros H; now contradiction H].
  - split; [|intros _; exact F]. right; right.
    unfold finished, finisher_headers in F. apply Forall_inv in F.
    cbn [fst snd] in F. unfold Headers_get. now rewrite F.
Qed.

End Classified.

(** ** [handleRequest]: what is sent upstream *)

(** X14. The only request handed to the transport is the one built for the
    resolved target: its URL is the parsed target, its method the inbound
    one (GET when that is empty), and for every header name it carries the
    inbound value, or none when the lowercased name starts with "cf-"; in
    particular the Authorization header with the proxy credential goes
    upstream. *)
Theorem upstream_request (URL_parse : jsstring -> option URL)
    (request : Request) :
  (forall target q,
     outbound_request URL_parse request target = Return q ->
     URL_parse target = Some (out_url q)
     /\ out_method q = or_default (Some (request_method request)) (js "GET")
     /\ (forall m, Headers_get (out_headers q) m
                   = if startsWith (toLowerCase m) (js "cf-") then None
                     else Headers_get (request_headers request) m)
     /\ Headers_get (out_headers q) (js "Authorization")
        = Headers_get (request_headers request) (js "Authorization"))
  /\ (forall (fetch1 fetch2 : OutboundRequest -> completion Response)
             (decode : list Z -> jsstring) (message text : Exn -> jsstring)
             (html : jsstring) (event : FetchEvent),
        (forall target q,
           resolveTarget (request_url request) = Return target ->
           outbound_request URL_parse request target = Return q ->
           fetch1 q = fetch2 q) ->
        handleRequest URL_parse fetch1 decode message text html request event
        = handleRequest URL_parse fetch2 decode message text html request event).
Proof.
  split.
  - intros target q Hq. unfold outbound_request, Request_new in Hq.
    destruct (URL_parse target) as [u|]; cbn [of_option bind] in Hq;
      [|discriminate].
    injection Hq as <-. cbn [out_url out_method out_headers].
    assert (Hh : forall m,
              Headers_get
                (Headers_copy
                   (init_headers
                      (outbound_init request
                         (filterHeaders (request_headers request) not_cf)))) m
              = if startsWith (toLowerCase m) (js "cf-") then None
                else Headers_get (request_headers request) m).
    { intros m. rewrite Headers_get_copy.
      replace (init_headers (outbound_init request
                 (filterHeaders (request_headers request) not_cf)))
        with (filterHeaders (request_headers request) not_cf)
        by (unfold outbound_init; now destruct (_ && _)).
      rewrite Headers_get_filterHeaders, not_cf_spec, toLowerCase_idem.
      now destruct (startsWith _ _). }
    split; [reflexivity|].
    split; [unfold outbound_init; now destruct (_ && _)|].
    split; [exact Hh|]. apply Hh.
  - intros fetch1 fetch2 decode message text html event Hsame.
    unfold handleRequest. rewrite !handleRequest_try_branches.
    destruct (checkAuth _ _) as [auth|e]; cbn [bind]; [|reflexivity].
    destruct (negb (ok auth)); [reflexivity|].
    destruct (streq _ _); [reflexivity|]. unfold forward.
    destruct (resolveTarget _) as [target|e] eqn:Ht; cbn [bind]; [|reflexivity].
    destruct (outbound_request _ _ _) as [q|e] eqn:Hq; cbn [bind];
      [|reflexivity].
    now rewrite (Hsame target q eq_refl Hq).
Qed.

Lemma upstream_request_witness :
  Headers_get
    (Headers_copy (filterHeaders (request_headers (proxied_get (js "/a"))) not_cf))
    (js "Authorization")
  = Some (js "Basic YWRtaW46c2VjcmV0").
Proof.
  pose proof (proj1 (upstream_request URL_parse_plain (proxied_get (js "/a")))
                (js "https://example.com/a")
                {| out_url := {| href := js "https://example.com/a";
                                 protocol := js "https:";
                                 host := js "example.com";
                                 pathname := js "/a";
                                 search := [];
                                 origin := js "https://example.com" |};
                   out_method := js "GET";
                   out_headers :=
                     Headers_copy
                       (filterHeaders (request_headers (proxied_get (js "/a")))
                          not_cf);
                   out_redirect := js "manual";
                   out_body := BodyNull |} eq_refl) as (_ & _ & _ & H).
  exact H.
Defined.

(** ** Percent-encoding: alphabet and plain strings *)

Lemma hex_digit_safe (n : Z) : 0 <= n < 16 -> is_uri_safe (hex_digit n) = true.
Proof.
  intros H. unfold is_uri_safe, is_unreserved, is_alnum, hex_digit, in_range.
  destruct (Z.ltb_spec n 10); decide_tests; reflexivity.
Qed.

Lemma pct_encode_safe (cp : Z) :
  0 <= cp <= 1114111 -> forallb is_uri_safe (pct_encode cp) = true.
Proof.
  intros H. pose proof (utf8_octets cp H) as Hb. unfold pct_encode.
  induction Hb as [|b bs Hb _ IH]; [reflexivity|].
  cbn [flat_map pct app forallb].
  rewrite !hex_digit_safe by dlia. now rewrite IH.
Qed.

Lemma encode_safe_bounded (n : nat) : forall s e : jsstring,
  (List.length s <= n)%nat -> encodeURIComponent s = Some e ->
  forallb is_uri_safe e = true.
Proof.
  induction n as [|n IH]; intros s e Hn He.
  { destruct s; [|cbn in Hn; lia]. now injection He as <-. }
  destruct s as [|c r]; [now injection He as <-|].
  cbn [encodeURIComponent] in He. cbn [List.length] in Hn.
  destruct (is_unreserved c) eqn:Hu.
  { destruct (encodeURIComponent r) as [e'|] eqn:Hr; [|discriminate].
    injection He as <-. cbn [forallb]. unfold is_uri_safe at 1. rewrite Hu.
    apply (IH r e'); [lia | exact Hr]. }
  destruct (is_high_surrogate c) eqn:Hh.
  { destruct r as [|d r']; [discriminate|].
    destruct (is_low_surrogate d) eqn:Hl; [|discriminate].
    destruct (encodeURIComponent r') as [e'|] eqn:Hr; [|discriminate].
    injection He as <-. cbn [List.length] in Hn.
    destruct (utf16_pair c d Hh Hl) as [_ [Hsc _]].
    rewrite forallb_app, (pct_encode_safe _ Hsc).
    apply (IH r' e'); [lia | exact Hr]. }
  destruct (is_low_surrogate c); [discriminate|].
  destruct (in_range 0 65535 c) eqn:Hc; [|discriminate].
  destruct (encodeURIComponent r) as [e'|] eqn:Hr; [|discriminate].
  injection He as <-. apply in_range_spec in Hc.
  rewrite forallb_app, pct_encode_safe by lia.
  apply (IH r e'); [lia | exact Hr].
Qed.

(** The output of [encodeURIComponent] is made of unreserved code units
    and percent escapes; it holds no "/", "?" or "#". *)
Lemma encode_safe (s e : jsstring) :
  encodeURIComponent s = Some e ->
  forallb is_uri_safe e = true
  /\ ~ In 47 e /\ ~ In 63 e /\ ~ In 35 e.
Proof.
  intros He.
  pose proof (encode_safe_bounded (List.length s) s e (le_n _) He) as Hs.
  split; [exact Hs|]. rewrite forallb_forall in Hs.
  repeat split; intros Hin; apply Hs in Hin; discriminate Hin.
Qed.

Lemma encode_nonempty (s e : jsstring) :
  encodeURIComponent s = Some e -> s <> [] -> e <> [].
Proof.
  destruct s as [|c r]; [contradiction|]. intros He _ ->.
  cbn [encodeURIComponent] in He.
  assert (Hp : forall cp rest, pct_encode cp ++ rest <> []).
  { intros cp rest. unfold pct_encode, utf8.
    destruct (cp <? 128); [discriminate|].
    destruct (cp <? 2048); [discriminate|].
    destruct (cp <? 65536); discriminate. }
  destruct (is_unreserved c).
  { destruct (encodeURIComponent r); discriminate. }
  destruct (is_high_surrogate c).
  { destruct r as [|d r']; [discriminate|].
    destruct (is_low_surrogate d); [|discriminate].
    destruct (encodeURIComponent r'); [|discriminate].
    injection He as He. now apply Hp in He. }
  destruct (is_low_surrogate c); [discriminate|].
  destruct (in_range 0 65535 c); [|discriminate].
  destruct (encodeURIComponent r); [|discriminate].
  injection He as He. now apply Hp in He.
Qed.

(** A string without a percent sign decodes to itself. *)
Lemma decode_plain (s : jsstring) :
  ~ In 37 s -> decodeURIComponent s = Some s.
Proof.
  intros H. unfold decodeURIComponent.
  assert (Hu : unescape s = Some (map Unit s)).
  { induction s as [|c r IH]; [reflexivity|]. cbn [unescape map].
    destruct (Z.eqb_spec c 37) as [->|_]; [exfalso; apply H; now left|].
    rewrite IH; [reflexivity|]. intros Hin. apply H. now right. }
  rewrite Hu. clear. induction s as [|c r IH]; [reflexivity|].
  cbn [map decode_tokens]. now rewrite IH.
Qed.

(** ** The rewritten Location and the proxy's own path syntax *)

Section Redirected.

Variable URL_parse : jsstring -> option URL.

(** What [handleRedirect] encodes into the new Location: the
    serialization of the parsed value, or the value itself when it cannot
    be parsed (or its serialization cannot be encoded). *)
Lemma redirect_location_cases (response r : Response) (loc : jsstring) :
  Headers_get (headers response) (js "Location") = Some loc -> loc <> [] ->
  handleRedirect URL_parse response = Return r ->
  exists x e,
    (x = loc \/ exists u, URL_parse loc = Some u /\ x = href u)
    /\ (URL_parse loc = None -> x = loc)
    /\ encodeURIComponent x = Some e
    /\ r = redirect_response response
             (Headers_set (Headers_copy (headers response)) (js "Location")
                (js "/" ++ e)).
Proof.
  intros Hloc Hne. rewrite (handleRedirect_with_location URL_parse response loc Hloc Hne).
  destruct (URL_parse loc) as [u|] eqn:Hu; cbn [of_option bind try_catch].
  - destruct (encodeURIComponent (href u)) as [e|] eqn:He;
      cbn [of_option bind try_catch].
    + destruct (Response_init_error _ _ _); [discriminate|].
      intros [= <-]. exists (href u), e. repeat split; try discriminate; auto.
      right. now exists u.
    + destruct (encodeURIComponent loc) as [e|] eqn:He';
        cbn [of_option bind try_catch]; [|discriminate].
      destruct (Response_init_error _ _ _); [discriminate|].
      intros [= <-]. exists loc, e. repeat split; auto.
  - destruct (encodeURIComponent loc) as [e|] eqn:He';
      cbn [of_option bind try_catch]; [|discriminate].
    destruct (Response_init_error _ _ _); [discriminate|].
      intros [= <-]. exists loc, e. repeat split; auto.
Qed.

Lemma redirect_response_location (response : Response) (hs : Headers)
    (v : jsstring) :
  Headers_get
    (headers (redirect_response response (Headers_set hs (js "Location") v)))
    (js "Location") = Some v.
Proof.
  destruct (redirect_response_frame response (Headers_set hs (js "Location") v))
    as (_ & _ & _ & Hf & _).
  rewrite Hf by reflexivity. now apply Headers_get_set_same.
Qed.

(** X15. The Location that [handleRedirect] writes is a single path
    segment under the root of the proxy: a slash followed by unreserved
    characters and percent escapes only, so with no further slash, no
    query and no fragment, whatever the upstream Location was. *)
Theorem redirect_location_is_one_segment (response r : Response)
    (loc : jsstring)
    (Hloc : Headers_get (headers response) (js "Location") = Some loc)
    (Hne : loc <> [])
    (Hr : handleRedirect URL_parse response = Return r) :
  exists e,
    Headers_get (headers r) (js "Location") = Some (js "/" ++ e)
    /\ forallb is_uri_safe e = true
    /\ ~ In 47 e /\ ~ In 63 e /\ ~ In 35 e.
Proof.
  destruct (redirect_location_cases response r loc Hloc Hne Hr)
    as (x & e & _ & _ & He & ->).
  exists e. split; [apply redirect_response_location|].
  exact (encode_safe x e He).
Qed.

(** X16. Redirects stay inside the proxy: when the path of a later request
    is the Location that [handleRedirect] wrote, [handleRequest]'s target
    resolution gives back what was encoded (the serialization of the
    upstream Location, or the Location itself when it does not parse),
    completed by [ensureProtocol] and followed by the query of the later
    request.  An upstream Location that is not an absolute URL is thus
    resolved against the scheme of the proxy alone, not against the
    upstream origin. *)
Theorem redirect_round_trip (response r : Response) (loc : jsstring)
    (Hloc : Headers_get (headers response) (js "Location") = Some loc)
    (Hne : loc <> [])
    (Hr : handleRedirect URL_parse response = Return r) :
  exists x l,
    Headers_get (headers r) (js "Location") = Some l
    /\ (x = loc \/ exists u, URL_parse loc = Some u /\ x = href u)
    /\ (URL_parse loc = None -> x = loc)
    /\ forall url, pathname url = l ->
         resolveTarget url
         = Return (ensureProtocol x (protocol url) ++ search url).
Proof.
  destruct (redirect_location_cases response r loc Hloc Hne Hr)
    as (x & e & Hx & Hn & He & ->).
  exists x, (js "/" ++ e).
  split; [apply redirect_response_location|]. repeat split; auto.
  intros url Hp. apply resolveTarget_decoded. rewrite Hp.
  change (strip_leading_slash (js "/" ++ e)) with e.
  exact (decode_encode x e He).
Qed.

End Redirected.

Lemma redirect_location_is_one_segment_witness :
  exists e,
    Headers_get
      (headers
         (redirect_response (redirect_to (js "https://example.com/a?b#c"))
            (Headers_set
               (Headers_copy (headers (redirect_to (js "https://example.com/a?b#c"))))
               (js "Location") (js "/https%3A%2F%2Fexample.com%2Fa%3Fb%23c"))))
      (js "Location") = Some (js "/" ++ e)
    /\ forallb is_uri_safe e = true
    /\ ~ In 47 e /\ ~ In 63 e /\ ~ In 35 e.
Proof.
  apply (redirect_location_is_one_segment URL_parse_plain
           (redirect_to (js "https://example.com/a?b#c")) _
           (js "https://example.com/a?b#c"));
    [reflexivity | discriminate | vm_compute; reflexivity].
Defined.

Lemma redirect_round_trip_witness :
  exists x l,
    Headers_get
      (headers
         (redirect_response (redirect_to (js "/login"))
            (Headers_set (Headers_copy (headers (redirect_to (js "/login"))))
               (js "Location") (js "/%2Flogin"))))
      (js "Location") = Some l
    /\ (x = js "/login"
        \/ exists u, URL_parse_plain (js "/login") = Some u /\ x = href u)
    /\ (URL_parse_plain (js "/login") = None -> x = js "/login")
    /\ forall url, pathname url = l ->
         resolveTarget url
         = Return (ensureProtocol x (protocol url) ++ search url).
Proof.
  apply (redirect_round_trip URL_parse_plain (redirect_to (js "/login")) _
           (js "/login"));
    [reflexivity | discriminate | vm_compute; reflexivity].
Defined.

(** ** [ensureProtocol] *)

(** X17. [ensureProtocol] keeps a string exactly when it starts with
    "http://" or "https://" (in lower case); every other string, the empty
    one included, gets the default protocol and "//" in front.  With
    "http:" or "https:" as the default the result always starts with one
    of the two schemes, and completing it again changes nothing. *)
Theorem ensureProtocol_completes (url p : jsstring) :
  (ensureProtocol url p = url
   <-> startsWith url (js "http://") = true
       \/ startsWith url (js "https://") = true)
  /\ (ensureProtocol url p = url
      \/ ensureProtocol url p = p ++ js "//" ++ url)
  /\ (p = js "http:" \/ p = js "https:" ->
      (startsWith (ensureProtocol url p) (js "http://") = true
       \/ startsWith (ensureProtocol url p) (js "https://") = true)
      /\ ensureProtocol (ensureProtocol url p) p = ensureProtocol url p).
Proof.
  assert (Hcases :
    (startsWith url (js "http://") = true \/ startsWith url (js "https://") = true)
    \/ (startsWith url (js "http://") = false
        /\ startsWith url (js "https://") = false)).
  { destruct (startsWith url (js "http://")); [now left; left|].
    destruct (startsWith url (js "https://")); [now left; right|now right]. }
  split; [|split].
  - split; [|apply ensureProtocol_absolute].
    intros He. destruct Hcases as [H|[H1 H2]]; [exact H|].
    rewrite (ensureProtocol_relative url p H1 H2) in He.
    apply (f_equal (@List.length Z)) in He.
    rewrite !length_app in He. cbn [List.length js] in He.
    change (List.length (js "//")) with 2%nat in He. lia.
  - destruct Hcases as [H|[H1 H2]].
    + left. now apply ensureProtocol_absolute.
    + right. now apply ensureProtocol_relative.
  - intros Hp.
    assert (Hs : startsWith (ensureProtocol url p) (js "http://") = true
                 \/ startsWith (ensureProtocol url p) (js "https://") = true).
    { destruct Hcases as [H|[H1 H2]].
      - now rewrite (ensureProtocol_absolute url p H).
      - rewrite (ensureProtocol_relative url p H1 H2).
        destruct Hp as [-> | ->]; [left|right].
        + change (js "http:" ++ js "//" ++ url) with (js "http://" ++ url).
          apply startsWith_app.
        + change (js "https:" ++ js "//" ++ url) with (js "https://" ++ url).
          apply startsWith_app. }
    split; [exact Hs|]. now apply ensureProtocol_absolute.
Qed.

Lemma ensureProtocol_completes_witness :
  (startsWith (ensureProtocol (js "example.com/a") (js "https:")) (js "http://") = true
   \/ startsWith (ensureProtocol (js "example.com/a") (js "https:")) (js "https://") = true)
  /\ ensureProtocol (ensureProtocol (js "example.com/a") (js "https:")) (js "https:")
     = ensureProtocol (js "example.com/a") (js "https:").
Proof.
  apply (proj2 (proj2 (ensureProtocol_completes (js "example.com/a") (js "https:")))).
  right. reflexivity.
Defined.

(** ** From the landing page to the target *)

(** X18. The landing page and the worker agree on the path syntax: for
    well-formed input the script opens [origin/e] where [e] holds no "/",
    "?" or "#", and a request whose path is ["/" ++ e] is resolved to the
    trimmed input, completed by [ensureProtocol], followed by the query of
    the request. *)
Theorem landing_page_link_resolves (currentOrigin value : jsstring)
    (Hw : isWellFormed (String_trim value) = true) :
  exists e,
    redirectToProxy currentOrigin value = Some (currentOrigin ++ js "/" ++ e)
    /\ ~ In 47 e /\ ~ In 63 e /\ ~ In 35 e
    /\ forall url, pathname url = js "/" ++ e ->
         resolveTarget url
         = Return (ensureProtocol (String_trim value) (protocol url)
                   ++ search url).
Proof.
  destruct (encode_total _ Hw) as [e He]. exists e.
  split; [unfold redirectToProxy; now rewrite He|].
  destruct (encode_safe _ _ He) as (_ & H1 & H2 & H3).
  repeat split; auto.
  intros url Hp. apply resolveTarget_decoded. rewrite Hp.
  change (strip_leading_slash (js "/" ++ e)) with e.
  exact (decode_encode _ _ He).
Qed.

Lemma landing_page_link_resolves_witness :
  exists e,
    redirectToProxy (js "https://proxy.example") (js "  example.com/a?b=1 ")
    = Some (js "https://proxy.example" ++ js "/" ++ e)
    /\ ~ In 47 e /\ ~ In 63 e /\ ~ In 35 e
    /\ forall url, pathname url = js "/" ++ e ->
         resolveTarget url
         = Return (ensureProtocol (String_trim (js "  example.com/a?b=1 "))
                     (protocol url)
                   ++ search url).
Proof.
  apply (landing_page_link_resolves (js "https://proxy.example")
           (js "  example.com/a?b=1 ")).
  reflexivity.
Defined.

(** X19. A path without a percent sign is taken literally and never makes
    target resolution fail: one leading slash is dropped, every later
    slash is kept, the scheme is completed and the query appended. *)
Theorem resolveTarget_plain_path (url : URL)
    (Hplain : ~ In 37 (pathname url)) :
  resolveTarget url
  = Return (ensureProtocol (strip_leading_slash (pathname url)) (protocol url)
            ++ search url).
Proof.
  apply resolveTarget_decoded, decode_plain.
  intros Hin. apply Hplain. unfold strip_leading_slash in Hin.
  destruct (pathname url) as [|c r]; [exact Hin|].
  destruct (c =? 47); [now right | exact Hin].
Qed.

Lemma resolveTarget_plain_path_witness :
  resolveTarget (proxy_url (js "https:") (js "/example.com/a/b") (js "?q=1"))
  = Return (js "https://example.com/a/b?q=1").
Proof.
  apply (resolveTarget_plain_path
           (proxy_url (js "https:") (js "/example.com/a/b") (js "?q=1"))).
  vm_compute. intros H.
  repeat (destruct H as [H|H]; [discriminate H|]). exact H.
Defined.

(** ** HTML without a reference to rewrite *)

Lemma replace_loop_unmatched (rx : regex) (template : jsstring)
    (P : jsstring -> Prop)
    (Htail : forall c s, P (c :: s) -> P s)
    (Hno : forall s, P s -> regex_exec rx s = None) :
  forall (fuel : nat) (before s : jsstring),
    P s -> replace_loop fuel rx template before s = s.
Proof.
  induction fuel as [|fuel IH]; intros before s Hs; [reflexivity|].
  cbn [replace_loop]. rewrite (Hno s Hs).
  destruct s as [|c s']; [reflexivity|].
  f_equal. apply IH. exact (Htail c s' Hs).
Qed.

Lemma exec_needs_slash_and_quote (s : jsstring) :
  ~ In 47 s \/ (~ In 34 s /\ ~ In 39 s) ->
  regex_exec relative_path_regex s = None.
Proof.
  intros H.
  destruct (regex_exec relative_path_regex s) as [[[rest len] caps]|] eqn:E;
    [|reflexivity].
  exfalso. apply exec_inv in E as (name & q & _ & Hq & -> & _).
  destruct H as [H | [H1 H2]].
  - apply H. apply in_or_app. right. now left.
  - assert (Hin : In q (opener name q ++ 47 :: rest)).
    { apply in_or_app. left. unfold opener. apply in_or_app. right.
      right. now left. }
    destruct Hq as [<- | [<- | []]]; [now apply H1 | now apply H2].
Qed.

(** X20. A text without a slash, or without a single or double quote, is
    returned unchanged by [replaceRelativePaths], whatever the scheme,
    the host and the origin are. *)
Theorem replaceRelativePaths_unchanged (text protocol host origin : jsstring)
    (Hnone : ~ In 47 text \/ (~ In 34 text /\ ~ In 39 text)) :
  replaceRelativePaths text protocol host origin = text.
Proof.
  unfold replaceRelativePaths, String_replace.
  apply (replace_loop_unmatched relative_path_regex _
           (fun s => ~ In 47 s \/ (~ In 34 s /\ ~ In 39 s))).
  - intros c s [H | [H1 H2]]; [left | right; split]; intros Hin;
      [apply H | apply H1 | apply H2]; now right.
  - exact exec_needs_slash_and_quote.
  - exact Hnone.
Qed.

Lemma replaceRelativePaths_unchanged_witness :
  replaceRelativePaths (js "<a href=/x>$1</a>") (js "https:")
    (js "proxy.example") (js "https://example.com")
  = js "<a href=/x>$1</a>".
Proof.
  apply (replaceRelativePaths_unchanged (js "<a href=/x>$1</a>")).
  right. split; vm_compute; intros H;
    repeat (destruct H as [H|H]; [discriminate H|]); exact H.
Defined.

(** ** Further instances *)

Lemma checkAuth_not_set_iff_witness :
  checkAuth post_request (env_with_password (Some []))
  = Return {| ok := false; reason := Some (js "PASSWORD not set") |}.
Proof.
  apply (proj2 (checkAuth_not_set_iff post_request (env_with_password (Some [])))).
  right. reflexivity.
Defined.

Lemma handleRequest_responses_witness :
  exists r,
    example_worker (Return (upstream_ok (js "text/plain") (js "ok")))
      (proxied_get (js "/example.com/a")) secret_env = Return r
    /\ finished r.
Proof.
  destruct (handleRequest_responses URL_parse_plain
              (fun _ => Return (upstream_ok (js "text/plain") (js "ok")))
              (fun bytes => bytes) example_message example_message
              (js "<!DOCTYPE html>")
              (proxied_get (js "/example.com/a")) secret_event)
    as (r & Hr & _ & _ & Hf).
  exists r. split; [exact Hr|]. apply Hf.
  vm_compute in Hr. injection Hr as <-. vm_compute. discriminate.
Defined.
